(** * ar-picker: the scroll physics of the wheel picker

    A shallow embedding of [src/components/ar-picker/ar-picker.ts]
    (class [Picker]) and the properties of its frame loop.

    Numbers.  A JavaScript number is modelled as an exact rational [Q]:
    the arithmetic of the component is written out with the operations of
    [QArith], and the [Math] functions and the remainder operator [%] are
    defined below on [Q] the way ECMAScript defines them on finite
    numbers.  Rounding error is outside the model.  A division is only
    ever performed where the source performs one, and the one division
    whose divisor can be zero, by the shrunken animation time, is written
    out a second time on the numbers of JavaScript with [NaN] and the
    infinities: on [Q] the frame step is the step of the source as long
    as the animation duration is not zero.

    The two easing functions come from the [bezier-easing] package and are
    parameters of the development. *)

From Stdlib Require Import QArith Qround Qabs ZArith List String Bool.
From Stdlib Require Import Lia Lqa.
Import ListNotations.

Local Open Scope Q_scope.

(** ** JavaScript arithmetic on exact rationals *)

Module JS.

(** [a <= b], [a < b], [a === b] on numbers. *)
Definition le (a b : Q) : bool := Qle_bool a b.
Definition lt (a b : Q) : bool := negb (Qle_bool b a).
Definition eq (a b : Q) : bool := Qeq_bool a b.

(** [Math.abs], [Math.min], [Math.max]. *)
Definition abs (x : Q) : Q := Qabs x.
Definition min (a b : Q) : Q := if le a b then a else b.
Definition max (a b : Q) : Q := if le a b then b else a.

(** [Math.sign]: 1, -1 or 0. *)
Definition sign (x : Q) : Q :=
  if lt 0 x then 1 else if lt x 0 then -1 else 0.

(** [Math.floor], and [Math.round], which rounds halves up. *)
Definition floor (x : Q) : Z := Qfloor x.
Definition round (x : Q) : Z := Qfloor (x + (1 # 2)).

(** Truncation towards zero, and the remainder [x % m], whose sign is
    the sign of the dividend. *)
Definition trunc (x : Q) : Z := if le 0 x then Qfloor x else Qceiling x.
Definition rem (x m : Q) : Q := x - m * inject_Z (trunc (x / m)).

End JS.

(** ** Constants and [approxEq] *)

Definition ITEM_HEIGHT : Q := 24.
Definition EFFECTIVELY_ZERO : Q := 1 # 10000000000.

(** [approxEq(value1, value2, delta = EFFECTIVELY_ZERO)]; every call in
    the component leaves [delta] at its default. *)
Definition approxEq_within (delta value1 value2 : Q) : bool :=
  JS.le (JS.abs (value1 - value2)) delta.
Definition approxEq (value1 value2 : Q) : bool :=
  approxEq_within EFFECTIVELY_ZERO value1 value2.

(** ** The component and its host *)

Definition Item := string.
Bind Scope string_scope with Item.

(** A [Touch] of a touch event: the fields the component reads. *)
Record Touch := mkTouch { identifier : Z; screenY : Q }.

(** Handles returned by [requestAnimationFrame] and [setTimeout] are
    non-zero integers, hence truthy. *)
Definition Handle := positive.
Bind Scope positive_scope with Handle.

(** The instance fields of [Picker], followed by the part of the host the
    component talks to: the callbacks registered with
    [requestAnimationFrame] and [setTimeout] that have not run yet, the
    next handle the host will hand out, and the [detail.selected] of every
    "select" event dispatched so far, oldest first.  [None] stands for
    [undefined] and [null]. *)
Record Picker := mkPicker {
  items : list Item;
  animationDuration : Q;
  _pendingScroll : Q;
  _currentScroll : Q;
  _isExternalForceActive : bool;
  _selectedItem : option Item;
  _lastTimestamp : option Q;
  _animating : option Handle;
  trackedTouch : option Touch;
  _debounceTimer : option Handle;
  frames : list Handle;
  timers : list Handle;
  fresh : Handle;
  selects : list (option Item)
}.

Definition set_pendingScroll (v : Q) (s : Picker) : Picker :=
  mkPicker (items s) (animationDuration s) v (_currentScroll s)
    (_isExternalForceActive s) (_selectedItem s) (_lastTimestamp s)
    (_animating s) (trackedTouch s) (_debounceTimer s)
    (frames s) (timers s) (fresh s) (selects s).

Definition set_currentScroll (v : Q) (s : Picker) : Picker :=
  mkPicker (items s) (animationDuration s) (_pendingScroll s) v
    (_isExternalForceActive s) (_selectedItem s) (_lastTimestamp s)
    (_animating s) (trackedTouch s) (_debounceTimer s)
    (frames s) (timers s) (fresh s) (selects s).

Definition set_isExternalForceActive (v : bool) (s : Picker) : Picker :=
  mkPicker (items s) (animationDuration s) (_pendingScroll s) (_currentScroll s)
    v (_selectedItem s) (_lastTimestamp s)
    (_animating s) (trackedTouch s) (_debounceTimer s)
    (frames s) (timers s) (fresh s) (selects s).

Definition set_selectedItem (v : option Item) (s : Picker) : Picker :=
  mkPicker (items s) (animationDuration s) (_pendingScroll s) (_currentScroll s)
    (_isExternalForceActive s) v (_lastTimestamp s)
    (_animating s) (trackedTouch s) (_debounceTimer s)
    (frames s) (timers s) (fresh s) (selects s).

Definition set_lastTimestamp (v : option Q) (s : Picker) : Picker :=
  mkPicker (items s) (animationDuration s) (_pendingScroll s) (_currentScroll s)
    (_isExternalForceActive s) (_selectedItem s) v
    (_animating s) (trackedTouch s) (_debounceTimer s)
    (frames s) (timers s) (fresh s) (selects s).

Definition set_animating (v : option Handle) (s : Picker) : Picker :=
  mkPicker (items s) (animationDuration s) (_pendingScroll s) (_currentScroll s)
    (_isExternalForceActive s) (_selectedItem s) (_lastTimestamp s)
    v (trackedTouch s) (_debounceTimer s)
    (frames s) (timers s) (fresh s) (selects s).

Definition set_trackedTouch (v : option Touch) (s : Picker) : Picker :=
  mkPicker (items s) (animationDuration s) (_pendingScroll s) (_currentScroll s)
    (_isExternalForceActive s) (_selectedItem s) (_lastTimestamp s)
    (_animating s) v (_debounceTimer s)
    (frames s) (timers s) (fresh s) (selects s).

Definition set_debounceTimer (v : option Handle) (s : Picker) : Picker :=
  mkPicker (items s) (animationDuration s) (_pendingScroll s) (_currentScroll s)
    (_isExternalForceActive s) (_selectedItem s) (_lastTimestamp s)
    (_animating s) (trackedTouch s) v
    (frames s) (timers s) (fresh s) (selects s).

Definition set_frames (v : list Handle) (s : Picker) : Picker :=
  mkPicker (items s) (animationDuration s) (_pendingScroll s) (_currentScroll s)
    (_isExternalForceActive s) (_selectedItem s) (_lastTimestamp s)
    (_animating s) (trackedTouch s) (_debounceTimer s)
    v (timers s) (fresh s) (selects s).

Definition set_timers (v : list Handle) (s : Picker) : Picker :=
  mkPicker (items s) (animationDuration s) (_pendingScroll s) (_currentScroll s)
    (_isExternalForceActive s) (_selectedItem s) (_lastTimestamp s)
    (_animating s) (trackedTouch s) (_debounceTimer s)
    (frames s) v (fresh s) (selects s).

Definition set_fresh (v : Handle) (s : Picker) : Picker :=
  mkPicker (items s) (animationDuration s) (_pendingScroll s) (_currentScroll s)
    (_isExternalForceActive s) (_selectedItem s) (_lastTimestamp s)
    (_animating s) (trackedTouch s) (_debounceTimer s)
    (frames s) (timers s) v (selects s).

Definition set_selects (v : list (option Item)) (s : Picker) : Picker :=
  mkPicker (items s) (animationDuration s) (_pendingScroll s) (_currentScroll s)
    (_isExternalForceActive s) (_selectedItem s) (_lastTimestamp s)
    (_animating s) (trackedTouch s) (_debounceTimer s)
    (frames s) (timers s) (fresh s) v.

(** The component as the constructor leaves it, once the page has
    assigned [items] and [animationDuration] (the constructor's own value
    is 180).  The constructor writes [false] to a misspelt field, so
    [_isExternalForceActive] starts [undefined], which every use treats as
    [false]. *)
Definition constructed (its : list Item) (duration : Q) : Picker :=
  mkPicker its duration 0 0 false None None None None None [] [] 1%positive [].

(** *** Host operations *)

Definition requestAnimationFrame (s : Picker) : Handle * Picker :=
  (fresh s, set_fresh (Pos.succ (fresh s)) (set_frames (frames s ++ [fresh s]) s)).

Definition cancelAnimationFrame (h : Handle) (s : Picker) : Picker :=
  set_frames (remove Pos.eq_dec h (frames s)) s.

Definition setTimeout (s : Picker) : Handle * Picker :=
  (fresh s, set_fresh (Pos.succ (fresh s)) (set_timers (timers s ++ [fresh s]) s)).

Definition clearTimeout (h : Handle) (s : Picker) : Picker :=
  set_timers (remove Pos.eq_dec h (timers s)) s.

(** [this.dispatchEvent(new CustomEvent("select", {detail: {selected}}))] *)
Definition dispatchSelect (selected : option Item) (s : Picker) : Picker :=
  set_selects (selects s ++ [selected]) s.

(** [this.items[i]]: [undefined] outside the array. *)
Definition item_at (l : list Item) (i : Z) : option Item :=
  if (i <? 0)%Z then None else nth_error l (Z.to_nat i).

(** [a === b] on items and [undefined]. *)
Definition same_item (a b : option Item) : bool :=
  match a, b with
  | Some x, Some y => String.eqb x y
  | None, None => true
  | _, _ => false
  end.

(** [this.items.length] as a number. *)
Definition items_length (s : Picker) : Q := inject_Z (Z.of_nat (List.length (items s))).

(** What a call into the component does: it returns, or it throws and
    leaves the fields as they were at the [throw]. *)
Inductive Outcome :=
| Returned (s : Picker)
| Thrown_RangeError (s : Picker).

Definition state_of (o : Outcome) : Picker :=
  match o with
  | Returned s => s
  | Thrown_RangeError s => s
  end.

(** The events the host delivers: the five DOM events the template
    listens to, a click on an item row, the run of a frame callback and
    the expiry of a timer. *)
Inductive Event :=
| Wheel (deltaY : Q)
| TouchStart (changedTouches : list Touch)
| TouchEnd (changedTouches : list Touch)
| TouchMove (changedTouches : list Touch)
| KeyDown (key : string)
| ItemClick (data_value : Item) (offsetTop whitespaceTop whitespaceHeight : Q)
| Frame (h : Handle) (now : Q)
| Timeout (h : Handle).

Section Component.

(** [this.easingFunction] and [this.inverseEasingFunction], built by the
    [bezierCurve] setter as [bezier(x1, y1, x2, y2)] and
    [bezier(y1, x1, y2, x2)]. *)
Variables easingFunction inverseEasingFunction : Q -> Q.

Definition _selectedIndex (s : Picker) : Z :=
  JS.round (_currentScroll s / ITEM_HEIGHT).

Definition _stopAnimation (s : Picker) : Picker :=
  let s := set_pendingScroll 0 s in
  let s := set_lastTimestamp None s in
  match _animating s with
  | Some h => set_animating None (cancelAnimationFrame h s)
  | None => s
  end.

(** The handle [requestAnimationFrame] returns is dropped here. *)
Definition _startPhysicsAnimation (s : Picker) : Picker :=
  match _animating s with
  | None => snd (requestAnimationFrame s)
  | Some _ => s
  end.

Definition _isWheelStable (s : Picker) : bool * Picker :=
  if approxEq (_pendingScroll s) 0 then
    let s := set_pendingScroll 0 s in
    (approxEq (JS.rem (_currentScroll s) ITEM_HEIGHT) 0
     || _isExternalForceActive s, s)
  else (false, s).

Definition _onWheelStable (s : Picker) : Picker :=
  let selectedIndex := _selectedIndex s in
  let s :=
    if negb (_isExternalForceActive s)
       && negb (same_item (_selectedItem s) (item_at (items s) selectedIndex))
    then
      let s := set_selectedItem (item_at (items s) selectedIndex) s in
      dispatchSelect (_selectedItem s) s
    else s in
  _stopAnimation s.

Definition _stabilizeWheel (s : Picker) : Picker :=
  let s :=
    if JS.lt (ITEM_HEIGHT / 2) (JS.rem (_currentScroll s) ITEM_HEIGHT)
    then set_pendingScroll
           (ITEM_HEIGHT - JS.rem (_currentScroll s) ITEM_HEIGHT) s
    else set_pendingScroll (- JS.rem (_currentScroll s) ITEM_HEIGHT) s in
  _startPhysicsAnimation s.

(** *** The frame step

    The [const]s of [_animatePhysics], each a function of the fields it
    reads.  The two quotients by [shrunkenAnimationTime] are those of the
    source when it is not zero, which is when [animationDuration] is not;
    [animate_numbers] below has the numbers the source computes in either
    case. *)

Definition scrollOffset (s : Picker) : Q :=
  if JS.lt 0 (_pendingScroll s)
  then JS.rem (ITEM_HEIGHT + _currentScroll s) ITEM_HEIGHT
  else JS.rem (ITEM_HEIGHT - JS.rem (_currentScroll s) ITEM_HEIGHT) ITEM_HEIGHT.

Definition shrunkenAnimationTime (s : Picker) : Q :=
  JS.min (animationDuration s)
         (animationDuration s * ITEM_HEIGHT / JS.abs (_pendingScroll s)).

(** [t]: the time the easing curve takes to cover the offset. *)
Definition t_estimate (s : Picker) : Q :=
  inverseEasingFunction (scrollOffset s / ITEM_HEIGHT) * shrunkenAnimationTime s.

(** [dx] as first assigned: the differential distance for [delta]. *)
Definition dx_differential (delta : Q) (s : Picker) : Q :=
  easingFunction
    (JS.min 1 ((t_estimate s + delta) / shrunkenAnimationTime s)) * ITEM_HEIGHT
  - easingFunction
      (JS.min 1 (t_estimate s / shrunkenAnimationTime s)) * ITEM_HEIGHT.

(** [dx] after "apply maximum limits". *)
Definition dx_limited (delta : Q) (s : Picker) : Q :=
  JS.sign (_pendingScroll s)
  * JS.min (JS.abs (_pendingScroll s)) (dx_differential delta s).

(** The two sentinel checks and the absorption they guard. *)
Definition sentinel (s : Picker) : Picker :=
  if (JS.eq (_currentScroll s) 0 && JS.lt (_pendingScroll s) 0)
     || (JS.le (ITEM_HEIGHT * (items_length s - 1)) (_currentScroll s)
         && JS.lt 0 (_pendingScroll s))
  then set_pendingScroll 0 s
  else s.

(** [this._lastTimestamp = now; this._animating = requestAnimationFrame(...)] *)
Definition reschedule (now : Q) (s : Picker) : Picker :=
  let s := set_lastTimestamp (Some now) s in
  let (h, s) := requestAnimationFrame s in
  set_animating (Some h) s.

(** "animate scroll" up to "compute animation params for next frame".
    [_applyPhysics] only writes the rows' styles and is left out. *)
Definition animate_scroll (dx : Q) (s : Picker) : Picker :=
  let s := set_currentScroll
             (JS.max 0 (JS.min (ITEM_HEIGHT * items_length s)
                               (_currentScroll s + dx))) s in
  let s := if approxEq (_currentScroll s) (inject_Z (JS.round (_currentScroll s)))
           then set_currentScroll (inject_Z (JS.round (_currentScroll s))) s
           else s in
  set_pendingScroll (_pendingScroll s - dx) s.

Definition _animatePhysics (now : Q) (s : Picker) : Outcome :=
  match _lastTimestamp s with
  | Some last =>
      if negb (JS.eq last 0) then
        let s := sentinel s in
        if approxEq (_pendingScroll s) 0 then
          let (stable, s) := _isWheelStable s in
          if stable then Returned (_onWheelStable s)
          else Returned (reschedule now (_stabilizeWheel s))
        else
          let delta := now - last in
          if JS.lt (scrollOffset s) 0 then Thrown_RangeError s
          else Returned (reschedule now (animate_scroll (dx_limited delta s) s))
      else Returned (reschedule now s)
  | None => Returned (reschedule now s)
  end.

(** *** Input handlers *)

Definition _onItemClick (data_value : Item)
           (offsetTop whitespaceTop whitespaceHeight : Q) (s : Picker) : Picker :=
  let s := set_pendingScroll
             (_pendingScroll s
              + (offsetTop - (_currentScroll s + whitespaceTop + whitespaceHeight))) s in
  let s := _startPhysicsAnimation s in
  dispatchSelect (Some data_value) s.

Definition _onKeyDown (key : string) (s : Picker) : Picker :=
  if String.eqb key "ArrowUp" then
    _startPhysicsAnimation (set_pendingScroll (_pendingScroll s - ITEM_HEIGHT) s)
  else if String.eqb key "ArrowDown" then
    _startPhysicsAnimation (set_pendingScroll (_pendingScroll s + ITEM_HEIGHT) s)
  else s.

Definition find_touch (id : Z) (changedTouches : list Touch) : option Touch :=
  find (fun touch => (identifier touch =? id)%Z) changedTouches.

Definition _onTouchStart (changedTouches : list Touch) (s : Picker) : Picker :=
  match trackedTouch s with
  | None =>
      set_isExternalForceActive true (set_trackedTouch (hd_error changedTouches) s)
  | Some _ => s
  end.

Definition _onTouchEnd (changedTouches : list Touch) (s : Picker) : Picker :=
  match trackedTouch s with
  | Some tracked =>
      match find_touch (identifier tracked) changedTouches with
      | Some _ =>
          _startPhysicsAnimation
            (set_isExternalForceActive false (set_trackedTouch None s))
      | None => s
      end
  | None => s
  end.

Definition _onTouchMove (changedTouches : list Touch) (s : Picker) : Picker :=
  match trackedTouch s with
  | Some tracked =>
      match find_touch (identifier tracked) changedTouches with
      | Some currentTouch =>
          let s := set_pendingScroll
                     (_pendingScroll s + (screenY tracked - screenY currentTouch)) s in
          let s := _startPhysicsAnimation s in
          set_trackedTouch (Some currentTouch) s
      | None => s
      end
  | None => s
  end.

(** The callback the wheel handler hands to [setTimeout]. *)
Definition debounce_callback (s : Picker) : Picker :=
  let s := set_isExternalForceActive false s in
  let s := set_debounceTimer None s in
  let (stable, s) := _isWheelStable s in
  if stable then s else _stabilizeWheel s.

Definition _onWheelHandler (deltaY : Q) (s : Picker) : Picker :=
  let smoothScroll := JS.eq deltaY (inject_Z (JS.round deltaY)) in
  if negb smoothScroll then
    let s := set_isExternalForceActive true s in
    let s := match _debounceTimer s with
             | Some h => clearTimeout h s
             | None => s
             end in
    let (h, s) := setTimeout s in
    let s := set_debounceTimer (Some h) s in
    let s := set_pendingScroll (_pendingScroll s + deltaY) s in
    _startPhysicsAnimation s
  else
    let s := set_pendingScroll
               (_pendingScroll s
                + inject_Z (JS.floor (deltaY / ITEM_HEIGHT)) * ITEM_HEIGHT) s in
    _startPhysicsAnimation s.

(** *** The host's event loop *)

Definition mem (h : Handle) (l : list Handle) : bool :=
  existsb (Pos.eqb h) l.

(** The host runs a callback once and drops it from its list first. *)
Definition deliver (e : Event) (s : Picker) : Outcome :=
  match e with
  | Wheel deltaY => Returned (_onWheelHandler deltaY s)
  | TouchStart ts => Returned (_onTouchStart ts s)
  | TouchEnd ts => Returned (_onTouchEnd ts s)
  | TouchMove ts => Returned (_onTouchMove ts s)
  | KeyDown key => Returned (_onKeyDown key s)
  | ItemClick v top wtop wh => Returned (_onItemClick v top wtop wh s)
  | Frame h now =>
      if mem h (frames s)
      then _animatePhysics now (cancelAnimationFrame h s)
      else Returned s
  | Timeout h =>
      if mem h (timers s)
      then Returned (debounce_callback (clearTimeout h s))
      else Returned s
  end.

(** An uncaught exception ends the callback that raised it; the page and
    the component live on with the fields as they are. *)
Fixpoint run (es : list Event) (s : Picker) : Picker :=
  match es with
  | [] => s
  | e :: es' => run es' (state_of (deliver e s))
  end.

(** *** The frame loop on its own

    With no other event in between, the host runs the oldest registered
    frame callback at each tick of its clock; once none is registered the
    loop is over and a tick does nothing.  [frame_loop clock n] is the
    picker after the ticks [clock 0], ..., [clock (n - 1)]. *)
Definition next_frame (now : Q) (s : Picker) : Picker :=
  match frames s with
  | h :: _ => state_of (deliver (Frame h now) s)
  | [] => s
  end.

Definition frame_loop (clock : N -> Q) (n : N) (s : Picker) : Picker :=
  N.peano_rect (fun _ => Picker) s (fun i acc => next_frame (clock i) acc) n.

End Component.

(** ** The range of the scroll position *)

(** [0 <= _currentScroll <= ITEM_HEIGHT * items.length] *)
Definition in_range (s : Picker) : Prop :=
  0 <= _currentScroll s <= ITEM_HEIGHT * items_length s.

(** A call that left the scroll position and the item list alone. *)
Definition same_scroll (s s' : Picker) : Prop :=
  _currentScroll s' = _currentScroll s /\ items s' = items s.

(** ** The debounce timer *)

(** The host holds the timer [_debounceTimer] names and no other. *)
Definition timer_owned (s : Picker) : Prop :=
  timers s = match _debounceTimer s with Some h => [h] | None => [] end.

(** ** The settle after one ArrowDown

    [wheel_settling b slack now s]: the wheel of [s] is on its way to 24
    and nothing has been dispatched; the sum of position and pending
    displacement is within [slack] of 24, and the last timestamp, if any,
    is before [now].  [b] is the item at index 1.  [settling] adds that
    exactly one frame callback is registered. *)
Record wheel_settling (b : Item) (slack now : Q) (s : Picker) : Prop := {
  st_length : List.length (items s) = 5%nat;
  st_item : item_at (items s) 1 = Some b;
  st_duration : 0 < animationDuration s;
  st_force : _isExternalForceActive s = false;
  st_selected : _selectedItem s = None;
  st_selects : selects s = [];
  st_stamp : forall last, _lastTimestamp s = Some last ->
             last < now /\ exists h, _animating s = Some h;
  st_low : 0 <= _currentScroll s;
  st_high : _currentScroll s <= 24 + slack;
  st_sum : 24 - slack <= _currentScroll s + _pendingScroll s <= 24 + slack;
  st_snapped : approxEq (_currentScroll s) (inject_Z (JS.round (_currentScroll s))) = true ->
               _currentScroll s == inject_Z (JS.round (_currentScroll s))
}.

Definition settling (b : Item) (slack now : Q) (s : Picker) : Prop :=
  wheel_settling b slack now s /\ exists h, frames s = [h].

(** [settled b s]: the loop is over, the wheel rests on 24 and the one
    event dispatched carries [b]. *)
Definition settled (b : Item) (s : Picker) : Prop :=
  frames s = []
  /\ _currentScroll s == 24
  /\ _pendingScroll s == 0
  /\ selects s = [Some b].

(** ** Configurations of the scenarios *)

(** [bezier(x, x, y, y)] returns the package's [LinearEasing]: with such
    a curve both easing functions are the identity. *)
Definition LinearEasing (x : Q) : Q := x.

Definition five_items : list Item := ["a"; "b"; "c"; "d"; "e"]%string.

(** The picker of the scenarios: five items, the default duration. *)
Definition five_picker : Picker := constructed five_items 180.

(** The picker at rest on its first item, after one ArrowDown. *)
Definition arrow_down_picker (its : list Item) (duration : Q) : Picker :=
  _onKeyDown "ArrowDown" (constructed its duration).

(** A residue of [2^-40] is pending on the picker at rest. *)
Definition residual_picker : Picker :=
  set_pendingScroll (1 # 1099511627776) five_picker.

(** Two ArrowDown events before any frame, then the first of the two
    frame callbacks they registered, run at time 16. *)
Definition twice_started_picker : Picker :=
  run LinearEasing LinearEasing
      [KeyDown "ArrowDown"; KeyDown "ArrowDown"; Frame 1 16] five_picker.

(** A finger rests on the wheel, which is aligned on item 1 with nothing
    pending; the loop has had its bootstrap frame. *)
Definition dragging_aligned_picker : Picker :=
  mkPicker five_items 180 0 24 true None (Some 16) (Some 2%positive)
           (Some (mkTouch 0 100)) None [2%positive] [] 3%positive [].

(** The wheel between items 1 and 2, nearer to 1. *)
Definition off_boundary_picker : Picker := set_currentScroll 30 five_picker.


Definition arrow_down_bootstrapped : Picker :=
  run LinearEasing LinearEasing [KeyDown "ArrowDown"; Frame 1 16] five_picker.

(** ** A display at 60 frames a second

    The first frame at 16, one every 16 after it. *)
Definition sixty_hertz (i : N) : Q := inject_Z (Z.of_N i + 1) * 16.

(** [gliding c last s]: the loop is running on [s] under the linear curve
    with the default duration, the wheel is on [c] on its way to 24, the
    sum of position and pending displacement is 24, and the last frame
    was at [last]. *)
Record gliding (c last : Q) (s : Picker) : Prop := {
  gl_items : items s = five_items;
  gl_duration : animationDuration s = 180;
  gl_force : _isExternalForceActive s = false;
  gl_selected : _selectedItem s = None;
  gl_selects : selects s = [];
  gl_frames : exists h, frames s = [h];
  gl_animating : exists h, _animating s = Some h;
  gl_stamp : _lastTimestamp s = Some last;
  gl_scroll : _currentScroll s == c;
  gl_pending : _pendingScroll s == 24 - c
}.

(** ** Frames closer together than the snap can see

    A clock that starts at 1 and ticks every [180 / 2^38]: with the
    linear curve a frame then moves the wheel by [24 / 2^38], which is
    less than [EFFECTIVELY_ZERO]. *)
Definition trap_step : Q := 180 # 274877906944.

Definition trap_clock (i : N) : Q := 1 + inject_Z (Z.of_N i) * trap_step.

(** [trapped j s]: the loop is running on [s], the last frame was at tick
    [j] of the clock, and [j] frames have each used up [24 / 2^38] of the
    pending displacement while the wheel is on 0 as before. *)
Record trapped (j : N) (s : Picker) : Prop := {
  tr_items : items s = five_items;
  tr_duration : animationDuration s = 180;
  tr_force : _isExternalForceActive s = false;
  tr_selected : _selectedItem s = None;
  tr_selects : selects s = [];
  tr_frames : exists h, frames s = [h];
  tr_animating : exists h, _animating s = Some h;
  tr_stamp : _lastTimestamp s = Some (trap_clock j);
  tr_scroll : _currentScroll s = 0;
  tr_pending : _pendingScroll s == 24 - inject_Z (Z.of_N j) * (24 # 274877906944)
}.

(** ** The rest of the component

    [within_items s]: the wheel is between the boundaries of the first
    and of the last item,
    [0 <= _currentScroll <= ITEM_HEIGHT * (items.length - 1)]. *)
Definition within_items (s : Picker) : Prop :=
  0 <= _currentScroll s <= ITEM_HEIGHT * (items_length s - 1).

(** [scheduled s]: the handle in [_animating] is that of a registered
    frame callback, and a frame callback is registered whenever a
    displacement is pending. *)
Definition scheduled (s : Picker) : Prop :=
  (forall h, _animating s = Some h -> In h (frames s))
  /\ (~ _pendingScroll s == 0 -> frames s <> []).

Definition is_click (e : Event) : bool :=
  match e with
  | ItemClick _ _ _ _ => true
  | _ => false
  end.

Definition is_frame (e : Event) : bool :=
  match e with
  | Frame _ _ => true
  | _ => false
  end.

(** The touch the component tracks after a series of touch moves: each
    move that carries the tracked identifier replaces the tracked touch
    by its own. *)
Fixpoint follow (tracked : Touch) (moves : list (list Touch)) : Touch :=
  match moves with
  | [] => tracked
  | changedTouches :: moves' =>
      match find_touch (identifier tracked) changedTouches with
      | Some currentTouch => follow currentTouch moves'
      | None => follow tracked moves'
      end
  end.

(** How many of the keys are [key]. *)
Definition presses (key : string) (keys : list string) : Z :=
  Z.of_nat (count_occ string_dec keys key).

(** The [selected] class of row [i] after [_applyPhysics], for a
    container of height [offsetHeight]: a row nearer to the scroll
    position than half the container has the class toggled to whether it
    is nearer than half an item; any other row keeps the class it had.
    (The transform the method writes next to it goes through [Math.sin]
    and is not modelled.) *)
Definition applyPhysics_selected
           (offsetHeight : Q) (s : Picker) (i : nat) (selected : bool) : bool :=
  if JS.lt (JS.abs (inject_Z (Z.of_nat i) * ITEM_HEIGHT - _currentScroll s))
           (offsetHeight / 2)
  then JS.lt (JS.abs (inject_Z (Z.of_nat i) * ITEM_HEIGHT - _currentScroll s))
             (ITEM_HEIGHT / 2)
  else selected.

(** ** Pickers and input of the further scenarios *)

(** The wheel on the boundary of the last item with two item heights
    still pending downwards; the loop has had its bootstrap frame. *)
Definition last_item_picker : Picker :=
  mkPicker five_items 180 48 96 false (Some "e"%string) (Some 16) (Some 2%positive)
           None None [2%positive] [] 3%positive [].

(** The wheel on item 2, and on the upper bound the frame step clamps to. *)
Definition third_item_picker : Picker := set_currentScroll 48 five_picker.

Definition upper_bound_picker : Picker := set_currentScroll 120 five_picker.

(** A drag of the finger 0 from 100 up to 70, with a move of another
    finger in between. *)
Definition drag_moves : list (list Touch) :=
  [[mkTouch 0 90]; [mkTouch 1 10]; [mkTouch 0 70]].

(** Input without a frame and without a click. *)
Definition frameless_input : list Event :=
  [Wheel (1 # 2); KeyDown "ArrowDown"; TouchStart [mkTouch 0 100];
   TouchMove [mkTouch 0 90]; Timeout 1].

(** Input without a click. *)
Definition clickless_input : list Event :=
  [KeyDown "ArrowDown"; Frame 1 16; Frame 2 32; Wheel (1 # 2); Timeout 4;
   Frame 3 48].

(** ** The frame step in the arithmetic of JavaScript

    The fields of the component are rationals here, and so is everything
    the handlers compute from them, with one exception: "animate scroll"
    divides by the shrunken animation time, which is zero when
    [animationDuration] is.  A JavaScript number is also [NaN] or an
    infinity then, and [Number] has these values.  Zero is the positive
    zero throughout. *)
Inductive Number :=
| Finite (q : Q)
| NaN
| Infinity (positive : bool).

Module IEEE.

Definition neg (x : Number) : Number :=
  match x with
  | Finite a => Finite (- a)
  | NaN => NaN
  | Infinity p => Infinity (negb p)
  end.

Definition add (x y : Number) : Number :=
  match x, y with
  | Finite a, Finite b => Finite (a + b)
  | NaN, _ | _, NaN => NaN
  | Infinity p, Infinity q => if Bool.eqb p q then Infinity p else NaN
  | Infinity p, Finite _ | Finite _, Infinity p => Infinity p
  end.

Definition sub (x y : Number) : Number := add x (neg y).



(** [Math.abs], [Math.sign], [Math.round] *)
Definition abs (x : Number) : Number :=
  match x with
  | Finite a => Finite (JS.abs a)
  | NaN => NaN
  | Infinity _ => Infinity true
  end.

Definition sign (x : Number) : Number :=
  match x with
  | Finite a => Finite (JS.sign a)
  | NaN => NaN
  | Infinity p => Finite (if p then 1 else -1)
  end.

Definition round (x : Number) : Number :=
  match x with
  | Finite a => Finite (inject_Z (JS.round a))
  | _ => x
  end.

(** [Math.min] and [Math.max]: [NaN] as soon as an argument is. *)
Definition min (x y : Number) : Number :=
  match x, y with
  | Finite a, Finite b => Finite (JS.min a b)
  | NaN, _ | _, NaN => NaN
  | Infinity true, _ => y
  | _, Infinity true => x
  | Infinity false, _ | _, Infinity false => Infinity false
  end.

Definition max (x y : Number) : Number :=
  match x, y with
  | Finite a, Finite b => Finite (JS.max a b)
  | NaN, _ | _, NaN => NaN
  | Infinity false, _ => y
  | _, Infinity false => x
  | Infinity true, _ | _, Infinity true => Infinity true
  end.

(** [x <= y]: false as soon as an operand is [NaN]. *)
Definition le (x y : Number) : bool :=
  match x, y with
  | Finite a, Finite b => JS.le a b
  | NaN, _ | _, NaN => false
  | Infinity false, _ | _, Infinity true => true
  | Infinity true, _ | _, Infinity false => false
  end.

Definition approxEq (value1 value2 : Number) : bool :=
  le (abs (sub value1 value2)) (Finite EFFECTIVELY_ZERO).

End IEEE.

Section Numbers.

(** The two curves as functions on all numbers. *)
Variables easingFunction inverseEasingFunction : Number -> Number.



End Numbers.



(** * Properties

    ** Facts about the arithmetic *)

Module JSFacts.
Import JS.

Lemma le_spec a b : le a b = true <-> a <= b.
Proof. apply Qle_bool_iff. Qed.

Lemma le_false a b : le a b = false <-> b < a.
Proof.
  unfold le. split; intro H.
  - apply Qnot_le_lt. intro Hle. apply Qle_bool_iff in Hle. congruence.
  - destruct (Qle_bool a b) eqn:E; [|reflexivity].
    apply Qle_bool_iff in E. lra.
Qed.

Lemma lt_spec a b : lt a b = true <-> a < b.
Proof.
  unfold lt. rewrite negb_true_iff. apply (le_false b a).
Qed.

Lemma lt_false a b : lt a b = false <-> b <= a.
Proof.
  unfold lt. rewrite negb_false_iff. apply (le_spec b a).
Qed.

Lemma eq_spec a b : eq a b = true <-> a == b.
Proof. apply Qeq_bool_iff. Qed.

Lemma eq_false a b : eq a b = false <-> ~ a == b.
Proof.
  unfold eq. split; intro H.
  - intro E. apply Qeq_bool_iff in E. congruence.
  - destruct (Qeq_bool a b) eqn:E; [|reflexivity].
    apply Qeq_bool_iff in E. contradiction.
Qed.

Lemma min_spec a b : (a <= b /\ min a b = a) \/ (b < a /\ min a b = b).
Proof.
  unfold min. destruct (le a b) eqn:E.
  - left. split; [now apply le_spec|reflexivity].
  - right. split; [now apply le_false|reflexivity].
Qed.

Lemma max_spec a b : (a <= b /\ max a b = b) \/ (b < a /\ max a b = a).
Proof.
  unfold max. destruct (le a b) eqn:E.
  - left. split; [now apply le_spec|reflexivity].
  - right. split; [now apply le_false|reflexivity].
Qed.

Lemma sign_spec x :
  (0 < x /\ sign x = 1) \/ (x < 0 /\ sign x = -1) \/ (x == 0 /\ sign x = 0).
Proof.
  unfold sign. destruct (lt 0 x) eqn:E1.
  - left. split; [now apply lt_spec|reflexivity].
  - apply lt_false in E1. destruct (lt x 0) eqn:E2.
    + right. left. split; [now apply lt_spec|reflexivity].
    + apply lt_false in E2. right. right. split; [lra|reflexivity].
Qed.

Lemma abs_spec x : (0 <= x /\ abs x == x) \/ (x < 0 /\ abs x == - x).
Proof.
  unfold abs. destruct (Qlt_le_dec x 0) as [H|H].
  - right. split; [assumption|]. rewrite Qabs_neg; lra.
  - left. split; [assumption|]. rewrite Qabs_pos; lra.
Qed.

(** For a non-negative dividend the remainder by a positive modulus
    lies in [[0, m)] and differs from the dividend by a multiple of the
    modulus. *)
Lemma rem_nonneg x m :
  0 <= x -> 0 < m ->
  0 <= rem x m /\ rem x m < m /\
  rem x m = x - m * inject_Z (Qfloor (x / m)) /\ (0 <= Qfloor (x / m))%Z.
Proof.
  intros Hx Hm. unfold rem, trunc.
  assert (Hq : 0 <= x / m).
  { apply Qle_shift_div_l; lra. }
  apply le_spec in Hq as Hb. rewrite Hb.
  pose proof (Qfloor_le (x / m)) as Hlo.
  pose proof (Qlt_floor (x / m)) as Hhi.
  rewrite inject_Z_plus in Hhi. change (inject_Z 1) with 1 in Hhi.
  assert (Hxm : x == m * (x / m)) by (field; lra).
  set (k := inject_Z (Qfloor (x / m))) in *.
  set (q := x / m) in *.
  repeat split.
  - assert (m * k <= m * q) by (apply Qmult_le_l; lra). lra.
  - assert (m * q < m * (k + 1)) by (apply Qmult_lt_l; lra). lra.
  - apply (Qfloor_resp_le 0 q) in Hq. exact Hq.
Qed.

End JSFacts.

(** ** Proof steps shared by the case analyses *)

Ltac break_branch :=
  match goal with
  | |- context [if ?b then _ else _] => destruct b eqn:?
  | |- context [match ?x with Some _ => _ | None => _ end] => destruct x eqn:?
  end.

Ltac split_cases := repeat (break_branch; cbn in *).

(** Reduce projections of updated records, and nothing else. *)
Ltac fields :=
  cbn [items animationDuration _pendingScroll _currentScroll
       _isExternalForceActive _selectedItem _lastTimestamp _animating
       trackedTouch _debounceTimer frames timers fresh selects
       set_pendingScroll set_currentScroll set_isExternalForceActive
       set_selectedItem set_lastTimestamp set_animating set_trackedTouch
       set_debounceTimer set_frames set_timers set_fresh set_selects
       state_of fst snd] in *.

Create HintDb picker.

#[local] Hint Unfold _animatePhysics _onWheelStable _isWheelStable
  _stabilizeWheel _startPhysicsAnimation _stopAnimation sentinel reschedule
  animate_scroll requestAnimationFrame cancelAnimationFrame dispatchSelect
  : picker.

(** ** [approxEq] and the sentinel checks *)

Lemma approxEq_spec (a b : Q) :
  approxEq a b = true <-> Qabs (a - b) <= EFFECTIVELY_ZERO.
Proof. unfold approxEq, approxEq_within, JS.abs. apply JSFacts.le_spec. Qed.

Lemma approxEq_false (a b : Q) :
  approxEq a b = false <-> EFFECTIVELY_ZERO < Qabs (a - b).
Proof. unfold approxEq, approxEq_within, JS.abs. apply JSFacts.le_false. Qed.

Lemma approxEq_zero (p : Q) :
  approxEq p 0 = true <-> - EFFECTIVELY_ZERO <= p <= EFFECTIVELY_ZERO.
Proof.
  rewrite approxEq_spec. unfold EFFECTIVELY_ZERO.
  destruct (JSFacts.abs_spec (p - 0)) as [[H1 H2]|[H1 H2]];
    unfold JS.abs in H2; rewrite H2; split; intros; lra.
Qed.

Lemma approxEq_zero_false (p : Q) :
  approxEq p 0 = false <-> p < - EFFECTIVELY_ZERO \/ EFFECTIVELY_ZERO < p.
Proof.
  rewrite approxEq_false. unfold EFFECTIVELY_ZERO.
  destruct (JSFacts.abs_spec (p - 0)) as [[H1 H2]|[H1 H2]];
    unfold JS.abs in H2; rewrite H2; split; intros; lra.
Qed.

(** The sentinel checks leave a state with nothing pending as it is. *)
Lemma sentinel_idle (s : Picker) : _pendingScroll s == 0 -> sentinel s = s.
Proof.
  intro Hp. unfold sentinel.
  assert (H1 : JS.lt (_pendingScroll s) 0 = false) by (apply JSFacts.lt_false; lra).
  assert (H2 : JS.lt 0 (_pendingScroll s) = false) by (apply JSFacts.lt_false; lra).
  rewrite H1, H2, !andb_false_r. reflexivity.
Qed.

(** ** Settling and the external force *)

Section Suppression.

Variables easingFunction inverseEasingFunction : Q -> Q.

(** C3.  While [_isExternalForceActive] is true no settle dispatches a
    "select" event: [_onWheelStable] dispatches nothing, whatever the
    scroll position and the pending displacement are, and a whole frame
    step dispatches nothing and leaves the flag set.  In particular, with
    nothing pending the frame step after the bootstrap frame is the
    settle itself, aligned or not, and the list of dispatched events is
    still the same. *)
Theorem C3_no_select_under_external_force (now : Q) (s : Picker) :
  _isExternalForceActive s = true ->
  selects (_onWheelStable s) = selects s
  /\ selects (state_of (_animatePhysics easingFunction inverseEasingFunction now s))
     = selects s
  /\ _isExternalForceActive
       (state_of (_animatePhysics easingFunction inverseEasingFunction now s)) = true
  /\ (forall last,
        _lastTimestamp s = Some last -> ~ last == 0 ->
        _pendingScroll s == 0 ->
        _animatePhysics easingFunction inverseEasingFunction now s
        = Returned (_onWheelStable (set_pendingScroll 0 s))).
Proof.
  intro Hforce. repeat split.
  - unfold _onWheelStable. rewrite Hforce. cbn.
    unfold _stopAnimation. split_cases; reflexivity.
  - autounfold with picker. cbn.
    split_cases; try reflexivity; try rewrite Hforce in *; cbn in *;
      try discriminate; split_cases; try reflexivity; discriminate.
  - autounfold with picker. cbn.
    split_cases; try assumption; try rewrite Hforce in *; cbn in *;
      try discriminate; split_cases; assumption.
  - intros last Hlast Hnz Hpend.
    unfold _animatePhysics. rewrite Hlast.
    apply JSFacts.eq_false in Hnz. rewrite Hnz. cbn.
    rewrite (sentinel_idle s Hpend).
    assert (Hp : approxEq (_pendingScroll s) 0 = true).
    { apply approxEq_zero. unfold EFFECTIVELY_ZERO. lra. }
    rewrite Hp. unfold _isWheelStable. rewrite Hp. cbn.
    rewrite Hforce, orb_true_r. reflexivity.
Qed.

End Suppression.

(** ** The stability check *)

(** C9, as amended.  [_isWheelStable] returns exactly the boolean of the
    stability check and leaves [_currentScroll], [_isExternalForceActive]
    and every other field but one as they are; it does write
    [_pendingScroll]: a pending displacement within [EFFECTIVELY_ZERO] of
    zero is replaced by exactly zero (any other is left alone). *)
Theorem C9_isWheelStable_effect (s : Picker) :
  fst (_isWheelStable s)
  = approxEq (_pendingScroll s) 0
    && (approxEq (JS.rem (_currentScroll s) ITEM_HEIGHT) 0
        || _isExternalForceActive s)
  /\ _currentScroll (snd (_isWheelStable s)) = _currentScroll s
  /\ _isExternalForceActive (snd (_isWheelStable s)) = _isExternalForceActive s
  /\ _pendingScroll (snd (_isWheelStable s))
     = (if approxEq (_pendingScroll s) 0 then 0 else _pendingScroll s)
  /\ snd (_isWheelStable s)
     = set_pendingScroll (_pendingScroll (snd (_isWheelStable s))) s.
Proof.
  unfold _isWheelStable.
  destruct (approxEq (_pendingScroll s) 0); cbn.
  - repeat split; reflexivity.
  - repeat split; try reflexivity. destruct s; reflexivity.
Qed.

(** C9, the claim as stated fails: with a residual displacement of
    [2^-40], which is within the tolerance, the check answers [true] and
    the pending displacement it leaves is not the one it found. *)
Lemma C9_isWheelStable_writes_pendingScroll :
  approxEq (_pendingScroll residual_picker) 0 = true
  /\ fst (_isWheelStable residual_picker) = true
  /\ ~ _pendingScroll (snd (_isWheelStable residual_picker))
       == _pendingScroll residual_picker.
Proof.
  repeat split; try reflexivity.
  cbn. intro H. discriminate H.
Qed.

(** ** The wheel handler *)

(** Starting the loop touches the host's frame list and nothing else. *)
Lemma pendingScroll_start (s : Picker) :
  _pendingScroll (_startPhysicsAnimation s) = _pendingScroll s.
Proof.
  unfold _startPhysicsAnimation, requestAnimationFrame.
  destruct (_animating s); reflexivity.
Qed.

Lemma round_inject_Z (d : Z) : JS.round (inject_Z d) = d.
Proof.
  unfold JS.round.
  pose proof (Qfloor_le (inject_Z d + (1 # 2))) as Hlo.
  pose proof (Qlt_floor (inject_Z d + (1 # 2))) as Hhi.
  set (k := Qfloor (inject_Z d + (1 # 2))) in *.
  assert (H1 : inject_Z k < inject_Z (d + 1)).
  { rewrite inject_Z_plus. change (inject_Z 1) with 1. lra. }
  assert (H2 : inject_Z d < inject_Z (k + 1)) by lra.
  rewrite <- Zlt_Qlt in H1, H2. lia.
Qed.

(** C10.  A wheel event with an integer [deltaY] adds
    [floor(deltaY / 24) * 24] to the pending displacement.  Hence a
    downward notch smaller than one item height adds nothing, while an
    upward notch of at most one item height adds a full step of [-24]. *)
Theorem C10_integer_wheel_delta (s : Picker) (d : Z) :
  _pendingScroll (_onWheelHandler (inject_Z d) s)
  = _pendingScroll s + inject_Z (d / 24) * ITEM_HEIGHT
  /\ ((0 < d < 24)%Z ->
      _pendingScroll (_onWheelHandler (inject_Z d) s) == _pendingScroll s)
  /\ ((-24 <= d < 0)%Z ->
      _pendingScroll (_onWheelHandler (inject_Z d) s)
      == _pendingScroll s - ITEM_HEIGHT).
Proof.
  assert (Hmain : _pendingScroll (_onWheelHandler (inject_Z d) s)
                  = _pendingScroll s + inject_Z (d / 24) * ITEM_HEIGHT).
  { unfold _onWheelHandler. rewrite round_inject_Z.
    assert (Hsmooth : JS.eq (inject_Z d) (inject_Z d) = true)
      by (apply JSFacts.eq_spec; reflexivity).
    rewrite Hsmooth. cbv beta iota zeta delta [negb].
    rewrite pendingScroll_start. cbn [_pendingScroll set_pendingScroll].
    unfold JS.floor, ITEM_HEIGHT.
    change (inject_Z d / 24) with (inject_Z d / inject_Z 24).
    rewrite <- (Zdiv_Qdiv d 24). reflexivity. }
  split; [exact Hmain|]. rewrite Hmain. split; intro Hd.
  - rewrite (Z.div_small d 24) by lia.
    unfold ITEM_HEIGHT. change (inject_Z 0) with 0. lra.
  - assert (Hq : (d / 24 = -1)%Z).
    { symmetry. apply (Z.div_unique d 24 (-1) (d + 24)); lia. }
    rewrite Hq. unfold ITEM_HEIGHT. change (inject_Z (-1)) with (-1). lra.
Qed.

(** ** The stabilization pulse *)

Lemma half_item : ITEM_HEIGHT / 2 == 12.
Proof. reflexivity. Qed.

(** C7.  On a scroll position that is not negative, [_stabilizeWheel]
    leaves the position alone and sets the pending displacement to the
    signed distance to the nearer item boundary: position plus pending
    displacement is an integer multiple of the item height, and the
    pending displacement is at most half an item height in size. *)
Theorem C7_stabilization_pulse (s : Picker) :
  0 <= _currentScroll s ->
  _currentScroll (_stabilizeWheel s) = _currentScroll s
  /\ (exists k : Z,
        _currentScroll (_stabilizeWheel s) + _pendingScroll (_stabilizeWheel s)
        == ITEM_HEIGHT * inject_Z k)
  /\ Qabs (_pendingScroll (_stabilizeWheel s)) <= ITEM_HEIGHT / 2.
Proof.
  intro Hcur.
  destruct (JSFacts.rem_nonneg (_currentScroll s) ITEM_HEIGHT Hcur)
    as (Hlo & Hhi & Hrem & _); [reflexivity|].
  unfold _stabilizeWheel, _startPhysicsAnimation, requestAnimationFrame.
  destruct (JS.lt (ITEM_HEIGHT / 2) (JS.rem (_currentScroll s) ITEM_HEIGHT)) eqn:Half.
  - apply JSFacts.lt_spec in Half.
    assert (Hgoal :
      (exists k : Z,
         _currentScroll s + (ITEM_HEIGHT - JS.rem (_currentScroll s) ITEM_HEIGHT)
         == ITEM_HEIGHT * inject_Z k)
      /\ Qabs (ITEM_HEIGHT - JS.rem (_currentScroll s) ITEM_HEIGHT) <= ITEM_HEIGHT / 2).
    { split.
      - exists (Qfloor (_currentScroll s / ITEM_HEIGHT) + 1)%Z.
        rewrite Hrem, inject_Z_plus. change (inject_Z 1) with 1. ring.
      - rewrite half_item in *. apply Qabs_Qle_condition.
        unfold ITEM_HEIGHT in *. lra. }
    split_cases; (split; [reflexivity|exact Hgoal]).
  - apply JSFacts.lt_false in Half.
    assert (Hgoal :
      (exists k : Z,
         _currentScroll s + - JS.rem (_currentScroll s) ITEM_HEIGHT
         == ITEM_HEIGHT * inject_Z k)
      /\ Qabs (- JS.rem (_currentScroll s) ITEM_HEIGHT) <= ITEM_HEIGHT / 2).
    { split.
      - exists (Qfloor (_currentScroll s / ITEM_HEIGHT)).
        rewrite Hrem. ring.
      - rewrite half_item in *. apply Qabs_Qle_condition.
        unfold ITEM_HEIGHT in *. lra. }
    split_cases; (split; [reflexivity|exact Hgoal]).
Qed.

(** ** The range of the scroll position *)

Lemma items_length_nonneg (s : Picker) : 0 <= ITEM_HEIGHT * items_length s.
Proof.
  unfold items_length, ITEM_HEIGHT.
  assert (H : inject_Z 0 <= inject_Z (Z.of_nat (List.length (items s))))
    by (rewrite <- Zle_Qle; lia).
  change (inject_Z 0) with 0 in H. lra.
Qed.

Lemma in_range_same_scroll (s s' : Picker) :
  same_scroll s s' -> in_range s -> in_range s'.
Proof.
  unfold same_scroll, in_range, items_length. intros [Hc Hi]. rewrite Hc, Hi. tauto.
Qed.

(** Rounding a number of [[0, n]] to the nearest integer stays in
    [[0, n]] when [n] is an integer. *)
Lemma round_in_range (x : Q) (n : Z) :
  0 <= x <= inject_Z n -> 0 <= inject_Z (JS.round x) <= inject_Z n.
Proof.
  intros [Hlo Hhi]. unfold JS.round. split.
  - change 0 with (inject_Z 0). rewrite <- Zle_Qle.
    change 0%Z with (Qfloor 0). apply Qfloor_resp_le. lra.
  - rewrite <- Zle_Qle.
    pose proof (round_inject_Z n) as Hn. unfold JS.round in Hn.
    rewrite <- Hn. apply Qfloor_resp_le. lra.
Qed.

(** Whatever increment it is given, "animate scroll" writes a position
    of the range. *)
Lemma animate_scroll_in_range (dx : Q) (s : Picker) : in_range (animate_scroll dx s).
Proof.
  pose proof (items_length_nonneg s) as HN.
  unfold animate_scroll, in_range, items_length in *. fields.
  set (N := ITEM_HEIGHT * inject_Z (Z.of_nat (List.length (items s)))) in *.
  set (x := JS.max 0 (JS.min N (_currentScroll s + dx))).
  assert (Hx : 0 <= x <= N).
  { unfold x.
    destruct (JSFacts.min_spec N (_currentScroll s + dx)) as [[? ->]|[? ->]];
      destruct (JSFacts.max_spec 0 N) as [[? E1]|[? E1]];
      destruct (JSFacts.max_spec 0 (_currentScroll s + dx)) as [[? E2]|[? E2]];
      try rewrite E1; try rewrite E2; lra. }
  destruct (approxEq x (inject_Z (JS.round x))); fields; [|exact Hx].
  assert (HNz : N == inject_Z (24 * Z.of_nat (List.length (items s)))).
  { unfold N, ITEM_HEIGHT. rewrite inject_Z_mult. reflexivity. }
  rewrite HNz in *. apply round_in_range. exact Hx.
Qed.

Section Range.

Variables easingFunction inverseEasingFunction : Q -> Q.

Local Abbreviation frame := (_animatePhysics easingFunction inverseEasingFunction).

(** A frame step leaves the scroll position alone or writes a position of
    the range; it never touches the item list. *)
Lemma frame_scroll (now : Q) (s : Picker) :
  items (state_of (frame now s)) = items s
  /\ (_currentScroll (state_of (frame now s)) = _currentScroll s
      \/ in_range (state_of (frame now s))).
Proof.
  unfold frame, _animatePhysics.
  destruct (_lastTimestamp s) as [last|]; [|split; [reflexivity|left; reflexivity]].
  destruct (negb (JS.eq last 0)); [|split; [reflexivity|left; reflexivity]].
  assert (Hs : same_scroll s (sentinel s)).
  { unfold sentinel. break_branch; split; reflexivity. }
  destruct Hs as [Hc Hi]. rewrite <- Hc, <- Hi.
  destruct (approxEq (_pendingScroll (sentinel s)) 0) eqn:Hp.
  - unfold _isWheelStable. rewrite Hp. cbn.
    autounfold with picker. cbn.
    split_cases; (split; [reflexivity|left; reflexivity]).
  - destruct (JS.lt (scrollOffset (sentinel s)) 0);
      [split; [reflexivity|left; reflexivity]|].
    cbn. split.
    + unfold animate_scroll. split_cases; reflexivity.
    + right.
      pose proof (animate_scroll_in_range
                    (dx_limited easingFunction inverseEasingFunction
                                (now - last) (sentinel s)) (sentinel s)) as H.
      unfold in_range, items_length in *. exact H.
Qed.

Lemma frame_in_range (now : Q) (s : Picker) :
  in_range s -> in_range (state_of (frame now s)).
Proof.
  intro H. destruct (frame_scroll now s) as [Hi [Hc|Hr]]; [|exact Hr].
  apply (in_range_same_scroll s); [split; assumption|exact H].
Qed.

Lemma handlers_same_scroll (s : Picker) :
  (forall d, same_scroll s (_onWheelHandler d s))
  /\ (forall ts, same_scroll s (_onTouchStart ts s))
  /\ (forall ts, same_scroll s (_onTouchEnd ts s))
  /\ (forall ts, same_scroll s (_onTouchMove ts s))
  /\ (forall k, same_scroll s (_onKeyDown k s))
  /\ (forall v a b c, same_scroll s (_onItemClick v a b c s))
  /\ same_scroll s (debounce_callback s)
  /\ (forall h, same_scroll s (cancelAnimationFrame h s))
  /\ (forall h, same_scroll s (clearTimeout h s)).
Proof.
  unfold same_scroll, _onWheelHandler, _onTouchStart, _onTouchEnd, _onTouchMove,
    _onKeyDown, _onItemClick, debounce_callback, setTimeout, clearTimeout.
  autounfold with picker.
  repeat split; cbn; split_cases; reflexivity.
Qed.

Lemma deliver_in_range (e : Event) (s : Picker) :
  in_range s ->
  in_range (state_of (deliver easingFunction inverseEasingFunction e s)).
Proof.
  intro H.
  destruct (handlers_same_scroll s) as (Hw & Hts & Hte & Htm & Hk & Hc & _ & _ & _).
  destruct e; cbn;
    try (eapply in_range_same_scroll; [|exact H]; auto; fail).
  - destruct (mem h (frames s)); cbn; [|exact H].
    apply frame_in_range.
    apply (in_range_same_scroll s); [|exact H].
    apply handlers_same_scroll.
  - destruct (mem h (timers s)); cbn; [|exact H].
    apply (in_range_same_scroll (clearTimeout h s)).
    + apply handlers_same_scroll.
    + apply (in_range_same_scroll s); [|exact H]. apply handlers_same_scroll.
Qed.

Lemma run_in_range (es : list Event) (s : Picker) :
  in_range s -> in_range (run easingFunction inverseEasingFunction es s).
Proof.
  revert s. induction es as [|e es IH]; intros s H; cbn.
  - exact H.
  - apply IH. apply deliver_in_range. exact H.
Qed.

End Range.

(** ** Absorption at the bounds *)

Lemma rem_multiple (x : Q) (k : Z) :
  (0 <= k)%Z -> x == ITEM_HEIGHT * inject_Z k -> JS.rem x ITEM_HEIGHT == 0.
Proof.
  intros Hk Hx.
  assert (Hk' : 0 <= inject_Z k) by (change 0 with (inject_Z 0); rewrite <- Zle_Qle; exact Hk).
  assert (Hx0 : 0 <= x) by (rewrite Hx; unfold ITEM_HEIGHT; lra).
  destruct (JSFacts.rem_nonneg x ITEM_HEIGHT Hx0) as (_ & _ & Hrem & _); [reflexivity|].
  rewrite Hrem.
  assert (Hq : x / ITEM_HEIGHT == inject_Z k).
  { rewrite Hx. unfold ITEM_HEIGHT. field. }
  rewrite Hq, Qfloor_Z, Hx. ring.
Qed.

Section Absorption.

Variables easingFunction inverseEasingFunction : Q -> Q.

Local Abbreviation frame := (_animatePhysics easingFunction inverseEasingFunction).


Lemma onWheelStable_scroll (s : Picker) :
  _pendingScroll (_onWheelStable s) = 0
  /\ _currentScroll (_onWheelStable s) = _currentScroll s.
Proof.
  autounfold with picker. split_cases; split; reflexivity.
Qed.

(** ** The defence against a negative offset *)

Lemma scrollOffset_nonneg (s : Picker) : 0 <= _currentScroll s -> 0 <= scrollOffset s.
Proof.
  intro Hcur. unfold scrollOffset.
  destruct (JSFacts.rem_nonneg (_currentScroll s) ITEM_HEIGHT Hcur)
    as (Hlo & Hhi & _); [reflexivity|].
  destruct (JS.lt 0 (_pendingScroll s)).
  - apply JSFacts.rem_nonneg; [unfold ITEM_HEIGHT; lra|reflexivity].
  - apply JSFacts.rem_nonneg; [lra|reflexivity].
Qed.

(** C6.  On a scroll position of the range the offset computed by the
    settling branch is not negative, so the branch that throws the
    [RangeError] is not taken: the frame step returns.  Hence no event of
    any sequence delivered to a picker that starts in the range throws. *)
Theorem C6_range_error_unreachable (now : Q) (s : Picker) :
  in_range s ->
  0 <= scrollOffset s
  /\ JS.lt (scrollOffset s) 0 = false
  /\ (exists s', frame now s = Returned s')
  /\ (forall es e, exists s',
        deliver easingFunction inverseEasingFunction e
                (run easingFunction inverseEasingFunction es s)
        = Returned s').
Proof.
  intro Hr.
  assert (Hframe : forall now' s', in_range s' -> exists s'', frame now' s' = Returned s'').
  { intros now' s' [Hlo _]. unfold frame, _animatePhysics.
    destruct (_lastTimestamp s') as [last|]; [|eexists; reflexivity].
    destruct (negb (JS.eq last 0)); [|eexists; reflexivity].
    destruct (approxEq (_pendingScroll (sentinel s')) 0).
    - destruct (_isWheelStable (sentinel s')) as [[|] ?]; eexists; reflexivity.
    - assert (Hcs : _currentScroll (sentinel s') = _currentScroll s').
      { unfold sentinel. break_branch; reflexivity. }
      assert (Hoff : JS.lt (scrollOffset (sentinel s')) 0 = false).
      { apply JSFacts.lt_false. apply scrollOffset_nonneg. rewrite Hcs. exact Hlo. }
      rewrite Hoff. eexists; reflexivity. }
  destruct Hr as [Hlo Hhi].
  split; [apply scrollOffset_nonneg; exact Hlo|].
  split; [apply JSFacts.lt_false; apply scrollOffset_nonneg; exact Hlo|].
  split; [apply Hframe; split; assumption|].
  intros es e.
  pose proof (run_in_range easingFunction inverseEasingFunction es s (conj Hlo Hhi)) as Hrun.
  set (s1 := run easingFunction inverseEasingFunction es s) in *.
  destruct e; cbn; try (eexists; reflexivity).
  - destruct (mem h (frames s1)); [|eexists; reflexivity].
    apply Hframe. apply (in_range_same_scroll s1); [|exact Hrun].
    apply handlers_same_scroll.
  - destruct (mem h (timers s1)); eexists; reflexivity.
Qed.

End Absorption.

(** ** Starting the loop *)

Ltac split_fields := repeat (fields; break_branch); fields.

(** With a handle in [_animating] the start is a no-op. *)
Lemma start_when_animating (s : Picker) (h : Handle) :
  _animating s = Some h -> _startPhysicsAnimation s = s.
Proof. unfold _startPhysicsAnimation. intros ->. reflexivity. Qed.

(** Without one it registers a callback, whatever is registered already,
    and still leaves [_animating] empty. *)
Lemma start_when_not_animating (s : Picker) :
  _animating s = None ->
  frames (_startPhysicsAnimation s) = frames s ++ [fresh s]
  /\ _animating (_startPhysicsAnimation s) = None.
Proof.
  unfold _startPhysicsAnimation. intro H. rewrite H.
  split; [reflexivity|exact H].
Qed.

(** The debounce timer is handled as a scoped resource: the host never
    holds more than the one timer [_debounceTimer] names. *)
Lemma remove_single (h : Handle) : remove Pos.eq_dec h [h] = [].
Proof. cbn. destruct (Pos.eq_dec h h); [reflexivity|contradiction]. Qed.

Lemma mem_single (h h' : Handle) : mem h [h'] = true -> h' = h.
Proof.
  unfold mem. cbn. rewrite orb_false_r. intro H.
  apply Pos.eqb_eq in H. congruence.
Qed.

Section Timers.

Variables easingFunction inverseEasingFunction : Q -> Q.

Lemma frame_timers (now : Q) (s : Picker) :
  timers (state_of (_animatePhysics easingFunction inverseEasingFunction now s))
  = timers s
  /\ _debounceTimer (state_of (_animatePhysics easingFunction inverseEasingFunction now s))
     = _debounceTimer s.
Proof.
  autounfold with picker. split_cases; split; reflexivity.
Qed.

Lemma deliver_timer_owned (e : Event) (s : Picker) :
  timer_owned s ->
  timer_owned (state_of (deliver easingFunction inverseEasingFunction e s)).
Proof.
  unfold timer_owned. intro H. destruct e; cbn [deliver state_of].
  - unfold _onWheelHandler, setTimeout, clearTimeout.
    autounfold with picker.
    destruct (negb (JS.eq deltaY (inject_Z (JS.round deltaY)))).
    + fields. destruct (_debounceTimer s) as [h|]; fields; rewrite ?H.
      * rewrite remove_single. destruct (_animating s); reflexivity.
      * destruct (_animating s); reflexivity.
    + fields. destruct (_animating s); fields; exact H.
  - unfold _onTouchStart. destruct (trackedTouch s); fields; exact H.
  - unfold _onTouchEnd. autounfold with picker.
    destruct (trackedTouch s) as [tr|]; [|exact H].
    destruct (find_touch (identifier tr) changedTouches); [|exact H].
    fields. destruct (_animating s); fields; exact H.
  - unfold _onTouchMove. autounfold with picker.
    destruct (trackedTouch s) as [tr|]; [|exact H].
    destruct (find_touch (identifier tr) changedTouches); [|exact H].
    fields. destruct (_animating s); fields; exact H.
  - unfold _onKeyDown. autounfold with picker.
    destruct (key =? "ArrowUp")%string;
      [|destruct (key =? "ArrowDown")%string; [|exact H]];
      fields; destruct (_animating s); fields; exact H.
  - unfold _onItemClick. autounfold with picker.
    fields. destruct (_animating s); fields; exact H.
  - destruct (mem h (frames s)); [|exact H].
    destruct (frame_timers now (cancelAnimationFrame h s)) as [Ht Hd].
    rewrite Ht, Hd. exact H.
  - destruct (mem h (timers s)) eqn:Hm; [|exact H].
    assert (Hh : timers s = [h] /\ _debounceTimer s = Some h).
    { destruct (_debounceTimer s) as [h'|]; rewrite H in Hm.
      - apply mem_single in Hm. subst h'. split; [exact H|reflexivity].
      - discriminate Hm. }
    destruct Hh as [Ht Hd].
    unfold debounce_callback, clearTimeout. autounfold with picker. fields.
    rewrite Ht, remove_single.
    split_fields; reflexivity.
Qed.

Lemma run_timer_owned (es : list Event) (s : Picker) :
  timer_owned s -> timer_owned (run easingFunction inverseEasingFunction es s).
Proof.
  revert s. induction es as [|e es IH]; intros s H; cbn [run].
  - exact H.
  - apply IH. apply deliver_timer_owned. exact H.
Qed.

End Timers.

(** C5, evaluated where the code departs from it.  After one ArrowDown on
    the picker at rest a frame callback is registered, yet [_animating]
    is still empty, because [_startPhysicsAnimation] drops the handle; so
    the second start registers a second callback.  Two ArrowDown events
    in a row leave two frame callbacks pending. *)
Theorem C5_second_start_registers_again :
  frames (_onKeyDown "ArrowDown" five_picker) = [1%positive]
  /\ _animating (_onKeyDown "ArrowDown" five_picker) = None
  /\ frames (_startPhysicsAnimation (_onKeyDown "ArrowDown" five_picker))
     = [1%positive; 2%positive]
  /\ frames (run LinearEasing LinearEasing
                 [KeyDown "ArrowDown"; KeyDown "ArrowDown"] five_picker)
     = [1%positive; 2%positive].
Proof. repeat split; reflexivity. Qed.

(** ** What a settle dispatches *)

(** A settle dispatches at most one "select" event, and dispatches one
    only without an external force and for an item other than the one in
    [_selectedItem], which it then remembers. *)
Lemma onWheelStable_selects (s : Picker) :
  (selects (_onWheelStable s) = selects s
   /\ _selectedItem (_onWheelStable s) = _selectedItem s)
  \/ (selects (_onWheelStable s) = selects s ++ [item_at (items s) (_selectedIndex s)]
      /\ _selectedItem (_onWheelStable s) = item_at (items s) (_selectedIndex s)
      /\ _isExternalForceActive s = false
      /\ same_item (_selectedItem s) (item_at (items s) (_selectedIndex s)) = false).
Proof.
  unfold _onWheelStable, _stopAnimation, cancelAnimationFrame, dispatchSelect.
  destruct (_isExternalForceActive s); cbn [negb andb]; fields.
  - left. destruct (_animating s); split; reflexivity.
  - destruct (same_item (_selectedItem s) (item_at (items s) (_selectedIndex s)));
      cbn [negb]; fields.
    + left. destruct (_animating s); split; reflexivity.
    + right. destruct (_animating s); repeat split; reflexivity.
Qed.

(** A click dispatches its event and does not touch [_selectedItem]. *)
Lemma onItemClick_selects (v : Item) (top wtop wh : Q) (s : Picker) :
  selects (_onItemClick v top wtop wh s) = selects s ++ [Some v]
  /\ _selectedItem (_onItemClick v top wtop wh s) = _selectedItem s.
Proof.
  unfold _onItemClick, dispatchSelect, _startPhysicsAnimation, requestAnimationFrame.
  fields. destruct (_animating s); split; reflexivity.
Qed.

(** C2, evaluated where the code departs from it.  A click on the row of
    item "b" (one row below the selection, under a leading whitespace of
    88) dispatches "b" at once; the frames then carry the wheel to 24,
    and the settle dispatches "b" a second time, because the click did
    not record its selection in [_selectedItem]. *)
Theorem C2_settle_repeats_the_click :
  selects (_onItemClick "b" 112 0 88 five_picker) = [Some "b"%string]
  /\ _selectedItem (_onItemClick "b" 112 0 88 five_picker) = None
  /\ selects (run LinearEasing LinearEasing
                  [ItemClick "b" 112 0 88;
                   Frame 1 16; Frame 2 200; Frame 3 216] five_picker)
     = [Some "b"%string; Some "b"%string]
  /\ _currentScroll (run LinearEasing LinearEasing
                         [ItemClick "b" 112 0 88;
                          Frame 1 16; Frame 2 200; Frame 3 216] five_picker)
     = 24.
Proof. repeat split; vm_compute; reflexivity. Qed.

(** ** The increment of a frame *)

Lemma sign_pos (x : Q) : 0 < x -> JS.sign x = 1.
Proof. intro H. unfold JS.sign. apply JSFacts.lt_spec in H. rewrite H. reflexivity. Qed.

Lemma sign_neg (x : Q) : x < 0 -> JS.sign x = -1.
Proof.
  intro H. unfold JS.sign.
  assert (H1 : JS.lt 0 x = false) by (apply JSFacts.lt_false; lra).
  apply JSFacts.lt_spec in H. rewrite H1, H. reflexivity.
Qed.

Lemma sentinel_cases (s : Picker) :
  sentinel s = s \/ sentinel s = set_pendingScroll 0 s.
Proof. unfold sentinel. break_branch; [right|left]; reflexivity. Qed.

(** A frame step reaches the settling branch only when no sentinel
    absorbed the pending displacement. *)
Lemma sentinel_settling (s : Picker) :
  approxEq (_pendingScroll (sentinel s)) 0 = false -> sentinel s = s.
Proof.
  intro H. destruct (sentinel_cases s) as [E|E]; [exact E|].
  rewrite E in H. discriminate H.
Qed.

Lemma scrollOffset_range (s : Picker) :
  0 <= _currentScroll s -> 0 <= scrollOffset s < ITEM_HEIGHT.
Proof.
  intro Hcur. unfold scrollOffset.
  destruct (JSFacts.rem_nonneg (_currentScroll s) ITEM_HEIGHT Hcur)
    as (Hlo & Hhi & _); [reflexivity|].
  destruct (JS.lt 0 (_pendingScroll s)).
  - destruct (JSFacts.rem_nonneg (ITEM_HEIGHT + _currentScroll s) ITEM_HEIGHT)
      as (H1 & H2 & _); [unfold ITEM_HEIGHT; lra|reflexivity|]. split; assumption.
  - destruct (JSFacts.rem_nonneg (ITEM_HEIGHT - JS.rem (_currentScroll s) ITEM_HEIGHT)
                                 ITEM_HEIGHT)
      as (H1 & H2 & _); [lra|reflexivity|]. split; assumption.
Qed.

Lemma shrunkenAnimationTime_pos (s : Picker) :
  0 < animationDuration s -> ~ _pendingScroll s == 0 ->
  0 < shrunkenAnimationTime s.
Proof.
  intros HD Hp. unfold shrunkenAnimationTime.
  assert (Habs : 0 < JS.abs (_pendingScroll s)).
  { destruct (JSFacts.abs_spec (_pendingScroll s)) as [[H1 H2]|[H1 H2]]; rewrite H2; lra. }
  assert (Hq : 0 < animationDuration s * ITEM_HEIGHT / JS.abs (_pendingScroll s)).
  { apply Qlt_shift_div_l; [exact Habs|]. unfold ITEM_HEIGHT. lra. }
  destruct (JSFacts.min_spec (animationDuration s)
              (animationDuration s * ITEM_HEIGHT / JS.abs (_pendingScroll s)))
    as [[_ ->]|[_ ->]]; assumption.
Qed.

Section Increment.

Variables easingFunction inverseEasingFunction : Q -> Q.

(** What the component relies on from the two curves of [bezier]: on
    the unit interval the easing function does not decrease, and its
    inverse is not negative. *)
Hypothesis easing_monotone :
  forall x y, 0 <= x -> x <= y -> y <= 1 -> easingFunction x <= easingFunction y.
Hypothesis inverse_nonneg :
  forall x, 0 <= x -> x <= 1 -> 0 <= inverseEasingFunction x.

Local Abbreviation frame := (_animatePhysics easingFunction inverseEasingFunction).
Local Abbreviation differential := (dx_differential easingFunction inverseEasingFunction).
Local Abbreviation limited := (dx_limited easingFunction inverseEasingFunction).

Lemma differential_nonneg (delta : Q) (s : Picker) :
  0 < animationDuration s -> 0 <= _currentScroll s ->
  ~ _pendingScroll s == 0 -> 0 <= delta ->
  0 <= differential delta s.
Proof.
  intros HD Hcur Hp Hdelta. unfold dx_differential, t_estimate.
  pose proof (shrunkenAnimationTime_pos s HD Hp) as HT.
  destruct (scrollOffset_range s Hcur) as [Ho1 Ho2].
  set (T := shrunkenAnimationTime s) in *.
  set (x := scrollOffset s / ITEM_HEIGHT).
  assert (Hx : 0 <= x <= 1).
  { unfold x, ITEM_HEIGHT in *. split.
    - apply Qle_shift_div_l; lra.
    - apply Qle_shift_div_r; lra. }
  pose proof (inverse_nonneg x (proj1 Hx) (proj2 Hx)) as Hu.
  set (u := inverseEasingFunction x) in *.
  assert (Hb : u * T / T == u) by (field; lra).
  assert (Ha : (u * T + delta) / T == u + delta / T) by (field; lra).
  assert (Hd : 0 <= delta / T) by (apply Qle_shift_div_l; lra).
  set (a := JS.min 1 ((u * T + delta) / T)).
  set (b := JS.min 1 (u * T / T)).
  assert (Hab : 0 <= b /\ b <= a /\ a <= 1).
  { unfold a, b.
    destruct (JSFacts.min_spec 1 ((u * T + delta) / T)) as [[? ->]|[? ->]];
      destruct (JSFacts.min_spec 1 (u * T / T)) as [[? ->]|[? ->]]; lra. }
  destruct Hab as (Hb0 & Hba & Ha1).
  pose proof (easing_monotone b a Hb0 Hba Ha1). unfold ITEM_HEIGHT. lra.
Qed.

(** The limited increment lies between zero and the pending
    displacement. *)
Lemma dx_limited_between (delta : Q) (s : Picker) :
  0 < animationDuration s -> 0 <= _currentScroll s ->
  ~ _pendingScroll s == 0 -> 0 <= delta ->
  (0 < _pendingScroll s /\ 0 <= limited delta s <= _pendingScroll s)
  \/ (_pendingScroll s < 0 /\ _pendingScroll s <= limited delta s <= 0).
Proof.
  intros HD Hcur Hp Hdelta.
  pose proof (differential_nonneg delta s HD Hcur Hp Hdelta) as Hraw.
  unfold dx_limited.
  set (raw := differential delta s) in *.
  set (p := _pendingScroll s) in *.
  destruct (JSFacts.abs_spec p) as [[Hp1 Hp2]|[Hp1 Hp2]];
    destruct (JSFacts.min_spec (JS.abs p) raw) as [[Hm1 Hm2]|[Hm1 Hm2]];
    rewrite Hm2; clear Hm2.
  - left. assert (Hpos : 0 < p) by lra. rewrite (sign_pos p Hpos). lra.
  - left. assert (Hpos : 0 < p) by lra. rewrite (sign_pos p Hpos). lra.
  - right. rewrite (sign_neg p Hp1). lra.
  - right. rewrite (sign_neg p Hp1). lra.
Qed.

(** C8, as amended.  In a frame step after the bootstrap frame that
    reaches the settling branch, with a positive animation duration, a
    scroll position that is not negative and a timestamp that is not
    before the last one, the pending displacement after the step is the
    one before minus the applied increment [dx], and: [dx] is at most the
    pending displacement in size; [dx] is zero or has the sign of the
    pending displacement; the pending displacement does not grow in size;
    and it becomes zero or keeps its sign. *)
Theorem C8_increment_does_not_overshoot (now last : Q) (s : Picker) :
  0 < animationDuration s -> 0 <= _currentScroll s ->
  _lastTimestamp s = Some last -> ~ last == 0 -> last <= now ->
  approxEq (_pendingScroll (sentinel s)) 0 = false ->
  _pendingScroll (state_of (frame now s))
  = _pendingScroll s - limited (now - last) s
  /\ Qabs (limited (now - last) s) <= Qabs (_pendingScroll s)
  /\ (limited (now - last) s == 0
      \/ JS.sign (limited (now - last) s) = JS.sign (_pendingScroll s))
  /\ Qabs (_pendingScroll (state_of (frame now s))) <= Qabs (_pendingScroll s)
  /\ (_pendingScroll (state_of (frame now s)) == 0
      \/ JS.sign (_pendingScroll (state_of (frame now s)))
         = JS.sign (_pendingScroll s)).
Proof.
  intros HD Hcur Hlast Hnz Hnow Hsettling.
  pose proof (sentinel_settling s Hsettling) as Hsent.
  rewrite Hsent in Hsettling.
  assert (Hp : ~ _pendingScroll s == 0).
  { intro E. apply approxEq_zero_false in Hsettling.
    unfold EFFECTIVELY_ZERO in Hsettling. lra. }
  assert (Hstep : _pendingScroll (state_of (frame now s))
                  = _pendingScroll s - limited (now - last) s).
  { unfold _animatePhysics. rewrite Hlast.
    apply JSFacts.eq_false in Hnz. rewrite Hnz. cbv beta iota zeta delta [negb].
    rewrite Hsent, Hsettling.
    assert (Hoff : JS.lt (scrollOffset s) 0 = false).
    { apply JSFacts.lt_false. apply scrollOffset_nonneg. exact Hcur. }
    rewrite Hoff. unfold reschedule, requestAnimationFrame, animate_scroll. fields.
    split_fields; reflexivity. }
  rewrite Hstep. split; [reflexivity|].
  assert (Hdelta : 0 <= now - last) by lra.
  destruct (dx_limited_between (now - last) s HD Hcur Hp Hdelta)
    as [[Hpos [Hlo Hhi]]|[Hneg [Hlo Hhi]]].
  - rewrite (sign_pos _ Hpos). repeat split.
    + apply Qabs_Qle_condition. rewrite Qabs_pos by lra. lra.
    + destruct (Qlt_le_dec 0 (limited (now - last) s)) as [Hr|Hr];
        [right; apply sign_pos|left]; lra.
    + apply Qabs_Qle_condition. rewrite Qabs_pos by lra. lra.
    + destruct (Qlt_le_dec (limited (now - last) s) (_pendingScroll s)) as [Hr|Hr];
        [right; apply sign_pos|left]; lra.
  - rewrite (sign_neg _ Hneg). repeat split.
    + apply Qabs_Qle_condition. rewrite Qabs_neg by lra. lra.
    + destruct (Qlt_le_dec (limited (now - last) s) 0) as [Hr|Hr];
        [right; apply sign_neg|left]; lra.
    + apply Qabs_Qle_condition. rewrite Qabs_neg by lra. lra.
    + destruct (Qlt_le_dec (_pendingScroll s) (limited (now - last) s)) as [Hr|Hr];
        [right; apply sign_neg|left]; lra.
Qed.

End Increment.

(** C8, the claim as stated fails.  The two frame callbacks that two
    ArrowDown events registered run in the same frame, at the same time
    16: the first is the bootstrap frame, the second is a frame step with
    48 pending and no time elapsed.  Its increment is zero, and the sign
    of zero is not the sign of the pending displacement. *)
Lemma C8_zero_increment_in_same_frame :
  _lastTimestamp twice_started_picker = Some 16
  /\ frames twice_started_picker = [2%positive; 3%positive]
  /\ _pendingScroll twice_started_picker == 48
  /\ approxEq (_pendingScroll (sentinel twice_started_picker)) 0 = false
  /\ dx_limited LinearEasing LinearEasing (16 - 16) twice_started_picker == 0
  /\ JS.sign (dx_limited LinearEasing LinearEasing (16 - 16) twice_started_picker) = 0
  /\ JS.sign (_pendingScroll twice_started_picker) = 1
  /\ ~ JS.sign (dx_limited LinearEasing LinearEasing (16 - 16) twice_started_picker)
       == JS.sign (_pendingScroll twice_started_picker).
Proof.
  repeat split; try (vm_compute; reflexivity).
  vm_compute. intro H. discriminate H.
Qed.

(** ** The settle after one ArrowDown *)

Lemma Qfloor_unique (x : Q) (z : Z) :
  inject_Z z <= x -> x < inject_Z z + 1 -> Qfloor x = z.
Proof.
  intros Hlo Hhi.
  pose proof (Qfloor_le x) as H1. pose proof (Qlt_floor x) as H2.
  rewrite inject_Z_plus in H2. change (inject_Z 1) with 1 in H2.
  assert (Ha : inject_Z (Qfloor x) < inject_Z (z + 1)).
  { rewrite inject_Z_plus. change (inject_Z 1) with 1. lra. }
  assert (Hb : inject_Z z < inject_Z (Qfloor x + 1)).
  { rewrite inject_Z_plus. change (inject_Z 1) with 1. lra. }
  rewrite <- Zlt_Qlt in Ha, Hb. lia.
Qed.

Lemma snap_close (x : Q) :
  approxEq x (inject_Z (JS.round x)) = true ->
  - EFFECTIVELY_ZERO <= inject_Z (JS.round x) - x <= EFFECTIVELY_ZERO.
Proof.
  intro H. apply approxEq_spec in H. apply Qabs_Qle_condition in H. lra.
Qed.

Lemma wheel_settling_weaken (b : Item) (e e' now : Q) (s : Picker) :
  e <= e' -> wheel_settling b e now s -> wheel_settling b e' now s.
Proof.
  intros He [H1 H2 H3 H4 H5 H6 H7 H8 H9 H10 H11].
  constructor; try assumption; lra.
Qed.

Lemma items_length_five (s : Picker) :
  List.length (items s) = 5%nat -> items_length s = 5.
Proof. unfold items_length. intros ->. reflexivity. Qed.

(** No sentinel fires on the way to 24. *)
Lemma sentinel_quiet (b : Item) (e now : Q) (s : Picker) :
  wheel_settling b e now s -> e <= 11 -> sentinel s = s.
Proof.
  intros [H1 H2 H3 H4 H5 H6 H7 H8 H9 H10 H11] He.
  unfold sentinel. rewrite (items_length_five s H1).
  assert (HA : JS.eq (_currentScroll s) 0 && JS.lt (_pendingScroll s) 0 = false).
  { destruct (JS.eq (_currentScroll s) 0) eqn:E1; [|reflexivity].
    destruct (JS.lt (_pendingScroll s) 0) eqn:E2; [|reflexivity].
    apply JSFacts.eq_spec in E1. apply JSFacts.lt_spec in E2. lra. }
  assert (HB : JS.le (ITEM_HEIGHT * (5 - 1)) (_currentScroll s) = false).
  { apply JSFacts.le_false. unfold ITEM_HEIGHT. lra. }
  rewrite HA, HB. reflexivity.
Qed.

(** A position found aligned on the way is 24 itself. *)
Lemma aligned_at_24 (b : Item) (e now : Q) (s : Picker) :
  wheel_settling b e now s -> e <= 11 ->
  approxEq (_pendingScroll s) 0 = true ->
  approxEq (JS.rem (_currentScroll s) ITEM_HEIGHT) 0 = true ->
  _currentScroll s == 24.
Proof.
  intros [H1 H2 H3 H4 H5 H6 H7 H8 H9 H10 H11] He Hp Hr.
  apply approxEq_zero in Hp. apply approxEq_zero in Hr.
  unfold EFFECTIVELY_ZERO in *.
  destruct (JSFacts.rem_nonneg (_currentScroll s) ITEM_HEIGHT H8)
    as (Hlo & Hhi & Hrem & Hk); [reflexivity|].
  rewrite Hrem in *. unfold ITEM_HEIGHT in *.
  set (k := Qfloor (_currentScroll s / 24)) in *.
  set (c := _currentScroll s) in *.
  assert (Hk1 : k = 1%Z).
  { destruct (Z.eq_dec k 0) as [E|E].
    - rewrite E in *. change (inject_Z 0) with 0 in *. lra.
    - destruct (Z.eq_dec k 1) as [E1|E1]; [exact E1|].
      assert (H2k : inject_Z 2 <= inject_Z k) by (rewrite <- Zle_Qle; lia).
      change (inject_Z 2) with 2 in H2k. lra. }
  rewrite Hk1 in *. change (inject_Z 1) with 1 in *.
  assert (Hround : JS.round c = 24%Z).
  { unfold JS.round. apply Qfloor_unique; change (inject_Z 24) with 24; lra. }
  rewrite Hround in H11. change (inject_Z 24) with 24 in H11.
  apply H11. apply approxEq_spec. apply Qabs_Qle_condition.
  unfold EFFECTIVELY_ZERO. lra.
Qed.

Lemma selectedIndex_at_24 (s : Picker) :
  _currentScroll s == 24 -> _selectedIndex s = 1%Z.
Proof.
  intro H. unfold _selectedIndex, JS.round. apply Qfloor_unique;
    rewrite H; unfold ITEM_HEIGHT; change (inject_Z 1) with 1.
  - assert (E : 24 / 24 == 1) by reflexivity. rewrite E. lra.
  - assert (E : 24 / 24 == 1) by reflexivity. rewrite E. lra.
Qed.

Section Settle.

Variables easingFunction inverseEasingFunction : Q -> Q.

Hypothesis easing_monotone :
  forall x y, 0 <= x -> x <= y -> y <= 1 -> easingFunction x <= easingFunction y.
Hypothesis inverse_nonneg :
  forall x, 0 <= x -> x <= 1 -> 0 <= inverseEasingFunction x.

Local Abbreviation frame := (_animatePhysics easingFunction inverseEasingFunction).
Local Abbreviation tick := (next_frame easingFunction inverseEasingFunction).
Local Abbreviation limited := (dx_limited easingFunction inverseEasingFunction).

Lemma tick_settled (b : Item) (now : Q) (s : Picker) :
  settled b s -> tick now s = s.
Proof. intros [H _]. unfold next_frame. rewrite H. reflexivity. Qed.

Lemma tick_single (now : Q) (s : Picker) (h : Handle) :
  frames s = [h] ->
  tick now s = state_of (frame now (cancelAnimationFrame h s))
  /\ frames (cancelAnimationFrame h s) = [].
Proof.
  intro H. unfold next_frame. rewrite H. cbn [deliver]. rewrite H.
  unfold mem. cbn [existsb]. rewrite Pos.eqb_refl. cbn [orb].
  split; [reflexivity|].
  unfold cancelAnimationFrame. fields. rewrite H. apply remove_single.
Qed.

Lemma wheel_settling_cancel (b : Item) (e now : Q) (s : Picker) (h : Handle) :
  wheel_settling b e now s -> wheel_settling b e now (cancelAnimationFrame h s).
Proof.
  intros [H1 H2 H3 H4 H5 H6 H7 H8 H9 H10 H11].
  unfold cancelAnimationFrame. constructor; fields; assumption.
Qed.

(** The bootstrap frame. *)
Lemma frame_bootstrap (b : Item) (e now now' : Q) (t : Picker) :
  wheel_settling b e now t -> frames t = [] -> now < now' ->
  (forall last, _lastTimestamp t = Some last -> last == 0) ->
  settling b e now' (state_of (frame now t)).
Proof.
  intros [H1 H2 H3 H4 H5 H6 H7 H8 H9 H10 H11] Hfr Hnow Hboot.
  assert (Hf : frame now t = Returned (reschedule now t)).
  { unfold _animatePhysics.
    destruct (_lastTimestamp t) as [last|]; [|reflexivity].
    specialize (Hboot last eq_refl).
    apply JSFacts.eq_spec in Hboot. rewrite Hboot. reflexivity. }
  rewrite Hf. unfold reschedule, requestAnimationFrame. fields. rewrite Hfr.
  split.
  - constructor; fields; try assumption.
    intros last E. injection E as <-. split; [exact Hnow|eexists; reflexivity].
  - fields. eexists. reflexivity.
Qed.

(** The frame that finds the wheel at rest on 24. *)
Lemma frame_stable (b : Item) (e now last : Q) (t : Picker) :
  wheel_settling b e now t -> frames t = [] -> e <= 11 ->
  _lastTimestamp t = Some last -> ~ last == 0 ->
  approxEq (_pendingScroll t) 0 = true ->
  approxEq (JS.rem (_currentScroll t) ITEM_HEIGHT) 0 = true ->
  settled b (state_of (frame now t)).
Proof.
  intros Hw Hfr He Hlast Hnz Hp Hr.
  pose proof (aligned_at_24 b e now t Hw He Hp Hr) as H24.
  pose proof (sentinel_quiet b e now t Hw He) as Hsent.
  destruct Hw as [H1 H2 H3 H4 H5 H6 H7 H8 H9 H10 H11].
  destruct (H7 last Hlast) as [_ [h' Han]].
  unfold _animatePhysics. rewrite Hlast.
  apply JSFacts.eq_false in Hnz. rewrite Hnz. cbv beta iota zeta delta [negb].
  rewrite Hsent, Hp. unfold _isWheelStable. rewrite Hp. fields.
  rewrite Hr. cbn [orb state_of].
  unfold _onWheelStable. fields. rewrite H4, H5. cbn [negb andb].
  rewrite (selectedIndex_at_24 (set_pendingScroll 0 t)) by exact H24.
  rewrite H2. cbn [same_item negb].
  unfold _stopAnimation, dispatchSelect, cancelAnimationFrame. fields.
  rewrite Han. fields. rewrite Hfr, H6.
  repeat split; try reflexivity. exact H24.
Qed.

Lemma clamp_inside (N y : Q) : 0 <= y -> y < N -> JS.max 0 (JS.min N y) = y.
Proof.
  intros H0 HN. unfold JS.max, JS.min.
  assert (E1 : JS.le N y = false) by (apply JSFacts.le_false; exact HN).
  assert (E2 : JS.le 0 y = true) by (apply JSFacts.le_spec; exact H0).
  rewrite E1, E2. reflexivity.
Qed.

(** The frame that finds the wheel at rest off the boundary: the
    stabilization pulse aims at 24 again. *)
Lemma frame_stabilise (b : Item) (e now now' last : Q) (t : Picker) :
  wheel_settling b e now t -> frames t = [] -> e <= 11 -> now < now' ->
  _lastTimestamp t = Some last -> ~ last == 0 ->
  approxEq (_pendingScroll t) 0 = true ->
  approxEq (JS.rem (_currentScroll t) ITEM_HEIGHT) 0 = false ->
  settling b e now' (state_of (frame now t)).
Proof.
  intros Hw Hfr He Hnow Hlast Hnz Hp Hr.
  pose proof (sentinel_quiet b e now t Hw He) as Hsent.
  destruct Hw as [H1 H2 H3 H4 H5 H6 H7 H8 H9 H10 H11].
  destruct (H7 last Hlast) as [_ [h' Han]].
  unfold _animatePhysics. rewrite Hlast.
  apply JSFacts.eq_false in Hnz. rewrite Hnz. cbv beta iota zeta delta [negb].
  rewrite Hsent, Hp. unfold _isWheelStable. rewrite Hp. fields.
  rewrite Hr, H4. cbn [orb state_of].
  apply approxEq_zero in Hp. unfold EFFECTIVELY_ZERO in Hp.
  destruct (JSFacts.rem_nonneg (_currentScroll t) ITEM_HEIGHT H8)
    as (Hlo & Hhi & Hrem & Hk); [reflexivity|].
  set (k := Qfloor (_currentScroll t / ITEM_HEIGHT)) in *.
  assert (Hk01 : k = 0%Z \/ k = 1%Z).
  { destruct (Z.eq_dec k 0) as [E|E]; [left; exact E|].
    destruct (Z.eq_dec k 1) as [E1|E1]; [right; exact E1|].
    assert (H2k : inject_Z 2 <= inject_Z k) by (rewrite <- Zle_Qle; lia).
    change (inject_Z 2) with 2 in H2k.
    rewrite Hrem in Hlo. unfold ITEM_HEIGHT in *. lra. }
  unfold _stabilizeWheel, _startPhysicsAnimation, reschedule, requestAnimationFrame.
  fields.
  pose proof half_item as Hhalf.
  destruct (JS.lt (ITEM_HEIGHT / 2) (JS.rem (_currentScroll t) ITEM_HEIGHT)) eqn:Half;
    fields; rewrite Han; fields; rewrite Hfr;
    (split; [|fields; eexists; reflexivity]).
  - apply JSFacts.lt_spec in Half. rewrite Hhalf in Half.
    assert (E : k = 0%Z).
    { destruct Hk01 as [E|E]; [exact E|].
      rewrite Hrem, E in Half. change (inject_Z 1) with 1 in Half.
      unfold ITEM_HEIGHT in *. lra. }
    rewrite Hrem, E in *. change (inject_Z 0) with 0 in *. unfold ITEM_HEIGHT in *.
    constructor; fields; try assumption; try lra.
    intros l El. injection El as <-. split; [exact Hnow|eexists; reflexivity].
  - apply JSFacts.lt_false in Half. rewrite Hhalf in Half.
    assert (E : k = 1%Z).
    { destruct Hk01 as [E|E]; [|exact E].
      rewrite Hrem, E in Half. change (inject_Z 0) with 0 in Half.
      unfold ITEM_HEIGHT in *. lra. }
    rewrite Hrem, E in *. change (inject_Z 1) with 1 in *. unfold ITEM_HEIGHT in *.
    constructor; fields; try assumption; try lra.
    intros l El. injection El as <-. split; [exact Hnow|eexists; reflexivity].
Qed.

(** The frame that moves the wheel. *)
Lemma frame_settle (b : Item) (e now now' last : Q) (t : Picker) :
  wheel_settling b e now t -> frames t = [] -> e <= 11 -> now < now' ->
  _lastTimestamp t = Some last -> ~ last == 0 ->
  approxEq (_pendingScroll t) 0 = false ->
  settling b (e + EFFECTIVELY_ZERO) now' (state_of (frame now t)).
Proof.
  intros Hw Hfr He Hnow Hlast Hnz Hp.
  pose proof (sentinel_quiet b e now t Hw He) as Hsent.
  destruct Hw as [H1 H2 H3 H4 H5 H6 H7 H8 H9 H10 H11].
  destruct (H7 last Hlast) as [Hbefore [h' Han]].
  unfold _animatePhysics. rewrite Hlast.
  apply JSFacts.eq_false in Hnz. rewrite Hnz. cbv beta iota zeta delta [negb].
  rewrite Hsent, Hp.
  assert (Hoff : JS.lt (scrollOffset t) 0 = false).
  { apply JSFacts.lt_false. apply scrollOffset_nonneg. exact H8. }
  rewrite Hoff. cbn [state_of].
  assert (Hp0 : ~ _pendingScroll t == 0).
  { intro E. apply approxEq_zero_false in Hp. unfold EFFECTIVELY_ZERO in Hp. lra. }
  assert (Hdelta : 0 <= now - last) by lra.
  pose proof (dx_limited_between easingFunction inverseEasingFunction
                easing_monotone inverse_nonneg (now - last) t H3 H8 Hp0 Hdelta)
    as Hdx.
  set (dx := limited (now - last) t) in *.
  assert (Hy : 0 <= _currentScroll t + dx <= 24 + e) by lra.
  unfold animate_scroll, reschedule, requestAnimationFrame. fields.
  rewrite (items_length_five t H1).
  rewrite clamp_inside; [|lra|unfold ITEM_HEIGHT; lra].
  set (y := _currentScroll t + dx) in *.
  assert (Ey : y == _currentScroll t + dx) by reflexivity.
  unfold EFFECTIVELY_ZERO.
  destruct (approxEq y (inject_Z (JS.round y))) eqn:Hs; fields; rewrite Hfr;
    (split; [|fields; eexists; reflexivity]).
  - pose proof (snap_close y Hs) as Hclose. unfold EFFECTIVELY_ZERO in Hclose.
    assert (Hr0 : 0 <= inject_Z (JS.round y)).
    { apply (round_in_range y 120). change (inject_Z 120) with 120. lra. }
    constructor; fields; try assumption; try lra.
    + intros l El. injection El as <-. split; [exact Hnow|eexists; reflexivity].
    + intros _. rewrite round_inject_Z. reflexivity.
  - constructor; fields; try assumption; try lra.
    + intros l El. injection El as <-. split; [exact Hnow|eexists; reflexivity].
    + intro Hs'. rewrite Hs in Hs'. discriminate Hs'.
Qed.

Lemma settling_weaken (b : Item) (e e' now : Q) (s : Picker) :
  e <= e' -> settling b e now s -> settling b e' now s.
Proof.
  intros He [Hw Hfr]. split; [|exact Hfr].
  apply (wheel_settling_weaken b e e'); assumption.
Qed.

(** One tick of the loop on the way to 24: the wheel is still on its way,
    with [EFFECTIVELY_ZERO] more slack, or it has settled on 24. *)
Lemma tick_step (b : Item) (e now now' : Q) (s : Picker) :
  settling b e now s -> e <= 11 -> now < now' ->
  settling b (e + EFFECTIVELY_ZERO) now' (tick now s) \/ settled b (tick now s).
Proof.
  intros [Hw [h Hfr]] He Hnow.
  destruct (tick_single now s h Hfr) as [-> Hfr'].
  pose proof (wheel_settling_cancel b e now s h Hw) as Hw'.
  set (t := cancelAnimationFrame h s) in *.
  assert (Hslack : e <= e + EFFECTIVELY_ZERO) by (unfold EFFECTIVELY_ZERO; lra).
  destruct (_lastTimestamp t) as [last|] eqn:Hlast.
  - destruct (JS.eq last 0) eqn:Hz.
    + left. apply (settling_weaken b e); [exact Hslack|].
      apply (frame_bootstrap b e now now' t Hw' Hfr' Hnow).
      intros l El. rewrite Hlast in El. injection El as <-.
      apply JSFacts.eq_spec. exact Hz.
    + apply JSFacts.eq_false in Hz.
      destruct (approxEq (_pendingScroll t) 0) eqn:Hp.
      * destruct (approxEq (JS.rem (_currentScroll t) ITEM_HEIGHT) 0) eqn:Hr.
        -- right. apply (frame_stable b e now last); assumption.
        -- left. apply (settling_weaken b e); [exact Hslack|].
           apply (frame_stabilise b e now now' last); assumption.
      * left. apply (frame_settle b e now now' last); assumption.
  - left. apply (settling_weaken b e); [exact Hslack|].
    apply (frame_bootstrap b e now now' t Hw' Hfr' Hnow).
    intros l El. rewrite Hlast in El. discriminate El.
Qed.

Lemma frame_loop_0 (clock : N -> Q) (s : Picker) :
  frame_loop easingFunction inverseEasingFunction clock 0 s = s.
Proof. reflexivity. Qed.

Lemma frame_loop_succ (clock : N -> Q) (n : N) (s : Picker) :
  frame_loop easingFunction inverseEasingFunction clock (N.succ n) s
  = tick (clock n) (frame_loop easingFunction inverseEasingFunction clock n s).
Proof. unfold frame_loop. rewrite N.peano_rect_succ. reflexivity. Qed.

Lemma slack_succ (n : N) :
  inject_Z (Z.of_N (N.succ n)) * EFFECTIVELY_ZERO
  == inject_Z (Z.of_N n) * EFFECTIVELY_ZERO + EFFECTIVELY_ZERO.
Proof.
  rewrite N2Z.inj_succ. unfold Z.succ. rewrite inject_Z_plus.
  change (inject_Z 1) with 1. ring.
Qed.

Lemma slack_bound (n : N) :
  (n <= 100000000000)%N -> inject_Z (Z.of_N n) * EFFECTIVELY_ZERO <= 11.
Proof.
  intro Hn.
  assert (H : inject_Z (Z.of_N n) <= inject_Z 100000000000) by (rewrite <- Zle_Qle; lia).
  assert (H0 : inject_Z 0 <= inject_Z (Z.of_N n)) by (rewrite <- Zle_Qle; lia).
  change (inject_Z 0) with 0 in H0.
  change (inject_Z 100000000000) with 100000000000 in H.
  unfold EFFECTIVELY_ZERO. lra.
Qed.

(** Through any number of ticks up to 10^11 on a strictly increasing
    clock the wheel is on its way to 24 or has settled there. *)
Lemma frame_loop_settling (b : Item) (clock : N -> Q) (s : Picker) (n : N) :
  (forall i, clock i < clock (N.succ i)) ->
  settling b 0 (clock 0%N) s ->
  (n <= 100000000000)%N ->
  settling b (inject_Z (Z.of_N n) * EFFECTIVELY_ZERO) (clock n)
           (frame_loop easingFunction inverseEasingFunction clock n s)
  \/ settled b (frame_loop easingFunction inverseEasingFunction clock n s).
Proof.
  intros Hclock H0. induction n as [|n IH] using N.peano_ind; intro Hn.
  - left. rewrite frame_loop_0.
    apply (settling_weaken b 0); [|exact H0].
    change (inject_Z (Z.of_N 0)) with 0. unfold EFFECTIVELY_ZERO. lra.
  - rewrite frame_loop_succ.
    destruct IH as [IH|IH]; [lia| |].
    + destruct (tick_step b _ (clock n) (clock (N.succ n)) _ IH) as [H|H].
      * apply slack_bound. lia.
      * apply Hclock.
      * left. apply (settling_weaken b (inject_Z (Z.of_N n) * EFFECTIVELY_ZERO
                                        + EFFECTIVELY_ZERO)); [|exact H].
        rewrite slack_succ. lra.
      * right. exact H.
    + right. rewrite (tick_settled b _ _ IH). exact IH.
Qed.

Lemma round_at_24 (y : Q) : y == 24 -> JS.round y = 24%Z.
Proof.
  intro H. unfold JS.round. apply Qfloor_unique;
    rewrite H; change (inject_Z 24) with 24; lra.
Qed.

Lemma frame_loop_settled (b : Item) (clock : N -> Q) (s : Picker) (m k : N) :
  settled b (frame_loop easingFunction inverseEasingFunction clock m s) ->
  frame_loop easingFunction inverseEasingFunction clock (m + k) s
  = frame_loop easingFunction inverseEasingFunction clock m s.
Proof.
  intro H. induction k as [|k IH] using N.peano_ind.
  - rewrite N.add_0_r. reflexivity.
  - rewrite N.add_succ_r, frame_loop_succ, IH. apply (tick_settled b). exact H.
Qed.

Lemma arrow_down_settling (a b c d e : Item) (D now : Q) :
  0 < D -> settling b 0 now (arrow_down_picker [a; b; c; d; e] D).
Proof.
  intro HD. split; [|exists 1%positive; reflexivity].
  constructor; try reflexivity;
    cbn -[Qle Qlt Qeq Qplus Qminus Qmult]; unfold ITEM_HEIGHT.
  - exact HD.
  - intros last E. discriminate E.
  - lra.
  - lra.
  - lra.
Qed.

End Settle.

(** ** Frames closer together than the snap can see *)

Local Abbreviation linear_frame := (_animatePhysics LinearEasing LinearEasing).
Local Abbreviation linear_tick := (next_frame LinearEasing LinearEasing).
Local Abbreviation linear_loop := (frame_loop LinearEasing LinearEasing).

Lemma trap_clock_increasing (i : N) : trap_clock i < trap_clock (N.succ i).
Proof.
  unfold trap_clock, trap_step. rewrite N2Z.inj_succ. unfold Z.succ.
  rewrite inject_Z_plus. change (inject_Z 1) with 1. lra.
Qed.

Lemma trap_clock_positive (i : N) : 1 <= trap_clock i.
Proof.
  unfold trap_clock, trap_step.
  assert (H : inject_Z 0 <= inject_Z (Z.of_N i)) by (rewrite <- Zle_Qle; lia).
  change (inject_Z 0) with 0 in H. lra.
Qed.

Lemma trap_gap (i : N) : trap_clock (N.succ i) - trap_clock i == trap_step.
Proof.
  unfold trap_clock. rewrite N2Z.inj_succ. unfold Z.succ.
  rewrite inject_Z_plus. change (inject_Z 1) with 1. ring.
Qed.

(** The increment of a frame in the trap. *)
Lemma trap_dx (j : N) (t : Picker) :
  animationDuration t = 180 -> _currentScroll t = 0 ->
  (24 # 274877906944) < _pendingScroll t -> _pendingScroll t <= 24 ->
  dx_limited LinearEasing LinearEasing (trap_clock (N.succ j) - trap_clock j) t
  == 24 # 274877906944.
Proof.
  intros HD Hc Hlo Hhi.
  assert (Hpos : 0 < _pendingScroll t) by lra.
  assert (Habs : JS.abs (_pendingScroll t) == _pendingScroll t).
  { destruct (JSFacts.abs_spec (_pendingScroll t)) as [[_ E]|[F _]]; [exact E|lra]. }
  assert (Hoff : scrollOffset t == 0).
  { unfold scrollOffset. apply JSFacts.lt_spec in Hpos. rewrite Hpos, Hc.
    reflexivity. }
  assert (HT : shrunkenAnimationTime t = 180).
  { unfold shrunkenAnimationTime. rewrite HD. unfold JS.min.
    assert (E : JS.le 180 (180 * ITEM_HEIGHT / JS.abs (_pendingScroll t)) = true).
    { apply JSFacts.le_spec. rewrite Habs. unfold ITEM_HEIGHT.
      apply Qle_shift_div_l; lra. }
    rewrite E. reflexivity. }
  assert (Ht : t_estimate LinearEasing t == 0).
  { unfold t_estimate, LinearEasing. rewrite Hoff, HT. reflexivity. }
  unfold dx_limited. rewrite (sign_pos _ Hpos).
  assert (Hraw : dx_differential LinearEasing LinearEasing
                   (trap_clock (N.succ j) - trap_clock j) t == 24 # 274877906944).
  { unfold dx_differential. rewrite HT.
    set (te := t_estimate LinearEasing t) in *.
    unfold LinearEasing.
    set (delta := trap_clock (N.succ j) - trap_clock j).
    assert (Hd : delta == trap_step) by apply trap_gap.
    unfold trap_step in Hd.
    assert (E1 : (te + delta) / 180 == 1 # 274877906944).
    { rewrite Ht, Hd. reflexivity. }
    assert (E2 : te / 180 == 0) by (rewrite Ht; reflexivity).
    destruct (JSFacts.min_spec 1 ((te + delta) / 180)) as [[F _]|[_ ->]]; [lra|].
    destruct (JSFacts.min_spec 1 (te / 180)) as [[F _]|[_ ->]]; [lra|].
    rewrite E1, E2. reflexivity. }
  destruct (JSFacts.min_spec (JS.abs (_pendingScroll t))
              (dx_differential LinearEasing LinearEasing
                 (trap_clock (N.succ j) - trap_clock j) t))
    as [[F _]|[_ ->]]; lra.
Qed.

Lemma trap_sentinel (t : Picker) :
  items t = five_items -> _currentScroll t = 0 -> 0 <= _pendingScroll t ->
  sentinel t = t.
Proof.
  intros Hi Hc Hp. unfold sentinel, items_length. rewrite Hi, Hc.
  assert (E : JS.lt (_pendingScroll t) 0 = false) by (apply JSFacts.lt_false; exact Hp).
  rewrite E. reflexivity.
Qed.

(** A frame in the trap: the wheel does not move, the pending
    displacement shrinks. *)
Lemma trap_frame (j : N) (s : Picker) :
  (j < 274877906943)%N -> trapped j s ->
  trapped (N.succ j) (linear_tick (trap_clock (N.succ j)) s).
Proof.
  intros Hj [H1 H2 H3 H4 H5 [h H6] [h' H7] H8 H9 H10].
  destruct (tick_single LinearEasing LinearEasing (trap_clock (N.succ j)) s h H6)
    as [-> Hfr].
  set (t := cancelAnimationFrame h s) in *.
  assert (Hj' : inject_Z (Z.of_N j) <= 274877906942).
  { change 274877906942 with (inject_Z 274877906942). rewrite <- Zle_Qle. lia. }
  assert (Hj0 : 0 <= inject_Z (Z.of_N j)).
  { change 0 with (inject_Z 0). rewrite <- Zle_Qle. lia. }
  assert (Hp : (24 # 274877906944) < _pendingScroll t /\ _pendingScroll t <= 24).
  { change (_pendingScroll t) with (_pendingScroll s). lra. }
  destruct Hp as [Hplo Hphi].
  assert (Hnz : JS.eq (trap_clock j) 0 = false).
  { apply JSFacts.eq_false. pose proof (trap_clock_positive j). lra. }
  assert (Hnp : approxEq (_pendingScroll t) 0 = false).
  { apply approxEq_zero_false. unfold EFFECTIVELY_ZERO.
    change (_pendingScroll t) with (_pendingScroll s). lra. }
  pose proof (trap_dx j t H2 H9 Hplo Hphi) as Hdx.
  unfold _animatePhysics.
  change (_lastTimestamp t) with (_lastTimestamp s). rewrite H8, Hnz.
  cbv beta iota zeta delta [negb].
  rewrite (trap_sentinel t H1 H9) by lra. rewrite Hnp.
  assert (Hoff : JS.lt (scrollOffset t) 0 = false).
  { apply JSFacts.lt_false. apply scrollOffset_nonneg.
    change (_currentScroll t) with (_currentScroll s). rewrite H9. lra. }
  rewrite Hoff. cbn [state_of].
  set (dx := dx_limited LinearEasing LinearEasing
               (trap_clock (N.succ j) - trap_clock j) t) in *.
  unfold animate_scroll, reschedule, requestAnimationFrame. fields.
  unfold items_length. change (items t) with (items s). rewrite H1.
  change (_currentScroll t) with (_currentScroll s). rewrite H9.
  change (inject_Z (Z.of_nat (List.length five_items))) with 5.
  rewrite clamp_inside; [|lra|unfold ITEM_HEIGHT; lra].
  assert (Hround : JS.round (0 + dx) = 0%Z).
  { unfold JS.round. apply Qfloor_unique; change (inject_Z 0) with 0; lra. }
  rewrite Hround.
  assert (Hs : approxEq (0 + dx) (inject_Z 0) = true).
  { apply approxEq_spec. apply Qabs_Qle_condition.
    change (inject_Z 0) with 0. unfold EFFECTIVELY_ZERO. lra. }
  rewrite Hs. fields.
  constructor; fields; try assumption; try reflexivity.
  - rewrite Hfr. eexists. reflexivity.
  - eexists. reflexivity.
  - change (_pendingScroll t) with (_pendingScroll s).
    rewrite N2Z.inj_succ. unfold Z.succ. rewrite inject_Z_plus.
    change (inject_Z 1) with 1. lra.
Qed.

(** The bootstrap frame of the trap. *)
Lemma trap_bootstrap :
  trapped 0 (linear_loop trap_clock 1 (arrow_down_picker five_items 180)).
Proof.
  constructor; try reflexivity.
  - exists 2%positive. reflexivity.
  - exists 2%positive. reflexivity.
Qed.

(** All the frames of the trap but the last. *)
Lemma trap_loop (j : N) :
  (j <= 274877906943)%N ->
  trapped j (linear_loop trap_clock (N.succ j) (arrow_down_picker five_items 180)).
Proof.
  induction j as [|j IH] using N.peano_ind; intro Hj.
  - exact trap_bootstrap.
  - rewrite frame_loop_succ. apply trap_frame; [lia|]. apply IH. lia.
Qed.

(** The frame that finds less than [EFFECTIVELY_ZERO] pending: the wheel
    is at rest on 0, and the settle dispatches item 0. *)
Lemma trap_settle (now : Q) (s : Picker) :
  trapped 274877906943 s ->
  frames (linear_tick now s) = []
  /\ _currentScroll (linear_tick now s) = 0
  /\ selects (linear_tick now s) = [Some "a"%string].
Proof.
  intros [H1 H2 H3 H4 H5 [h H6] [h' H7] H8 H9 H10].
  destruct (tick_single LinearEasing LinearEasing now s h H6)
    as [-> Hfr].
  set (t := cancelAnimationFrame h s) in *.
  change (inject_Z (Z.of_N 274877906943)) with 274877906943 in H10.
  assert (Hnz : JS.eq (trap_clock 274877906943) 0 = false).
  { apply JSFacts.eq_false. pose proof (trap_clock_positive 274877906943). lra. }
  assert (Hp : approxEq (_pendingScroll t) 0 = true).
  { apply approxEq_zero. unfold EFFECTIVELY_ZERO.
    change (_pendingScroll t) with (_pendingScroll s). lra. }
  unfold _animatePhysics.
  change (_lastTimestamp t) with (_lastTimestamp s). rewrite H8, Hnz.
  cbv beta iota zeta delta [negb].
  rewrite (trap_sentinel t H1 H9)
    by (change (_pendingScroll t) with (_pendingScroll s); lra).
  rewrite Hp. unfold _isWheelStable. rewrite Hp. fields.
  change (_currentScroll t) with (_currentScroll s). rewrite H9.
  change (approxEq (JS.rem 0 ITEM_HEIGHT) 0) with true.
  cbn [orb state_of].
  unfold _onWheelStable, _selectedIndex. fields.
  change (_isExternalForceActive t) with (_isExternalForceActive s).
  change (_selectedItem t) with (_selectedItem s).
  change (_currentScroll t) with (_currentScroll s).
  change (items t) with (items s).
  rewrite H3, H4, H9, H1.
  change (item_at five_items (JS.round (0 / ITEM_HEIGHT))) with (Some "a"%string).
  cbn [negb andb same_item].
  unfold _stopAnimation, dispatchSelect, cancelAnimationFrame. fields.
  change (_animating t) with (_animating s). rewrite H7. fields.
  rewrite Hfr. change (selects t) with (selects s). rewrite H5.
  change (_currentScroll t) with (_currentScroll s). rewrite H9.
  repeat split; reflexivity.
Qed.

Lemma trap_run (n : N) :
  n = N.succ (N.succ 274877906943) ->
  frames (linear_loop trap_clock n (arrow_down_picker five_items 180)) = []
  /\ _currentScroll (linear_loop trap_clock n (arrow_down_picker five_items 180)) = 0
  /\ selects (linear_loop trap_clock n (arrow_down_picker five_items 180))
     = [Some "a"%string].
Proof.
  intros ->. rewrite frame_loop_succ.
  apply trap_settle. apply trap_loop. apply N.le_refl.
Qed.

(** C4, the claim as stated fails.  On the clock [trap_clock], which is
    strictly increasing, the loop started by one ArrowDown on the five
    items runs to its end in [2^38 + 1] frames; the wheel is then on 0,
    not on 24, and the one event dispatched carries the item at index 0:
    every frame moved the wheel by less than the snap to the nearest
    integer takes back, while the pending displacement was used up. *)
Lemma C4_frames_below_the_snap_never_move :
  frames (linear_loop trap_clock 274877906945 (arrow_down_picker five_items 180)) = []
  /\ _currentScroll
       (linear_loop trap_clock 274877906945 (arrow_down_picker five_items 180)) = 0
  /\ ~ _currentScroll
         (linear_loop trap_clock 274877906945 (arrow_down_picker five_items 180)) == 24
  /\ selects
       (linear_loop trap_clock 274877906945 (arrow_down_picker five_items 180))
     = [Some "a"%string].
Proof.
  destruct (trap_run 274877906945 eq_refl) as (Hf & Hc & Hs).
  split; [exact Hf|]. split; [exact Hc|]. split; [|exact Hs].
  rewrite Hc. intro E. discriminate E.
Qed.

(** ** A display at 60 frames a second *)

Lemma round_compat (x x' : Q) : x == x' -> JS.round x = JS.round x'.
Proof. intro H. unfold JS.round. rewrite H. reflexivity. Qed.

Lemma approxEq_compat (x x' y y' : Q) :
  x == x' -> y == y' -> approxEq x y = approxEq x' y'.
Proof.
  intros Hx Hy.
  destruct (approxEq x' y') eqn:E.
  - apply approxEq_spec. apply approxEq_spec in E. rewrite Hx, Hy. exact E.
  - apply approxEq_false. apply approxEq_false in E. rewrite Hx, Hy. exact E.
Qed.

Lemma gliding_eq (c c' last : Q) (s : Picker) :
  c == c' -> gliding c last s -> gliding c' last s.
Proof.
  intros Hc [H1 H2 H3 H4 H5 H6 H7 H8 H9 H10].
  constructor; try assumption; lra.
Qed.

(** What a frame reads on the way from [c] to 24 under the linear
    curve. *)
Lemma glide_reads (c delta : Q) (t : Picker) :
  animationDuration t = 180 -> _currentScroll t == c ->
  _pendingScroll t == 24 - c -> 0 <= c -> c < 24 ->
  JS.sign (_pendingScroll t) = 1
  /\ JS.abs (_pendingScroll t) == 24 - c
  /\ shrunkenAnimationTime t = 180
  /\ (t_estimate LinearEasing t + delta) / 180 == c / 24 + delta / 180
  /\ t_estimate LinearEasing t / 180 == c / 24.
Proof.
  intros HD Hc Hp Hc0 Hc24.
  assert (Hpos : 0 < _pendingScroll t) by lra.
  assert (Habs : JS.abs (_pendingScroll t) == 24 - c).
  { destruct (JSFacts.abs_spec (_pendingScroll t)) as [[_ E]|[F _]]; [|lra].
    rewrite E. exact Hp. }
  assert (Hoff : scrollOffset t == c).
  { unfold scrollOffset. apply JSFacts.lt_spec in Hpos as Hb. rewrite Hb.
    destruct (JSFacts.rem_nonneg (ITEM_HEIGHT + _currentScroll t) ITEM_HEIGHT)
      as (_ & _ & Hrem & _); [unfold ITEM_HEIGHT; lra|reflexivity|].
    rewrite Hrem.
    assert (Hk : Qfloor ((ITEM_HEIGHT + _currentScroll t) / ITEM_HEIGHT) = 1%Z).
    { apply Qfloor_unique; unfold ITEM_HEIGHT; change (inject_Z 1) with 1.
      - apply Qle_shift_div_l; lra.
      - apply Qlt_shift_div_r; lra. }
    rewrite Hk. change (inject_Z 1) with 1. unfold ITEM_HEIGHT. lra. }
  assert (HT : shrunkenAnimationTime t = 180).
  { unfold shrunkenAnimationTime. rewrite HD. unfold JS.min.
    assert (E : JS.le 180 (180 * ITEM_HEIGHT / JS.abs (_pendingScroll t)) = true).
    { apply JSFacts.le_spec. rewrite Habs. unfold ITEM_HEIGHT.
      apply Qle_shift_div_l; lra. }
    rewrite E. reflexivity. }
  assert (Ht : t_estimate LinearEasing t == c / 24 * 180).
  { unfold t_estimate, LinearEasing. rewrite Hoff, HT. reflexivity. }
  repeat split.
  - apply sign_pos. exact Hpos.
  - exact Habs.
  - exact HT.
  - rewrite Ht. field.
  - rewrite Ht. field.
Qed.

Lemma glide_sentinel (c : Q) (t : Picker) :
  items t = five_items -> _currentScroll t == c -> c <= 24 ->
  0 <= _pendingScroll t -> sentinel t = t.
Proof.
  intros Hi Hc Hc24 Hp. unfold sentinel, items_length. rewrite Hi.
  change (inject_Z (Z.of_nat (List.length five_items))) with 5.
  assert (E1 : JS.lt (_pendingScroll t) 0 = false) by (apply JSFacts.lt_false; exact Hp).
  assert (E2 : JS.le (ITEM_HEIGHT * (5 - 1)) (_currentScroll t) = false).
  { apply JSFacts.le_false. unfold ITEM_HEIGHT. lra. }
  rewrite E1, E2, andb_false_r. reflexivity.
Qed.

(** The frame step of a gliding wheel is the settling branch. *)
Lemma glide_settling_branch (c last now : Q) (t : Picker) :
  items t = five_items -> _lastTimestamp t = Some last -> ~ last == 0 ->
  _currentScroll t == c -> _pendingScroll t == 24 - c ->
  0 <= c -> EFFECTIVELY_ZERO < 24 - c ->
  _animatePhysics LinearEasing LinearEasing now t
  = Returned (reschedule now
                (animate_scroll (dx_limited LinearEasing LinearEasing (now - last) t) t)).
Proof.
  intros Hi Hlast Hnz Hc Hp Hc0 Hfar. unfold EFFECTIVELY_ZERO in Hfar.
  unfold _animatePhysics. rewrite Hlast.
  apply JSFacts.eq_false in Hnz. rewrite Hnz. cbv beta iota zeta delta [negb].
  rewrite (glide_sentinel c t Hi Hc) by lra.
  assert (Hnp : approxEq (_pendingScroll t) 0 = false).
  { apply approxEq_zero_false. unfold EFFECTIVELY_ZERO. lra. }
  rewrite Hnp.
  assert (Hoff : JS.lt (scrollOffset t) 0 = false).
  { apply JSFacts.lt_false. apply scrollOffset_nonneg. lra. }
  rewrite Hoff. reflexivity.
Qed.

(** A frame on the way: the wheel advances by [2/15] of the time since
    the last frame. *)
Lemma glide_frame (c last now : Q) (s : Picker) :
  gliding c last s -> ~ last == 0 -> last < now -> 0 <= c ->
  EFFECTIVELY_ZERO < 24 - c ->
  c + (2 # 15) * (now - last) < 24 ->
  approxEq (c + (2 # 15) * (now - last))
           (inject_Z (JS.round (c + (2 # 15) * (now - last)))) = false ->
  gliding (c + (2 # 15) * (now - last)) now (linear_tick now s).
Proof.
  intros [H1 H2 H3 H4 H5 [h H6] [h' H7] H8 H9 H10] Hnz Hnow Hc0 Hfar Hy Hsnap.
  destruct (tick_single LinearEasing LinearEasing now s h H6) as [-> Hfr].
  set (t := cancelAnimationFrame h s) in *.
  assert (Hc : _currentScroll t == c) by exact H9.
  assert (Hp : _pendingScroll t == 24 - c) by exact H10.
  rewrite (glide_settling_branch c last now t H1 H8 Hnz Hc Hp Hc0 Hfar).
  destruct (glide_reads c (now - last) t H2 Hc Hp Hc0) as (Hsg & Habs & HT & Ea & Eb);
    [lra|].
  assert (Hdx : dx_limited LinearEasing LinearEasing (now - last) t
                == (2 # 15) * (now - last)).
  { unfold dx_limited, dx_differential. rewrite Hsg, HT.
    set (te := t_estimate LinearEasing t) in *. unfold LinearEasing.
    destruct (JSFacts.min_spec 1 ((te + (now - last)) / 180)) as [[F _]|[_ ->]].
    { rewrite Ea in F.
      assert (E : c / 24 + (now - last) / 180
                  == (c + (2 # 15) * (now - last)) / 24) by field.
      assert (G : (c + (2 # 15) * (now - last)) / 24 < 1)
        by (apply Qlt_shift_div_r; lra).
      lra. }
    destruct (JSFacts.min_spec 1 (te / 180)) as [[F _]|[_ ->]].
    { assert (G : c / 24 < 1) by (apply Qlt_shift_div_r; lra). lra. }
    set (raw := (te + (now - last)) / 180 * ITEM_HEIGHT - te / 180 * ITEM_HEIGHT).
    assert (Hraw : raw == (2 # 15) * (now - last)).
    { unfold raw. rewrite Ea, Eb. unfold ITEM_HEIGHT. field. }
    destruct (JSFacts.min_spec (JS.abs (_pendingScroll t)) raw)
      as [[F _]|[_ ->]]; lra. }
  set (dx := dx_limited LinearEasing LinearEasing (now - last) t) in *.
  unfold animate_scroll, reschedule, requestAnimationFrame. fields.
  unfold items_length. change (items t) with (items s). rewrite H1.
  change (inject_Z (Z.of_nat (List.length five_items))) with 5.
  rewrite clamp_inside; [|lra|unfold ITEM_HEIGHT; lra].
  assert (Ey : _currentScroll t + dx == c + (2 # 15) * (now - last)) by lra.
  assert (Hs : approxEq (_currentScroll t + dx)
                        (inject_Z (JS.round (_currentScroll t + dx))) = false).
  { rewrite <- Hsnap. apply approxEq_compat; [exact Ey|].
    rewrite (round_compat _ _ Ey). reflexivity. }
  rewrite Hs. fields.
  constructor; fields; try assumption; try reflexivity.
  - rewrite Hfr. eexists. reflexivity.
  - eexists. reflexivity.
  - lra.
Qed.

(** The frame that reaches 24. *)
Lemma glide_arrival (c last now : Q) (s : Picker) :
  gliding c last s -> ~ last == 0 -> last < now -> 0 <= c ->
  EFFECTIVELY_ZERO < 24 - c ->
  24 <= c + (2 # 15) * (now - last) ->
  gliding 24 now (linear_tick now s).
Proof.
  intros [H1 H2 H3 H4 H5 [h H6] [h' H7] H8 H9 H10] Hnz Hnow Hc0 Hfar Hy.
  destruct (tick_single LinearEasing LinearEasing now s h H6) as [-> Hfr].
  set (t := cancelAnimationFrame h s) in *.
  assert (Hc : _currentScroll t == c) by exact H9.
  assert (Hp : _pendingScroll t == 24 - c) by exact H10.
  rewrite (glide_settling_branch c last now t H1 H8 Hnz Hc Hp Hc0 Hfar).
  unfold EFFECTIVELY_ZERO in Hfar.
  destruct (glide_reads c (now - last) t H2 Hc Hp Hc0) as (Hsg & Habs & HT & Ea & Eb);
    [lra|].
  assert (Hdx : dx_limited LinearEasing LinearEasing (now - last) t == 24 - c).
  { unfold dx_limited, dx_differential. rewrite Hsg, HT.
    set (te := t_estimate LinearEasing t) in *. unfold LinearEasing.
    destruct (JSFacts.min_spec 1 ((te + (now - last)) / 180)) as [[_ ->]|[F _]].
    2:{ assert (E : c / 24 + (now - last) / 180
                    == (c + (2 # 15) * (now - last)) / 24) by field.
        assert (G : 1 <= (c + (2 # 15) * (now - last)) / 24)
          by (apply Qle_shift_div_l; lra).
        lra. }
    destruct (JSFacts.min_spec 1 (te / 180)) as [[F _]|[_ ->]].
    { assert (G : c / 24 < 1) by (apply Qlt_shift_div_r; lra). lra. }
    set (raw := 1 * ITEM_HEIGHT - te / 180 * ITEM_HEIGHT).
    assert (Hraw : raw == 24 - c).
    { unfold raw. rewrite Eb. unfold ITEM_HEIGHT. field. }
    destruct (JSFacts.min_spec (JS.abs (_pendingScroll t)) raw)
      as [[_ ->]|[_ ->]]; lra. }
  set (dx := dx_limited LinearEasing LinearEasing (now - last) t) in *.
  unfold animate_scroll, reschedule, requestAnimationFrame. fields.
  unfold items_length. change (items t) with (items s). rewrite H1.
  change (inject_Z (Z.of_nat (List.length five_items))) with 5.
  rewrite clamp_inside; [|lra|unfold ITEM_HEIGHT; lra].
  assert (Ey : _currentScroll t + dx == 24) by lra.
  rewrite (round_at_24 _ Ey).
  assert (Hs : approxEq (_currentScroll t + dx) (inject_Z 24) = true).
  { apply approxEq_spec. apply Qabs_Qle_condition.
    change (inject_Z 24) with 24. unfold EFFECTIVELY_ZERO. lra. }
  rewrite Hs. fields.
  constructor; fields; try assumption; try reflexivity.
  - rewrite Hfr. eexists. reflexivity.
  - eexists. reflexivity.
  - lra.
Qed.

(** The frame that finds the wheel at rest on 24. *)
Lemma glide_settle (last now : Q) (s : Picker) :
  gliding 24 last s -> ~ last == 0 -> last < now ->
  settled "b" (linear_tick now s).
Proof.
  intros [H1 H2 H3 H4 H5 [h H6] [h' H7] H8 H9 H10] Hnz Hnow.
  destruct (tick_single LinearEasing LinearEasing now s h H6) as [-> Hfr].
  set (t := cancelAnimationFrame h s) in *.
  assert (Hw : wheel_settling "b" 0 now t).
  { constructor.
    - change (items t) with (items s). rewrite H1. reflexivity.
    - change (items t) with (items s). rewrite H1. reflexivity.
    - change (animationDuration t) with (animationDuration s). rewrite H2. reflexivity.
    - exact H3.
    - exact H4.
    - exact H5.
    - intros l El. change (_lastTimestamp t) with (_lastTimestamp s) in El.
      rewrite H8 in El. injection El as <-. split; [exact Hnow|].
      exists h'. exact H7.
    - change (_currentScroll t) with (_currentScroll s). lra.
    - change (_currentScroll t) with (_currentScroll s). lra.
    - change (_currentScroll t) with (_currentScroll s).
      change (_pendingScroll t) with (_pendingScroll s). lra.
    - intros _. change (_currentScroll t) with (_currentScroll s).
      rewrite (round_at_24 _ H9). exact H9. }
  apply (frame_stable LinearEasing LinearEasing "b" 0 now last t Hw Hfr);
    try assumption.
  - lra.
  - apply approxEq_zero. unfold EFFECTIVELY_ZERO.
    change (_pendingScroll t) with (_pendingScroll s). lra.
  - apply approxEq_zero. change (_currentScroll t) with (_currentScroll s).
    rewrite (rem_multiple _ 1); [unfold EFFECTIVELY_ZERO; lra|lia|].
    rewrite H9. reflexivity.
Qed.

Lemma linear_loop_step (clock : N -> Q) (n m : N) (s : Picker) :
  n = N.succ m ->
  linear_loop clock n s = linear_tick (clock m) (linear_loop clock m s).
Proof. intros ->. apply frame_loop_succ. Qed.

Lemma sixty_hertz_bootstrap :
  gliding 0 (sixty_hertz 0)
          (linear_loop sixty_hertz 1 (arrow_down_picker five_items 180)).
Proof.
  constructor; try reflexivity.
  - exists 2%positive. reflexivity.
  - exists 2%positive. reflexivity.
Qed.

(** One more frame of the display, from the position [c] after frame
    [m - 1] to the position [c'] after frame [m]. *)
Ltac sixty_hertz_frame m c H :=
  match goal with
  | |- gliding ?c' _ (frame_loop _ _ _ ?n _) =>
      rewrite (linear_loop_step sixty_hertz n m _ eq_refl);
      apply (gliding_eq
               (c + (2 # 15) * (sixty_hertz m - sixty_hertz (N.pred m))) c');
      [vm_compute; reflexivity|];
      apply glide_frame;
      [exact H | vm_compute; discriminate | vm_compute; reflexivity
       | vm_compute; discriminate | vm_compute; reflexivity
       | vm_compute; reflexivity | vm_compute; reflexivity]
  end.

(** At 60 frames a second the wheel is on 24 after thirteen frames, and
    the fourteenth settles it. *)
Lemma sixty_hertz_settles :
  settled "b" (linear_loop sixty_hertz 14 (arrow_down_picker five_items 180)).
Proof.
  pose proof sixty_hertz_bootstrap as G1.
  assert (G2 : gliding (32 # 15) (sixty_hertz 1)
                 (linear_loop sixty_hertz 2 (arrow_down_picker five_items 180)))
    by sixty_hertz_frame 1%N 0 G1.
  assert (G3 : gliding (64 # 15) (sixty_hertz 2)
                 (linear_loop sixty_hertz 3 (arrow_down_picker five_items 180)))
    by sixty_hertz_frame 2%N (32 # 15) G2.
  assert (G4 : gliding (96 # 15) (sixty_hertz 3)
                 (linear_loop sixty_hertz 4 (arrow_down_picker five_items 180)))
    by sixty_hertz_frame 3%N (64 # 15) G3.
  assert (G5 : gliding (128 # 15) (sixty_hertz 4)
                 (linear_loop sixty_hertz 5 (arrow_down_picker five_items 180)))
    by sixty_hertz_frame 4%N (96 # 15) G4.
  assert (G6 : gliding (160 # 15) (sixty_hertz 5)
                 (linear_loop sixty_hertz 6 (arrow_down_picker five_items 180)))
    by sixty_hertz_frame 5%N (128 # 15) G5.
  assert (G7 : gliding (192 # 15) (sixty_hertz 6)
                 (linear_loop sixty_hertz 7 (arrow_down_picker five_items 180)))
    by sixty_hertz_frame 6%N (160 # 15) G6.
  assert (G8 : gliding (224 # 15) (sixty_hertz 7)
                 (linear_loop sixty_hertz 8 (arrow_down_picker five_items 180)))
    by sixty_hertz_frame 7%N (192 # 15) G7.
  assert (G9 : gliding (256 # 15) (sixty_hertz 8)
                 (linear_loop sixty_hertz 9 (arrow_down_picker five_items 180)))
    by sixty_hertz_frame 8%N (224 # 15) G8.
  assert (G10 : gliding (288 # 15) (sixty_hertz 9)
                  (linear_loop sixty_hertz 10 (arrow_down_picker five_items 180)))
    by sixty_hertz_frame 9%N (256 # 15) G9.
  assert (G11 : gliding (320 # 15) (sixty_hertz 10)
                  (linear_loop sixty_hertz 11 (arrow_down_picker five_items 180)))
    by sixty_hertz_frame 10%N (288 # 15) G10.
  assert (G12 : gliding (352 # 15) (sixty_hertz 11)
                  (linear_loop sixty_hertz 12 (arrow_down_picker five_items 180)))
    by sixty_hertz_frame 11%N (320 # 15) G11.
  assert (G13 : gliding 24 (sixty_hertz 12)
                  (linear_loop sixty_hertz 13 (arrow_down_picker five_items 180))).
  { rewrite (linear_loop_step sixty_hertz 13 12 _ eq_refl).
    apply (glide_arrival (352 # 15) (sixty_hertz 11)); try exact G12;
      vm_compute; (reflexivity || discriminate). }
  rewrite (linear_loop_step sixty_hertz 14 13 _ eq_refl).
  apply (glide_settle (sixty_hertz 12)); try exact G13.
  - vm_compute. discriminate.
  - vm_compute. reflexivity.
Qed.

(** ** The theorems at concrete pickers *)

Lemma linear_monotone (x y : Q) :
  0 <= x -> x <= y -> y <= 1 -> LinearEasing x <= LinearEasing y.
Proof. intros _ H _. exact H. Defined.

Lemma linear_nonneg (x : Q) : 0 <= x -> x <= 1 -> 0 <= LinearEasing x.
Proof. intros H _. exact H. Defined.

Lemma linear_at_1 (x : Q) : x == 1 -> LinearEasing x == 1.
Proof. intro H. exact H. Defined.

Lemma five_picker_in_range : in_range five_picker.
Proof. split; vm_compute; discriminate. Defined.

Lemma C3_witness :
  _isExternalForceActive dragging_aligned_picker = true
  /\ selects (_onWheelStable dragging_aligned_picker) = []
  /\ selects (state_of (_animatePhysics LinearEasing LinearEasing 32
                                        dragging_aligned_picker)) = []
  /\ _animatePhysics LinearEasing LinearEasing 32 dragging_aligned_picker
     = Returned (_onWheelStable (set_pendingScroll 0 dragging_aligned_picker)).
Proof.
  destruct (C3_no_select_under_external_force LinearEasing LinearEasing 32
              dragging_aligned_picker eq_refl) as (H1 & H2 & _ & H4).
  split; [reflexivity|]. split; [exact H1|]. split; [exact H2|].
  apply (H4 16).
  - reflexivity.
  - vm_compute. discriminate.
  - reflexivity.
Defined.

Lemma C6_witness :
  0 <= scrollOffset arrow_down_bootstrapped
  /\ exists s', _animatePhysics LinearEasing LinearEasing 32 arrow_down_bootstrapped
                = Returned s'.
Proof.
  assert (Hr : in_range arrow_down_bootstrapped)
    by (split; vm_compute; discriminate).
  destruct (C6_range_error_unreachable LinearEasing LinearEasing 32
              arrow_down_bootstrapped Hr) as (H1 & _ & H3 & _).
  split; [exact H1|exact H3].
Defined.

Lemma C7_witness :
  _currentScroll (_stabilizeWheel off_boundary_picker) = 30
  /\ (exists k : Z,
        _currentScroll (_stabilizeWheel off_boundary_picker)
        + _pendingScroll (_stabilizeWheel off_boundary_picker)
        == ITEM_HEIGHT * inject_Z k)
  /\ Qabs (_pendingScroll (_stabilizeWheel off_boundary_picker)) <= ITEM_HEIGHT / 2.
Proof.
  assert (H0 : 0 <= _currentScroll off_boundary_picker)
    by (vm_compute; discriminate).
  exact (C7_stabilization_pulse off_boundary_picker H0).
Defined.

Lemma C8_witness :
  _pendingScroll
    (state_of (_animatePhysics LinearEasing LinearEasing 32 arrow_down_bootstrapped))
  = _pendingScroll arrow_down_bootstrapped
    - dx_limited LinearEasing LinearEasing (32 - 16) arrow_down_bootstrapped
  /\ Qabs (dx_limited LinearEasing LinearEasing (32 - 16) arrow_down_bootstrapped)
     <= Qabs (_pendingScroll arrow_down_bootstrapped).
Proof.
  assert (HD : 0 < animationDuration arrow_down_bootstrapped) by reflexivity.
  assert (Hc : 0 <= _currentScroll arrow_down_bootstrapped)
    by (vm_compute; discriminate).
  assert (Hnz : ~ 16 == 0) by (vm_compute; discriminate).
  assert (Hnow : 16 <= 32) by (vm_compute; discriminate).
  destruct (C8_increment_does_not_overshoot LinearEasing LinearEasing
              linear_monotone linear_nonneg 32 16 arrow_down_bootstrapped
              HD Hc eq_refl Hnz Hnow eq_refl) as (H1 & H2 & _).
  split; [exact H1|exact H2].
Defined.

Lemma C10_witness :
  _pendingScroll (_onWheelHandler (inject_Z 5) five_picker)
  == _pendingScroll five_picker
  /\ _pendingScroll (_onWheelHandler (inject_Z (-5)) five_picker)
     == _pendingScroll five_picker - ITEM_HEIGHT.
Proof.
  split.
  - apply (C10_integer_wheel_delta five_picker 5). lia.
  - apply (C10_integer_wheel_delta five_picker (-5)). lia.
Defined.

(** * Further properties of the component

    ** Settling twice *)

Lemma same_item_refl (a : option Item) : same_item a a = true.
Proof. destruct a as [x|]; [apply String.eqb_refl|reflexivity]. Qed.

(** X1.  A settle repeated is the settle: the second call finds the item
    remembered, the loop stopped and nothing pending, so it changes no
    field and dispatches nothing more. *)
Theorem X1_settle_is_idempotent (s : Picker) :
  _onWheelStable (_onWheelStable s) = _onWheelStable s
  /\ selects (_onWheelStable (_onWheelStable s)) = selects (_onWheelStable s).
Proof.
  assert (H : _onWheelStable (_onWheelStable s) = _onWheelStable s).
  { unfold _onWheelStable, _selectedIndex, _stopAnimation, cancelAnimationFrame,
      dispatchSelect.
    destruct (_isExternalForceActive s) eqn:Hf; cbn [negb andb]; fields.
    - destruct (_animating s) eqn:Ha;
        do 3 (fields; rewrite ?Hf, ?Ha; cbn [negb andb]); reflexivity.
    - destruct (same_item (_selectedItem s)
                  (item_at (items s) (JS.round (_currentScroll s / ITEM_HEIGHT))))
        eqn:Hs; cbn [negb]; fields.
      + destruct (_animating s) eqn:Ha;
          do 3 (fields; rewrite ?Hf, ?Ha, ?Hs; cbn [negb andb]); reflexivity.
      + destruct (_animating s) eqn:Ha;
          do 3 (fields; rewrite ?Hf, ?Ha, ?same_item_refl; cbn [negb andb]);
          reflexivity. }
  split; [exact H|]. rewrite H. reflexivity.
Qed.

(** ** What a frame step dispatches *)

Section FrameDispatch.

Variables easingFunction inverseEasingFunction : Q -> Q.

Local Abbreviation frame := (_animatePhysics easingFunction inverseEasingFunction).

(** X2.  A frame step dispatches at most one "select" event.  When it
    dispatches one, the event carries the item at the index the scroll
    position resolves to, no external force is active, and the step has
    stopped the loop: nothing is pending and no timestamp is kept. *)
Theorem X2_frame_dispatches_at_most_once (now : Q) (s : Picker) :
  selects (state_of (frame now s)) = selects s
  \/ (selects (state_of (frame now s))
      = selects s ++ [item_at (items s) (_selectedIndex s)]
      /\ _isExternalForceActive s = false
      /\ _selectedItem (state_of (frame now s)) = item_at (items s) (_selectedIndex s)
      /\ _pendingScroll (state_of (frame now s)) = 0
      /\ _lastTimestamp (state_of (frame now s)) = None).
Proof.
  unfold _animatePhysics.
  destruct (_lastTimestamp s) as [last|]; [|left; reflexivity].
  destruct (negb (JS.eq last 0)); [|left; reflexivity].
  destruct (sentinel_cases s) as [E|E]; rewrite E; clear E.
  - destruct (approxEq (_pendingScroll s) 0) eqn:Hp.
    + unfold _isWheelStable. rewrite Hp. fields.
      destruct (approxEq (JS.rem (_currentScroll s) ITEM_HEIGHT) 0
                || _isExternalForceActive s).
      * cbn [state_of].
        destruct (onWheelStable_selects (set_pendingScroll 0 s))
          as [[H _]|(H1 & H2 & H3 & _)].
        -- left. exact H.
        -- right. destruct (onWheelStable_scroll (set_pendingScroll 0 s)) as [Hp0 _].
           repeat split; try assumption.
           unfold _onWheelStable, _stopAnimation, cancelAnimationFrame.
           split_fields; reflexivity.
      * left. cbn [state_of].
        unfold _stabilizeWheel, _startPhysicsAnimation, reschedule, requestAnimationFrame.
        split_fields; reflexivity.
    + destruct (JS.lt (scrollOffset s) 0); [left; reflexivity|].
      left. cbn [state_of].
      unfold animate_scroll, reschedule, requestAnimationFrame.
      split_fields; reflexivity.
  - change (approxEq (_pendingScroll (set_pendingScroll 0 s)) 0) with true.
    cbv iota. unfold _isWheelStable.
    change (approxEq (_pendingScroll (set_pendingScroll 0 s)) 0) with true.
    cbv iota. fields.
    destruct (approxEq (JS.rem (_currentScroll s) ITEM_HEIGHT) 0
              || _isExternalForceActive s).
    + cbn [state_of].
      destruct (onWheelStable_selects (set_pendingScroll 0 (set_pendingScroll 0 s)))
        as [[H _]|(H1 & H2 & H3 & _)].
      * left. exact H.
      * right.
        destruct (onWheelStable_scroll (set_pendingScroll 0 (set_pendingScroll 0 s)))
          as [Hp0 _].
        repeat split; try assumption.
        unfold _onWheelStable, _stopAnimation, cancelAnimationFrame.
        split_fields; reflexivity.
    + left. cbn [state_of].
      unfold _stabilizeWheel, _startPhysicsAnimation, reschedule, requestAnimationFrame.
      split_fields; reflexivity.
Qed.

End FrameDispatch.

(** ** Input that is not a click *)

Section Inputs.

Variables easingFunction inverseEasingFunction : Q -> Q.

Local Abbreviation deliver' := (deliver easingFunction inverseEasingFunction).
Local Abbreviation run' := (run easingFunction inverseEasingFunction).

Lemma input_quiet (e : Event) (s : Picker) :
  is_click e = false -> is_frame e = false ->
  _currentScroll (state_of (deliver' e s)) = _currentScroll s
  /\ selects (state_of (deliver' e s)) = selects s
  /\ _selectedItem (state_of (deliver' e s)) = _selectedItem s
  /\ items (state_of (deliver' e s)) = items s.
Proof.
  intros Hc Hf. destruct e; try discriminate; cbn [deliver state_of].
  - unfold _onWheelHandler, setTimeout, clearTimeout, _startPhysicsAnimation,
      requestAnimationFrame.
    split_fields; repeat split; reflexivity.
  - unfold _onTouchStart. split_fields; repeat split; reflexivity.
  - unfold _onTouchEnd, _startPhysicsAnimation, requestAnimationFrame.
    split_fields; repeat split; reflexivity.
  - unfold _onTouchMove, _startPhysicsAnimation, requestAnimationFrame.
    split_fields; repeat split; reflexivity.
  - unfold _onKeyDown, _startPhysicsAnimation, requestAnimationFrame.
    split_fields; repeat split; reflexivity.
  - unfold debounce_callback, clearTimeout, _isWheelStable, _stabilizeWheel,
      _startPhysicsAnimation, requestAnimationFrame.
    split_fields; repeat split; reflexivity.
Qed.

(** X3.  However many wheel, touch and key events and expiries of the
    debounce timer the picker is delivered, as long as no frame runs and
    no row is clicked the wheel does not move, no "select" event is
    dispatched, and the remembered selection and the item list are what
    they were: only frame steps and clicks change them. *)
Theorem X3_input_neither_moves_nor_dispatches (es : list Event) (s : Picker) :
  forallb (fun e => negb (is_click e || is_frame e)) es = true ->
  _currentScroll (run' es s) = _currentScroll s
  /\ selects (run' es s) = selects s
  /\ _selectedItem (run' es s) = _selectedItem s
  /\ items (run' es s) = items s.
Proof.
  revert s. induction es as [|e es IH]; intros s Hes.
  - repeat split; reflexivity.
  - cbn [forallb] in Hes. apply andb_true_iff in Hes. destruct Hes as [He Hes].
    apply negb_true_iff, orb_false_iff in He. destruct He as [Hc Hf].
    cbn [run]. destruct (IH (state_of (deliver' e s)) Hes) as (H1 & H2 & H3 & H4).
    destruct (input_quiet e s Hc Hf) as (G1 & G2 & G3 & G4).
    rewrite H1, H2, H3, H4. repeat split; assumption.
Qed.

(** *** Keys *)

(** X4.  Key presses add up: after any series of key-down events the
    pending displacement has grown by one item height for each ArrowDown
    and shrunk by one for each ArrowUp, whatever the order and whatever
    other keys were pressed in between. *)
Theorem X4_keys_add_up (keys : list string) (s : Picker) :
  _pendingScroll (run' (map KeyDown keys) s)
  == _pendingScroll s
     + ITEM_HEIGHT * inject_Z (presses "ArrowDown" keys - presses "ArrowUp" keys).
Proof.
  revert s. induction keys as [|k keys IH]; intro s.
  - cbn [map run]. unfold presses. cbn [count_occ].
    change (inject_Z (Z.of_nat 0 - Z.of_nat 0)) with 0. ring.
  - cbn [map run deliver state_of]. rewrite IH. unfold presses. cbn [count_occ].
    unfold _onKeyDown.
    destruct (string_dec k "ArrowDown") as [Ed|Ed];
      destruct (string_dec k "ArrowUp") as [Eu|Eu].
    + subst k. discriminate Eu.
    + subst k. cbn [String.eqb Ascii.eqb Bool.eqb andb].
      rewrite pendingScroll_start. fields.
      rewrite Nat2Z.inj_succ. unfold Z.succ, Z.sub.
      rewrite !inject_Z_plus, inject_Z_opp. change (inject_Z 1) with 1. ring.
    + subst k. cbn [String.eqb Ascii.eqb Bool.eqb andb].
      rewrite pendingScroll_start. fields.
      rewrite Nat2Z.inj_succ. unfold Z.succ, Z.sub.
      rewrite !inject_Z_plus, !inject_Z_opp, inject_Z_plus.
      change (inject_Z 1) with 1. ring.
    + apply String.eqb_neq in Ed. apply String.eqb_neq in Eu.
      rewrite Ed, Eu. reflexivity.
Qed.

End Inputs.

(** ** Touch *)

Lemma find_touch_identifier (id : Z) (ts : list Touch) (t : Touch) :
  find_touch id ts = Some t -> identifier t = id.
Proof.
  unfold find_touch. intro H. apply find_some in H. destruct H as [_ H].
  apply Z.eqb_eq in H. exact H.
Qed.

Lemma find_touch_none (id : Z) (ts : list Touch) :
  Forall (fun t => identifier t <> id) ts -> find_touch id ts = None.
Proof.
  unfold find_touch. induction 1 as [|t ts Ht _ IH]; [reflexivity|].
  cbn [find]. apply Z.eqb_neq in Ht. rewrite Ht. exact IH.
Qed.

Lemma follow_identifier (t : Touch) (moves : list (list Touch)) :
  identifier (follow t moves) = identifier t.
Proof.
  revert t. induction moves as [|m moves IH]; intro t; [reflexivity|].
  cbn [follow]. destruct (find_touch (identifier t) m) as [u|] eqn:E.
  - rewrite IH. apply (find_touch_identifier _ m). exact E.
  - apply IH.
Qed.

Section Touches.

Variables easingFunction inverseEasingFunction : Q -> Q.

Local Abbreviation run' := (run easingFunction inverseEasingFunction).

Lemma moves_follow (moves : list (list Touch)) (t : Touch) (s : Picker) :
  trackedTouch s = Some t ->
  trackedTouch (run' (map TouchMove moves) s) = Some (follow t moves)
  /\ _pendingScroll (run' (map TouchMove moves) s)
     == _pendingScroll s + (screenY t - screenY (follow t moves))
  /\ _isExternalForceActive (run' (map TouchMove moves) s) = _isExternalForceActive s
  /\ _currentScroll (run' (map TouchMove moves) s) = _currentScroll s.
Proof.
  revert t s. induction moves as [|m moves IH]; intros t s Ht.
  - cbn [map run follow]. repeat split; try assumption. ring.
  - cbn [map run deliver state_of follow]. unfold _onTouchMove. rewrite Ht.
    destruct (find_touch (identifier t) m) as [u|] eqn:E.
    + destruct (IH u (set_trackedTouch (Some u)
                        (_startPhysicsAnimation
                           (set_pendingScroll
                              (_pendingScroll s + (screenY t - screenY u)) s))))
        as (H1 & H2 & H3 & H4); [reflexivity|].
      rewrite H1, H2, H3, H4. fields. rewrite pendingScroll_start.
      unfold _startPhysicsAnimation, requestAnimationFrame.
      split_fields; repeat split; try reflexivity; ring.
    + apply IH. exact Ht.
Qed.

(** X5.  A drag adds to the pending displacement the finger's position at
    touch start minus its latest position, whatever the moves in between;
    moves that do not carry the tracked finger count for nothing.  While
    it lasts the external force is active and the wheel is where it was;
    the touch end of the tracked finger clears the force and the tracking
    and leaves the displacement pending. *)
Theorem X5_drag_adds_the_finger_travel
        (start : Touch) (others : list Touch) (moves : list (list Touch))
        (ended : list Touch) (u : Touch) (s : Picker) :
  trackedTouch s = None ->
  find_touch (identifier start) ended = Some u ->
  let dragged := run' (TouchStart (start :: others) :: map TouchMove moves) s in
  let released := run' [TouchEnd ended] dragged in
  trackedTouch dragged = Some (follow start moves)
  /\ _isExternalForceActive dragged = true
  /\ _currentScroll dragged = _currentScroll s
  /\ _pendingScroll dragged
     == _pendingScroll s + (screenY start - screenY (follow start moves))
  /\ trackedTouch released = None
  /\ _isExternalForceActive released = false
  /\ _pendingScroll released = _pendingScroll dragged.
Proof.
  intros Hnone Hend dragged released.
  assert (Hstart : _onTouchStart (start :: others) s
                   = set_isExternalForceActive true (set_trackedTouch (Some start) s)).
  { unfold _onTouchStart. rewrite Hnone. reflexivity. }
  destruct (moves_follow moves start
              (set_isExternalForceActive true (set_trackedTouch (Some start) s))
              eq_refl) as (H1 & H2 & H3 & H4).
  assert (Hd : dragged
               = run' (map TouchMove moves)
                      (set_isExternalForceActive true
                         (set_trackedTouch (Some start) s))).
  { unfold dragged. cbn [run deliver state_of]. rewrite Hstart. reflexivity. }
  split; [rewrite Hd; exact H1|].
  split; [rewrite Hd; exact H3|].
  split; [rewrite Hd; exact H4|].
  split; [rewrite Hd; exact H2|].
  unfold released. cbn [run deliver state_of]. unfold _onTouchEnd.
  assert (Ht : trackedTouch dragged = Some (follow start moves))
    by (rewrite Hd; exact H1).
  rewrite Ht, follow_identifier, Hend.
  unfold _startPhysicsAnimation, requestAnimationFrame.
  split_fields; repeat split; reflexivity.
Qed.

End Touches.

(** X6.  One finger at a time: while a touch is tracked, a further touch
    start changes nothing, and neither does a touch move or a touch end
    that does not carry the tracked identifier; with no touch tracked,
    touch moves and touch ends change nothing either. *)
Theorem X6_other_fingers_are_ignored (ts : list Touch) (s : Picker) :
  (forall t, trackedTouch s = Some t -> _onTouchStart ts s = s)
  /\ (forall t, trackedTouch s = Some t ->
                Forall (fun u => identifier u <> identifier t) ts ->
                _onTouchMove ts s = s /\ _onTouchEnd ts s = s)
  /\ (trackedTouch s = None -> _onTouchMove ts s = s /\ _onTouchEnd ts s = s).
Proof.
  split; [|split].
  - intros t Ht. unfold _onTouchStart. rewrite Ht. reflexivity.
  - intros t Ht Hall. unfold _onTouchMove, _onTouchEnd.
    rewrite Ht, (find_touch_none _ _ Hall). split; reflexivity.
  - intro Ht. unfold _onTouchMove, _onTouchEnd. rewrite Ht. split; reflexivity.
Qed.

(** ** Clicks *)

(** X7.  A click on the row laid out [k] item heights below the leading
    whitespace aims the wheel at that row, on top of what was pending
    already: afterwards position plus pending displacement is [24 k] plus
    the displacement pending before, and the clicked value has been
    dispatched.  The displacement is added at each click: a second click
    on the same row before a frame has run adds the distance to the row
    once more, and dispatches the value once more. *)
Theorem X7_click_aims_at_the_row
        (v : Item) (k : nat) (offsetTop whitespaceTop whitespaceHeight : Q)
        (s : Picker) :
  offsetTop == whitespaceTop + whitespaceHeight + ITEM_HEIGHT * inject_Z (Z.of_nat k) ->
  _currentScroll (_onItemClick v offsetTop whitespaceTop whitespaceHeight s)
  = _currentScroll s
  /\ _currentScroll s
     + _pendingScroll (_onItemClick v offsetTop whitespaceTop whitespaceHeight s)
     == ITEM_HEIGHT * inject_Z (Z.of_nat k) + _pendingScroll s
  /\ selects (_onItemClick v offsetTop whitespaceTop whitespaceHeight s)
     = selects s ++ [Some v]
  /\ _currentScroll s
     + _pendingScroll
         (_onItemClick v offsetTop whitespaceTop whitespaceHeight
            (_onItemClick v offsetTop whitespaceTop whitespaceHeight s))
     == ITEM_HEIGHT * inject_Z (Z.of_nat k) + _pendingScroll s
        + (ITEM_HEIGHT * inject_Z (Z.of_nat k) - _currentScroll s)
  /\ selects (_onItemClick v offsetTop whitespaceTop whitespaceHeight
                (_onItemClick v offsetTop whitespaceTop whitespaceHeight s))
     = selects s ++ [Some v; Some v].
Proof.
  intro Hlayout.
  assert (Hone : forall t,
             _currentScroll (_onItemClick v offsetTop whitespaceTop whitespaceHeight t)
             = _currentScroll t
             /\ _pendingScroll (_onItemClick v offsetTop whitespaceTop whitespaceHeight t)
                = _pendingScroll t
                  + (offsetTop - (_currentScroll t + whitespaceTop + whitespaceHeight))
             /\ selects (_onItemClick v offsetTop whitespaceTop whitespaceHeight t)
                = selects t ++ [Some v]).
  { intro t. unfold _onItemClick, dispatchSelect, _startPhysicsAnimation,
      requestAnimationFrame.
    fields. destruct (_animating t); repeat split; reflexivity. }
  destruct (Hone s) as (Hc1 & Hp1 & Hs1).
  destruct (Hone (_onItemClick v offsetTop whitespaceTop whitespaceHeight s))
    as (_ & Hp2 & Hs2).
  split; [exact Hc1|]. split; [rewrite Hp1; lra|]. split; [exact Hs1|].
  split.
  - rewrite Hp2, Hp1, Hc1. lra.
  - rewrite Hs2, Hs1, <- app_assoc. reflexivity.
Qed.

(** ** The wheel *)

(** X8.  The wheel handler takes [deltaY] for a notch of a mouse wheel
    exactly when it is an integer.  A [deltaY] that is no integer is added
    as it is, raises the external force and arms the debounce timer, which
    replaces the one that was armed; an integer [deltaY] neither raises
    the force nor touches the timer. *)
Theorem X8_wheel_tells_trackpad_from_notch (deltaY : Q) (s : Picker) :
  timer_owned s ->
  ((~ exists z : Z, deltaY == inject_Z z) ->
   _pendingScroll (_onWheelHandler deltaY s) = _pendingScroll s + deltaY
   /\ _isExternalForceActive (_onWheelHandler deltaY s) = true
   /\ _debounceTimer (_onWheelHandler deltaY s) = Some (fresh s)
   /\ timers (_onWheelHandler deltaY s) = [fresh s])
  /\ ((exists z : Z, deltaY == inject_Z z) ->
      _isExternalForceActive (_onWheelHandler deltaY s) = _isExternalForceActive s
      /\ _debounceTimer (_onWheelHandler deltaY s) = _debounceTimer s
      /\ timers (_onWheelHandler deltaY s) = timers s).
Proof.
  intro Hown. unfold timer_owned in Hown. split.
  - intro Hfrac.
    assert (E : JS.eq deltaY (inject_Z (JS.round deltaY)) = false).
    { apply JSFacts.eq_false. intro H. apply Hfrac. eexists. exact H. }
    unfold _onWheelHandler, setTimeout, clearTimeout, _startPhysicsAnimation,
      requestAnimationFrame.
    rewrite E. cbn [negb]. fields.
    destruct (_debounceTimer s) as [h|]; fields; rewrite Hown.
    + rewrite remove_single. destruct (_animating s); repeat split; reflexivity.
    + destruct (_animating s); repeat split; reflexivity.
  - intros [z Hz].
    assert (E : JS.eq deltaY (inject_Z (JS.round deltaY)) = true).
    { apply JSFacts.eq_spec. rewrite (round_compat _ _ Hz), round_inject_Z. exact Hz. }
    unfold _onWheelHandler, _startPhysicsAnimation, requestAnimationFrame.
    rewrite E. cbn [negb]. fields.
    destruct (_animating s); repeat split; reflexivity.
Qed.

Section DebounceTimer.

Variables easingFunction inverseEasingFunction : Q -> Q.

(** X9.  Whatever events the picker has been delivered since its
    construction, at most one debounce timer is pending, and it is the
    one [_debounceTimer] names. *)
Theorem X9_one_debounce_timer (its : list Item) (duration : Q) (es : list Event) :
  timer_owned (run easingFunction inverseEasingFunction es (constructed its duration))
  /\ (List.length
        (timers (run easingFunction inverseEasingFunction es
                     (constructed its duration))) <= 1)%nat.
Proof.
  assert (H : timer_owned (run easingFunction inverseEasingFunction es
                               (constructed its duration))).
  { apply run_timer_owned. reflexivity. }
  split; [exact H|]. unfold timer_owned in H. rewrite H.
  destruct (_debounceTimer _); cbn; lia.
Qed.

End DebounceTimer.

(** The pulse of [_stabilizeWheel] on a position that is not negative. *)
Lemma stabilize_pulse (s : Picker) :
  0 <= _currentScroll s ->
  exists k : Z,
    _pendingScroll (_stabilizeWheel s)
    == ITEM_HEIGHT * inject_Z k - _currentScroll s
    /\ - (12) <= _pendingScroll (_stabilizeWheel s) <= 12.
Proof.
  intro Hcur.
  destruct (JSFacts.rem_nonneg (_currentScroll s) ITEM_HEIGHT Hcur)
    as (Hlo & Hhi & Hrem & _); [reflexivity|].
  pose proof half_item as Hhalf.
  unfold _stabilizeWheel. rewrite pendingScroll_start.
  destruct (JS.lt (ITEM_HEIGHT / 2) (JS.rem (_currentScroll s) ITEM_HEIGHT)) eqn:Half;
    fields.
  - apply JSFacts.lt_spec in Half. rewrite Hhalf in Half.
    exists (Qfloor (_currentScroll s / ITEM_HEIGHT) + 1)%Z. split.
    + rewrite Hrem, inject_Z_plus. change (inject_Z 1) with 1. ring.
    + unfold ITEM_HEIGHT in *. lra.
  - apply JSFacts.lt_false in Half. rewrite Hhalf in Half.
    exists (Qfloor (_currentScroll s / ITEM_HEIGHT)). split.
    + rewrite Hrem. ring.
    + unfold ITEM_HEIGHT in *. lra.
Qed.

(** X10.  When the debounce timer expires the external force is cleared
    and the wheel is sent to the nearer item boundary, whatever was
    pending: on a position that is not negative the pending displacement
    left is at most half an item height in size, and position plus
    pending displacement is within [EFFECTIVELY_ZERO] of a multiple of the
    item height. *)
Theorem X10_debounce_sends_wheel_to_boundary (s : Picker) :
  0 <= _currentScroll s ->
  _isExternalForceActive (debounce_callback s) = false
  /\ _debounceTimer (debounce_callback s) = None
  /\ _currentScroll (debounce_callback s) = _currentScroll s
  /\ Qabs (_pendingScroll (debounce_callback s)) <= ITEM_HEIGHT / 2
  /\ exists k : Z,
       Qabs (_currentScroll s + _pendingScroll (debounce_callback s)
             - ITEM_HEIGHT * inject_Z k) <= EFFECTIVELY_ZERO.
Proof.
  intro Hcur. pose proof half_item as Hhalf.
  set (t := set_debounceTimer None (set_isExternalForceActive false s)).
  assert (Hpulse : _isExternalForceActive (_stabilizeWheel t) = false
                   /\ _debounceTimer (_stabilizeWheel t) = None
                   /\ _currentScroll (_stabilizeWheel t) = _currentScroll s
                   /\ Qabs (_pendingScroll (_stabilizeWheel t)) <= ITEM_HEIGHT / 2
                   /\ exists k : Z,
                        Qabs (_currentScroll s + _pendingScroll (_stabilizeWheel t)
                              - ITEM_HEIGHT * inject_Z k) <= EFFECTIVELY_ZERO).
  { destruct (stabilize_pulse t Hcur) as (k & Hk & Hb).
    change (_currentScroll t) with (_currentScroll s) in Hk.
    split; [|split; [|split; [|split]]].
    - unfold _stabilizeWheel, _startPhysicsAnimation, requestAnimationFrame.
      split_fields; reflexivity.
    - unfold _stabilizeWheel, _startPhysicsAnimation, requestAnimationFrame.
      split_fields; reflexivity.
    - unfold _stabilizeWheel, _startPhysicsAnimation, requestAnimationFrame.
      split_fields; reflexivity.
    - rewrite Hhalf. apply Qabs_Qle_condition. lra.
    - exists k. apply Qabs_Qle_condition. unfold EFFECTIVELY_ZERO. lra. }
  unfold debounce_callback. fold t. unfold _isWheelStable.
  destruct (approxEq (_pendingScroll t) 0) eqn:Hp; fields; [|exact Hpulse].
  change (_isExternalForceActive t) with false. rewrite orb_false_r.
  change (_currentScroll t) with (_currentScroll s).
  destruct (approxEq (JS.rem (_currentScroll s) ITEM_HEIGHT) 0) eqn:Hr.
  - fields. repeat split.
    + rewrite Hhalf. apply Qabs_Qle_condition. lra.
    + destruct (JSFacts.rem_nonneg (_currentScroll s) ITEM_HEIGHT Hcur)
        as (Hlo & Hhi & Hrem & _); [reflexivity|].
      apply approxEq_zero in Hr. rewrite Hrem in Hr.
      exists (Qfloor (_currentScroll s / ITEM_HEIGHT)).
      apply Qabs_Qle_condition. lra.
  - assert (E : _stabilizeWheel (set_pendingScroll 0 t)
                = _stabilizeWheel t).
    { unfold _stabilizeWheel. fields.
      destruct (JS.lt (ITEM_HEIGHT / 2) (JS.rem (_currentScroll t) ITEM_HEIGHT));
        unfold _startPhysicsAnimation, requestAnimationFrame; fields;
        destruct (_animating t); reflexivity. }
    rewrite E. exact Hpulse.
Qed.

(** ** A pending displacement is never left without a frame *)

Lemma start_scheduled (t : Picker) :
  (forall h, _animating t = Some h -> In h (frames t)) ->
  scheduled (_startPhysicsAnimation t) /\ frames (_startPhysicsAnimation t) <> [].
Proof.
  intro H. unfold scheduled, _startPhysicsAnimation, requestAnimationFrame.
  destruct (_animating t) as [h|] eqn:Ha; fields.
  - assert (Hne : frames t <> []).
    { intro E. specialize (H h eq_refl). rewrite E in H. exact H. }
    repeat split; try assumption.
    + rewrite Ha. exact H.
    + intros _. exact Hne.
  - repeat split.
    + rewrite Ha. intros h E. discriminate E.
    + intros _ E. apply app_eq_nil in E. destruct E as [_ E]. discriminate E.
    + intro E. apply app_eq_nil in E. destruct E as [_ E]. discriminate E.
Qed.

Lemma reschedule_scheduled (now : Q) (t : Picker) : scheduled (reschedule now t).
Proof.
  unfold scheduled, reschedule, requestAnimationFrame. fields. split.
  - intros h E. injection E as <-. apply in_or_app. right. left. reflexivity.
  - intros _ E. apply app_eq_nil in E. destruct E as [_ E]. discriminate E.
Qed.

Lemma onWheelStable_animating (t : Picker) : _animating (_onWheelStable t) = None.
Proof.
  unfold _onWheelStable, _stopAnimation, cancelAnimationFrame, dispatchSelect.
  destruct (negb (_isExternalForceActive t)
            && negb (same_item (_selectedItem t)
                               (item_at (items t) (_selectedIndex t))));
    fields; destruct (_animating t) eqn:Ha; fields; try rewrite Ha; reflexivity.
Qed.

Lemma onWheelStable_scheduled (t : Picker) : scheduled (_onWheelStable t).
Proof.
  unfold scheduled. split.
  - rewrite onWheelStable_animating. intros h E. discriminate E.
  - destruct (onWheelStable_scroll t) as [Hp _]. rewrite Hp.
    intro H. exfalso. apply H. reflexivity.
Qed.

Section Scheduled.

Variables easingFunction inverseEasingFunction : Q -> Q.

Local Abbreviation frame := (_animatePhysics easingFunction inverseEasingFunction).

Lemma frame_scheduled (now : Q) (s : Picker) :
  0 <= _currentScroll s -> scheduled (state_of (frame now s)).
Proof.
  intro Hcur. unfold _animatePhysics.
  destruct (_lastTimestamp s) as [last|]; [|apply reschedule_scheduled].
  destruct (negb (JS.eq last 0)); [|apply reschedule_scheduled].
  destruct (approxEq (_pendingScroll (sentinel s)) 0).
  - destruct (_isWheelStable (sentinel s)) as [[|] t]; cbn [state_of].
    + apply onWheelStable_scheduled.
    + apply reschedule_scheduled.
  - assert (Hcs : _currentScroll (sentinel s) = _currentScroll s).
    { unfold sentinel. break_branch; reflexivity. }
    assert (Hoff : JS.lt (scrollOffset (sentinel s)) 0 = false).
    { apply JSFacts.lt_false. apply scrollOffset_nonneg. rewrite Hcs. exact Hcur. }
    rewrite Hoff. apply reschedule_scheduled.
Qed.

Lemma scheduled_same (s t : Picker) :
  _animating t = _animating s -> frames t = frames s ->
  _pendingScroll t = _pendingScroll s -> scheduled s -> scheduled t.
Proof. unfold scheduled. intros -> -> ->. tauto. Qed.

Lemma deliver_scheduled (e : Event) (s : Picker) :
  0 <= _currentScroll s -> scheduled s ->
  scheduled (state_of (deliver easingFunction inverseEasingFunction e s)).
Proof.
  intros Hcur Hs. pose proof Hs as [Hreg Hpend].
  destruct e; cbn [deliver state_of].
  - unfold _onWheelHandler, setTimeout, clearTimeout.
    destruct (negb (JS.eq deltaY (inject_Z (JS.round deltaY)))); fields.
    + apply start_scheduled. destruct (_debounceTimer s); fields; exact Hreg.
    + apply start_scheduled. exact Hreg.
  - unfold _onTouchStart. destruct (trackedTouch s); [exact Hs|].
    apply (scheduled_same s); try reflexivity. exact Hs.
  - unfold _onTouchEnd. destruct (trackedTouch s) as [tr|]; [|exact Hs].
    destruct (find_touch (identifier tr) changedTouches); [|exact Hs].
    apply start_scheduled. exact Hreg.
  - unfold _onTouchMove. destruct (trackedTouch s) as [tr|]; [|exact Hs].
    destruct (find_touch (identifier tr) changedTouches) as [u|]; [|exact Hs].
    match goal with
    | |- scheduled (set_trackedTouch _ ?t) => apply (scheduled_same t)
    end; try reflexivity.
    apply start_scheduled. fields. exact Hreg.
  - unfold _onKeyDown.
    destruct (key =? "ArrowUp")%string; [apply start_scheduled; exact Hreg|].
    destruct (key =? "ArrowDown")%string; [apply start_scheduled; exact Hreg|].
    exact Hs.
  - unfold _onItemClick, dispatchSelect.
    match goal with
    | |- scheduled (set_selects _ ?t) => apply (scheduled_same t)
    end; try reflexivity.
    apply start_scheduled. fields. exact Hreg.
  - destruct (mem h (frames s)); [|exact Hs].
    apply frame_scheduled. exact Hcur.
  - destruct (mem h (timers s)); [|exact Hs].
    unfold debounce_callback, clearTimeout, _isWheelStable. fields.
    destruct (approxEq (_pendingScroll s) 0); fields.
    + destruct (approxEq (JS.rem (_currentScroll s) ITEM_HEIGHT) 0 || false).
      * split; fields; [exact Hreg|]. intro H. exfalso. apply H. reflexivity.
      * unfold _stabilizeWheel. apply start_scheduled.
        destruct (JS.lt _ _); fields; exact Hreg.
    + unfold _stabilizeWheel. apply start_scheduled.
      destruct (JS.lt _ _); fields; exact Hreg.
Qed.

(** X11.  From a picker in the range with its frames in order, every
    sequence of events keeps them in order: whenever a displacement is
    pending a frame callback is registered to work it off, and the handle
    in [_animating] is that of a registered callback. *)
Theorem X11_pending_displacement_has_a_frame (s0 : Picker) (es : list Event) :
  in_range s0 -> scheduled s0 ->
  scheduled (run easingFunction inverseEasingFunction es s0).
Proof.
  revert s0. induction es as [|e es IH]; intros s0 Hr Hs; cbn [run].
  - exact Hs.
  - apply IH.
    + apply deliver_in_range. exact Hr.
    + apply deliver_scheduled; [apply Hr|exact Hs].
Qed.

End Scheduled.

(** ** What a moving frame conserves *)

Lemma clamp_within (N y : Q) : 0 <= y -> y <= N -> JS.max 0 (JS.min N y) == y.
Proof.
  intros H0 HN.
  destruct (JSFacts.min_spec N y) as [[H1 ->]|[H1 ->]];
    [destruct (JSFacts.max_spec 0 N) as [[H2 ->]|[H2 ->]]
    |destruct (JSFacts.max_spec 0 y) as [[H2 ->]|[H2 ->]]]; lra.
Qed.

(** The snap of "animate scroll" moves a position by no more than
    [EFFECTIVELY_ZERO]. *)
Lemma snap_distance (dx : Q) (s : Picker) :
  0 <= _currentScroll s + dx <= ITEM_HEIGHT * items_length s ->
  Qabs (_currentScroll (animate_scroll dx s) - (_currentScroll s + dx))
  <= EFFECTIVELY_ZERO
  /\ _pendingScroll (animate_scroll dx s) = _pendingScroll s - dx.
Proof.
  intros [Hlo Hhi]. unfold animate_scroll. fields.
  pose proof (clamp_within _ _ Hlo Hhi) as Hx.
  set (x := JS.max 0 (JS.min (ITEM_HEIGHT * items_length s) (_currentScroll s + dx))) in *.
  destruct (approxEq x (inject_Z (JS.round x))) eqn:Hs; fields.
  - split; [|reflexivity]. pose proof (snap_close x Hs) as Hc.
    apply Qabs_Qle_condition. lra.
  - split; [|reflexivity]. apply Qabs_Qle_condition. unfold EFFECTIVELY_ZERO. lra.
Qed.

Section Conservation.

Variables easingFunction inverseEasingFunction : Q -> Q.

Local Abbreviation frame := (_animatePhysics easingFunction inverseEasingFunction).
Local Abbreviation limited := (dx_limited easingFunction inverseEasingFunction).

Lemma frame_settling_branch (now last : Q) (s : Picker) :
  _lastTimestamp s = Some last -> ~ last == 0 ->
  approxEq (_pendingScroll (sentinel s)) 0 = false ->
  0 <= _currentScroll s ->
  frame now s = Returned (reschedule now (animate_scroll (limited (now - last) s) s)).
Proof.
  intros Hlast Hnz Hp Hcur.
  pose proof (sentinel_settling s Hp) as Hsent. rewrite Hsent in Hp.
  unfold _animatePhysics. rewrite Hlast.
  apply JSFacts.eq_false in Hnz. rewrite Hnz. cbv beta iota zeta delta [negb].
  rewrite Hsent, Hp.
  assert (Hoff : JS.lt (scrollOffset s) 0 = false).
  { apply JSFacts.lt_false. apply scrollOffset_nonneg. exact Hcur. }
  rewrite Hoff. reflexivity.
Qed.

(** X12.  A frame step that moves the wheel takes from the pending
    displacement what it adds to the position: as long as the increment
    keeps the position within the range, the sum of position and pending
    displacement changes by no more than [EFFECTIVELY_ZERO], the reach of
    the snap to the nearest integer. *)
Theorem X12_frame_conserves_the_target (now last : Q) (s : Picker) :
  _lastTimestamp s = Some last -> ~ last == 0 ->
  approxEq (_pendingScroll (sentinel s)) 0 = false ->
  0 <= _currentScroll s + limited (now - last) s <= ITEM_HEIGHT * items_length s ->
  0 <= _currentScroll s ->
  Qabs (_currentScroll (state_of (frame now s)) + _pendingScroll (state_of (frame now s))
        - (_currentScroll s + _pendingScroll s))
  <= EFFECTIVELY_ZERO.
Proof.
  intros Hlast Hnz Hp Hy Hcur.
  rewrite (frame_settling_branch now last s Hlast Hnz Hp Hcur). cbn [state_of].
  destruct (snap_distance (limited (now - last) s) s Hy) as [Hc Hq].
  unfold reschedule, requestAnimationFrame. fields. rewrite Hq.
  apply Qabs_Qle_condition in Hc. apply Qabs_Qle_condition. lra.
Qed.

End Conservation.

(** ** Between the first and the last item *)

Lemma sentinel_scroll (s : Picker) :
  _currentScroll (sentinel s) = _currentScroll s /\ items (sentinel s) = items s.
Proof. unfold sentinel. break_branch; split; reflexivity. Qed.

Section WithinItems.

Variables easingFunction inverseEasingFunction : Q -> Q.

(** The contract of the two curves of [bezier] the bound relies on: the
    easing function does not decrease on the unit interval and is 1 at 1;
    the inverse maps the unit interval into itself and the easing function
    takes its values back. *)
Hypothesis easing_monotone :
  forall x y, 0 <= x -> x <= y -> y <= 1 -> easingFunction x <= easingFunction y.
Hypothesis easing_at_1 : forall x, x == 1 -> easingFunction x == 1.
Hypothesis inverse_range :
  forall x, 0 <= x -> x <= 1 -> 0 <= inverseEasingFunction x <= 1.
Hypothesis easing_inverse :
  forall x, 0 <= x -> x <= 1 -> easingFunction (inverseEasingFunction x) == x.

Local Abbreviation frame := (_animatePhysics easingFunction inverseEasingFunction).
Local Abbreviation limited := (dx_limited easingFunction inverseEasingFunction).
Local Abbreviation differential := (dx_differential easingFunction inverseEasingFunction).

Lemma inverse_nonneg' (x : Q) : 0 <= x -> x <= 1 -> 0 <= inverseEasingFunction x.
Proof. intros H0 H1. apply (inverse_range x H0 H1). Qed.

(** The differential distance does not reach past the next boundary. *)
Lemma differential_upper (delta : Q) (s : Picker) :
  0 < animationDuration s -> 0 <= _currentScroll s ->
  ~ _pendingScroll s == 0 -> 0 <= delta ->
  differential delta s <= ITEM_HEIGHT - scrollOffset s.
Proof.
  intros HD Hcur Hp Hdelta. unfold dx_differential, t_estimate.
  pose proof (shrunkenAnimationTime_pos s HD Hp) as HT.
  destruct (scrollOffset_range s Hcur) as [Ho1 Ho2].
  set (T := shrunkenAnimationTime s) in *.
  set (x := scrollOffset s / ITEM_HEIGHT).
  assert (Hx : 0 <= x /\ x <= 1).
  { unfold x, ITEM_HEIGHT in *. split.
    - apply Qle_shift_div_l; lra.
    - apply Qle_shift_div_r; lra. }
  destruct Hx as [Hx0 Hx1].
  assert (Hoff : scrollOffset s == x * ITEM_HEIGHT).
  { unfold x, ITEM_HEIGHT. field. }
  destruct (inverse_range x Hx0 Hx1) as [Hu0 Hu1].
  pose proof (easing_inverse x Hx0 Hx1) as Hinv.
  set (u := inverseEasingFunction x) in *.
  assert (Hb : u * T / T == u) by (field; lra).
  assert (Ha : (u * T + delta) / T == u + delta / T) by (field; lra).
  assert (Hd : 0 <= delta / T) by (apply Qle_shift_div_l; lra).
  assert (Hone : easingFunction 1 == 1) by (apply easing_at_1; reflexivity).
  assert (Hupper : easingFunction (JS.min 1 ((u * T + delta) / T)) <= 1).
  { destruct (JSFacts.min_spec 1 ((u * T + delta) / T)) as [[_ ->]|[F ->]].
    - lra.
    - rewrite <- Hone. apply easing_monotone; lra. }
  assert (Hlower : x <= easingFunction (JS.min 1 (u * T / T))).
  { destruct (JSFacts.min_spec 1 (u * T / T)) as [[_ ->]|[F ->]].
    - lra.
    - rewrite <- Hinv. apply easing_monotone; lra. }
  unfold ITEM_HEIGHT in *. lra.
Qed.

(** X13.  Under the contract of the two curves a frame step keeps the
    wheel between the boundaries of the first and of the last item: with
    a positive animation duration and a timestamp that is not before the
    last one, a position in [[0, ITEM_HEIGHT * (items.length - 1)]] stays
    there. *)
Theorem X13_frame_stays_within_the_items (now : Q) (s : Picker) :
  0 < animationDuration s ->
  (forall last, _lastTimestamp s = Some last -> last <= now) ->
  within_items s ->
  within_items (state_of (frame now s)).
Proof.
  intros HD Hclock [Hlo Hhi].
  assert (Hsame : forall t, _currentScroll t = _currentScroll s -> items t = items s ->
                            within_items t).
  { intros t Hc Hi. unfold within_items, items_length. rewrite Hc, Hi.
    split; assumption. }
  unfold _animatePhysics.
  destruct (_lastTimestamp s) as [last|] eqn:Hlast;
    [|apply Hsame; reflexivity].
  destruct (negb (JS.eq last 0)); [|apply Hsame; reflexivity].
  destruct (sentinel_scroll s) as [Hcs His].
  destruct (approxEq (_pendingScroll (sentinel s)) 0) eqn:Hp.
  - unfold _isWheelStable. rewrite Hp. fields.
    destruct (approxEq (JS.rem (_currentScroll (sentinel s)) ITEM_HEIGHT) 0
              || _isExternalForceActive (sentinel s)); cbn [state_of].
    + apply Hsame.
      * destruct (onWheelStable_scroll (set_pendingScroll 0 (sentinel s))) as [_ E].
        rewrite E. exact Hcs.
      * unfold _onWheelStable, _stopAnimation, cancelAnimationFrame, dispatchSelect.
        split_fields; exact His.
    + apply Hsame;
        unfold _stabilizeWheel, _startPhysicsAnimation, reschedule,
          requestAnimationFrame; split_fields; assumption.
  - pose proof (sentinel_settling s Hp) as Hsent. rewrite Hsent in *.
    assert (Hoff : JS.lt (scrollOffset s) 0 = false).
    { apply JSFacts.lt_false. apply scrollOffset_nonneg. exact Hlo. }
    rewrite Hoff. cbn [state_of].
    assert (Hp0 : ~ _pendingScroll s == 0).
    { intro E. apply approxEq_zero_false in Hp. unfold EFFECTIVELY_ZERO in Hp. lra. }
    assert (Hdelta : 0 <= now - last) by (specialize (Hclock last eq_refl); lra).
    pose proof (dx_limited_between easingFunction inverseEasingFunction
                  easing_monotone inverse_nonneg' (now - last) s HD Hlo Hp0 Hdelta)
      as Hdx.
    pose proof (differential_upper (now - last) s HD Hlo Hp0 Hdelta) as Hraw.
    set (dx := limited (now - last) s) in *.
    (* the increment does not carry the wheel past the last boundary *)
    assert (Hy : _currentScroll s + dx <= ITEM_HEIGHT * (items_length s - 1)).
    { destruct Hdx as [[Hpos [Hd0 Hd1]]|[Hneg [Hd0 Hd1]]]; [|lra].
      assert (Hnear : JS.le (ITEM_HEIGHT * (items_length s - 1)) (_currentScroll s)
                      = false).
      { destruct (JS.le (ITEM_HEIGHT * (items_length s - 1)) (_currentScroll s))
          eqn:E; [|reflexivity].
        exfalso. unfold sentinel in Hsent. rewrite E in Hsent.
        apply JSFacts.lt_spec in Hpos as Hb. rewrite Hb in Hsent.
        rewrite orb_true_r in Hsent.
        assert (Hq : _pendingScroll (set_pendingScroll 0 s) = _pendingScroll s)
          by (rewrite Hsent; reflexivity).
        cbn in Hq. rewrite <- Hq in Hpos. lra. }
      apply JSFacts.le_false in Hnear.
      assert (Hle : dx <= differential (now - last) s).
      { unfold dx, dx_limited. rewrite (sign_pos _ Hpos).
        destruct (JSFacts.min_spec (JS.abs (_pendingScroll s))
                    (differential (now - last) s)) as [[F ->]|[F ->]]; lra. }
      apply JSFacts.lt_spec in Hpos as Hb.
      unfold scrollOffset in Hraw. rewrite Hb in Hraw.
      destruct (JSFacts.rem_nonneg (ITEM_HEIGHT + _currentScroll s) ITEM_HEIGHT)
        as (_ & _ & Hrem & _); [unfold ITEM_HEIGHT; lra|reflexivity|].
      rewrite Hrem in Hraw.
      pose proof (Qfloor_le ((ITEM_HEIGHT + _currentScroll s) / ITEM_HEIGHT)) as Hfl.
      set (m := Qfloor ((ITEM_HEIGHT + _currentScroll s) / ITEM_HEIGHT)) in *.
      assert (Hdiv : (ITEM_HEIGHT + _currentScroll s) / ITEM_HEIGHT
                     < items_length s).
      { apply Qlt_shift_div_r; [reflexivity|]. unfold ITEM_HEIGHT in *. lra. }
      assert (Hm : inject_Z m <= items_length s - 1).
      { unfold items_length in *.
        assert (Hlt : inject_Z m < inject_Z (Z.of_nat (List.length (items s)))) by lra.
        rewrite <- Zlt_Qlt in Hlt.
        assert (Hz : (m <= Z.of_nat (List.length (items s)) - 1)%Z) by lia.
        rewrite Zle_Qle in Hz. unfold Z.sub in Hz.
        rewrite inject_Z_plus, inject_Z_opp in Hz.
        change (inject_Z 1) with 1 in Hz. lra. }
      unfold ITEM_HEIGHT in *. lra. }
    assert (Hbound : 0 <= ITEM_HEIGHT * (items_length s - 1)) by lra.
    unfold within_items, animate_scroll, reschedule, requestAnimationFrame. fields.
    set (N := ITEM_HEIGHT * items_length s) in *.
    set (x := JS.max 0 (JS.min N (_currentScroll s + dx))).
    assert (Hx : 0 <= x <= ITEM_HEIGHT * (items_length s - 1)).
    { unfold x.
      assert (HN : ITEM_HEIGHT * (items_length s - 1) <= N)
        by (unfold N, ITEM_HEIGHT; lra).
      destruct (JSFacts.min_spec N (_currentScroll s + dx)) as [[F ->]|[F ->]];
        [destruct (JSFacts.max_spec 0 N) as [[G ->]|[G ->]]
        |destruct (JSFacts.max_spec 0 (_currentScroll s + dx)) as [[G ->]|[G ->]]];
        lra. }
    assert (Hint : ITEM_HEIGHT * (items_length s - 1)
                   == inject_Z (24 * (Z.of_nat (List.length (items s)) - 1))).
    { unfold ITEM_HEIGHT, items_length, Z.sub.
      rewrite inject_Z_mult, inject_Z_plus. reflexivity. }
    destruct (approxEq x (inject_Z (JS.round x))); fields.
    + unfold items_length in *. rewrite Hint in *. apply round_in_range. exact Hx.
    + exact Hx.
Qed.

End WithinItems.

(** ** The item a position resolves to *)

Lemma item_at_nil (i : Z) : item_at [] i = None.
Proof.
  unfold item_at. destruct (i <? 0)%Z; [reflexivity|].
  destruct (Z.to_nat i); reflexivity.
Qed.

(** X14.  A position between the boundaries of the first and of the last
    item resolves to an item of the list.  The upper bound of the range
    the frame step clamps to, [ITEM_HEIGHT * items.length], does not: it
    resolves to the index one past the last item, where the list has
    nothing. *)
Theorem X14_position_resolves_to_an_item (s : Picker) :
  (within_items s ->
   exists v, item_at (items s) (_selectedIndex s) = Some v /\ In v (items s))
  /\ (_currentScroll s == ITEM_HEIGHT * items_length s ->
      item_at (items s) (_selectedIndex s) = None).
Proof.
  split.
  - intros [Hlo Hhi]. unfold _selectedIndex, items_length in *.
    set (n := Z.of_nat (List.length (items s))) in *.
    assert (Hq : 0 <= _currentScroll s / ITEM_HEIGHT <= inject_Z (n - 1)).
    { unfold Z.sub. rewrite inject_Z_plus, inject_Z_opp. change (inject_Z 1) with 1.
      unfold ITEM_HEIGHT in *. split.
      - apply Qle_shift_div_l; lra.
      - apply Qle_shift_div_r; lra. }
    apply round_in_range in Hq. destruct Hq as [H0 H1].
    change 0 with (inject_Z 0) in H0. rewrite <- Zle_Qle in H0, H1.
    set (i := JS.round (_currentScroll s / ITEM_HEIGHT)) in *.
    unfold item_at.
    assert (E : (i <? 0)%Z = false) by (apply Z.ltb_ge; exact H0).
    rewrite E.
    destruct (nth_error (items s) (Z.to_nat i)) as [v|] eqn:Hn.
    + exists v. split; [reflexivity|]. apply (nth_error_In _ _ Hn).
    + exfalso. apply nth_error_None in Hn. unfold n in H1. lia.
  - intro Hc. unfold _selectedIndex, items_length in *.
    assert (Hq : _currentScroll s / ITEM_HEIGHT
                 == inject_Z (Z.of_nat (List.length (items s)))).
    { rewrite Hc. unfold ITEM_HEIGHT. field. }
    rewrite (round_compat _ _ Hq), round_inject_Z.
    unfold item_at.
    assert (E : (Z.of_nat (List.length (items s)) <? 0)%Z = false)
      by (apply Z.ltb_ge; lia).
    rewrite E, Nat2Z.id. apply nth_error_None. apply Nat.le_refl.
Qed.

(** ** At and past the last item *)

Section LastItem.

Variables easingFunction inverseEasingFunction : Q -> Q.

Local Abbreviation frame := (_animatePhysics easingFunction inverseEasingFunction).

(** X15.  Once the wheel is on the boundary of the last item or past it,
    a frame step after the bootstrap frame drops a displacement pending
    downwards, however large: the wheel does not move, and what is
    pending afterwards is at most the half item height of a
    stabilization pulse. *)
Theorem X15_last_item_absorbs (now last : Q) (s : Picker) :
  _lastTimestamp s = Some last -> ~ last == 0 ->
  0 <= _currentScroll s ->
  ITEM_HEIGHT * (items_length s - 1) <= _currentScroll s ->
  0 < _pendingScroll s ->
  _currentScroll (state_of (frame now s)) = _currentScroll s
  /\ Qabs (_pendingScroll (state_of (frame now s))) <= ITEM_HEIGHT / 2.
Proof.
  intros Hlast Hnz Hlo Hpast Hpos. pose proof half_item as Hhalf.
  assert (Hsent : sentinel s = set_pendingScroll 0 s).
  { unfold sentinel. apply JSFacts.le_spec in Hpast. apply JSFacts.lt_spec in Hpos.
    rewrite Hpast, Hpos, orb_true_r. reflexivity. }
  unfold _animatePhysics. rewrite Hlast.
  apply JSFacts.eq_false in Hnz. rewrite Hnz. cbv beta iota zeta delta [negb].
  rewrite Hsent. change (approxEq (_pendingScroll (set_pendingScroll 0 s)) 0) with true.
  cbv iota. unfold _isWheelStable.
  change (approxEq (_pendingScroll (set_pendingScroll 0 s)) 0) with true.
  cbv iota. fields.
  destruct (approxEq (JS.rem (_currentScroll s) ITEM_HEIGHT) 0
            || _isExternalForceActive s); cbn [state_of].
  - destruct (onWheelStable_scroll (set_pendingScroll 0 (set_pendingScroll 0 s)))
      as [Hp Hc].
    rewrite Hp, Hc. split; [reflexivity|].
    rewrite Hhalf. apply Qabs_Qle_condition. lra.
  - set (t := set_pendingScroll 0 (set_pendingScroll 0 s)).
    destruct (stabilize_pulse t Hlo) as (k & _ & Hb).
    assert (Hc : _currentScroll (_stabilizeWheel t) = _currentScroll s).
    { unfold t, _stabilizeWheel, _startPhysicsAnimation, requestAnimationFrame.
      split_fields; reflexivity. }
    unfold reschedule, requestAnimationFrame. fields. split; [exact Hc|].
    rewrite Hhalf. apply Qabs_Qle_condition. lra.
Qed.

End LastItem.

(** ** The empty list *)

Section EmptyList.

Variables easingFunction inverseEasingFunction : Q -> Q.

Local Abbreviation frame := (_animatePhysics easingFunction inverseEasingFunction).

Lemma onWheelStable_nothing_to_select (t : Picker) :
  items t = [] -> _selectedItem t = None ->
  selects (_onWheelStable t) = selects t
  /\ _selectedItem (_onWheelStable t) = None
  /\ items (_onWheelStable t) = [].
Proof.
  intros Hi Hs. unfold _onWheelStable. rewrite Hi, Hs, item_at_nil.
  cbn [same_item negb]. rewrite andb_false_r.
  unfold _stopAnimation, cancelAnimationFrame.
  fields. destruct (_animating t); fields; repeat split; assumption.
Qed.

Lemma frame_nothing_to_select (now : Q) (s : Picker) :
  items s = [] -> _selectedItem s = None ->
  selects (state_of (frame now s)) = selects s
  /\ _selectedItem (state_of (frame now s)) = None
  /\ items (state_of (frame now s)) = [].
Proof.
  intros Hi Hs. unfold _animatePhysics.
  destruct (_lastTimestamp s) as [last|]; [|repeat split; assumption].
  destruct (negb (JS.eq last 0)); [|repeat split; assumption].
  assert (Hsent : items (sentinel s) = [] /\ _selectedItem (sentinel s) = None
                  /\ selects (sentinel s) = selects s).
  { unfold sentinel. break_branch; repeat split; assumption. }
  destruct Hsent as (Hi' & Hs' & Hd'). rewrite <- Hd'.
  destruct (approxEq (_pendingScroll (sentinel s)) 0) eqn:Hp.
  - unfold _isWheelStable. rewrite Hp. fields.
    destruct (approxEq (JS.rem (_currentScroll (sentinel s)) ITEM_HEIGHT) 0
              || _isExternalForceActive (sentinel s)); cbn [state_of].
    + apply (onWheelStable_nothing_to_select (set_pendingScroll 0 (sentinel s)));
        assumption.
    + unfold _stabilizeWheel, _startPhysicsAnimation, reschedule,
        requestAnimationFrame.
      split_fields; repeat split; assumption.
  - destruct (JS.lt (scrollOffset (sentinel s)) 0);
      [repeat split; assumption|].
    cbn [state_of]. unfold animate_scroll, reschedule, requestAnimationFrame.
    split_fields; repeat split; assumption.
Qed.

Lemma run_nothing_to_select (es : list Event) (s : Picker) :
  forallb (fun e => negb (is_click e)) es = true ->
  items s = [] -> _selectedItem s = None ->
  selects (run easingFunction inverseEasingFunction es s) = selects s
  /\ items (run easingFunction inverseEasingFunction es s) = [].
Proof.
  revert s. induction es as [|e es IH]; intros s Hes Hi Hs; [split; [reflexivity|exact Hi]|].
  cbn [forallb] in Hes. apply andb_true_iff in Hes. destruct Hes as [He Hes].
  apply negb_true_iff in He. cbn [run].
  assert (Hstep : selects (state_of (deliver easingFunction inverseEasingFunction e s))
                  = selects s
                  /\ _selectedItem (state_of (deliver easingFunction
                                               inverseEasingFunction e s)) = None
                  /\ items (state_of (deliver easingFunction inverseEasingFunction e s))
                     = []).
  { destruct (is_frame e) eqn:Hf.
    - destruct e; try discriminate. cbn [deliver].
      destruct (mem _ (frames s)); [|repeat split; assumption].
      assert (Hi' : items (cancelAnimationFrame h s) = [])
        by (unfold cancelAnimationFrame; split_fields; exact Hi).
      assert (Hs' : _selectedItem (cancelAnimationFrame h s) = None)
        by (unfold cancelAnimationFrame; split_fields; exact Hs).
      destruct (frame_nothing_to_select now _ Hi' Hs') as (A & B & C).
      rewrite A. split; [|split; assumption].
      unfold cancelAnimationFrame; split_fields; reflexivity.
    - destruct (input_quiet easingFunction inverseEasingFunction e s He Hf) as (_ & H1 & H2 & H3).
      rewrite H1, H2, H3. repeat split; assumption. }
  destruct Hstep as (H1 & H2 & H3).
  destruct (IH _ Hes H3 H2) as [IH1 IH2]. rewrite IH1. split; [exact H1|exact IH2].
Qed.

(** X16.  With an empty item list nothing is ever selected: whatever
    wheel, touch and key events, frames and timers the picker is
    delivered after its construction, it dispatches no "select" event,
    and the wheel stays on 0. *)
Theorem X16_empty_list_selects_nothing (duration : Q) (es : list Event) :
  forallb (fun e => negb (is_click e)) es = true ->
  selects (run easingFunction inverseEasingFunction es (constructed [] duration)) = []
  /\ _currentScroll (run easingFunction inverseEasingFunction es
                         (constructed [] duration)) == 0.
Proof.
  intro Hes.
  destruct (run_nothing_to_select es (constructed [] duration) Hes eq_refl eq_refl)
    as [Hsel Hi].
  split; [exact Hsel|].
  assert (Hr : in_range (constructed [] duration)).
  { split; vm_compute; discriminate. }
  destruct (run_in_range easingFunction inverseEasingFunction es _ Hr) as [H0 H1].
  unfold items_length in H1. rewrite Hi in H1.
  change (inject_Z (Z.of_nat (List.length (@nil Item)))) with 0 in H1.
  unfold ITEM_HEIGHT in H1. lra.
Qed.

End EmptyList.

(** ** The highlighted row *)

Lemma highlighted_is_close (offsetHeight : Q) (s : Picker) (i : nat) :
  applyPhysics_selected offsetHeight s i false = true ->
  Qabs (inject_Z (Z.of_nat i) * ITEM_HEIGHT - _currentScroll s) < ITEM_HEIGHT / 2.
Proof.
  unfold applyPhysics_selected.
  destruct (JS.lt _ (offsetHeight / 2)); [|discriminate].
  intro H. apply JSFacts.lt_spec. exact H.
Qed.

(** X17.  The row the rendering highlights is the row of the selected
    index: a row that did not carry the class "selected" and carries it
    after [_applyPhysics] sits at [_selectedIndex], so that one rendering
    never highlights two rows anew. *)
Theorem X17_highlight_follows_the_selected_index
        (offsetHeight : Q) (s : Picker) (i j : nat) :
  applyPhysics_selected offsetHeight s i false = true ->
  applyPhysics_selected offsetHeight s j false = true ->
  _selectedIndex s = Z.of_nat i /\ j = i.
Proof.
  assert (Hidx : forall k, applyPhysics_selected offsetHeight s k false = true ->
                           _selectedIndex s = Z.of_nat k).
  { intros k Hk. apply highlighted_is_close in Hk.
    pose proof half_item as Hhalf. rewrite Hhalf in Hk.
    assert (Hb : - (12) < inject_Z (Z.of_nat k) * ITEM_HEIGHT - _currentScroll s < 12).
    { split.
      - destruct (Qlt_le_dec (- (12)) (inject_Z (Z.of_nat k) * ITEM_HEIGHT
                                        - _currentScroll s)) as [L|L]; [exact L|].
        exfalso. rewrite Qabs_neg in Hk by lra. lra.
      - eapply Qle_lt_trans; [apply Qle_Qabs|exact Hk]. }
    unfold _selectedIndex, JS.round. unfold ITEM_HEIGHT in *.
    assert (E : _currentScroll s / 24 + (1 # 2)
                == (_currentScroll s + 12) / 24) by field.
    apply Qfloor_unique; rewrite E.
    - apply Qle_shift_div_l; lra.
    - apply Qlt_shift_div_r; lra. }
  intros Hi Hj. split; [exact (Hidx i Hi)|].
  apply Hidx in Hi. apply Hidx in Hj. lia.
Qed.

(** ** The further properties at concrete pickers *)

Lemma X3_witness :
  _currentScroll (run LinearEasing LinearEasing frameless_input five_picker) = 0
  /\ selects (run LinearEasing LinearEasing frameless_input five_picker) = [].
Proof.
  destruct (X3_input_neither_moves_nor_dispatches LinearEasing LinearEasing
              frameless_input five_picker eq_refl) as (H1 & H2 & _).
  split; [exact H1|exact H2].
Defined.

Lemma X5_witness :
  trackedTouch
    (run LinearEasing LinearEasing
         (TouchStart [mkTouch 0 100] :: map TouchMove drag_moves) five_picker)
  = Some (mkTouch 0 70)
  /\ _pendingScroll
       (run LinearEasing LinearEasing
            (TouchStart [mkTouch 0 100] :: map TouchMove drag_moves) five_picker)
     == 30
  /\ _isExternalForceActive
       (run LinearEasing LinearEasing [TouchEnd [mkTouch 0 70]]
            (run LinearEasing LinearEasing
                 (TouchStart [mkTouch 0 100] :: map TouchMove drag_moves)
                 five_picker))
     = false.
Proof.
  destruct (X5_drag_adds_the_finger_travel LinearEasing LinearEasing
              (mkTouch 0 100) [] drag_moves [mkTouch 0 70] (mkTouch 0 70)
              five_picker eq_refl eq_refl) as (H1 & _ & _ & H4 & _ & H6 & _).
  split; [exact H1|]. split; [|exact H6].
  rewrite H4. vm_compute. reflexivity.
Defined.

Lemma X6_witness :
  _onTouchStart [mkTouch 1 50] dragging_aligned_picker = dragging_aligned_picker
  /\ _onTouchMove [mkTouch 1 50] dragging_aligned_picker = dragging_aligned_picker
  /\ _onTouchEnd [mkTouch 1 50] dragging_aligned_picker = dragging_aligned_picker
  /\ _onTouchMove [mkTouch 0 50] five_picker = five_picker
  /\ _onTouchEnd [mkTouch 0 50] five_picker = five_picker.
Proof.
  destruct (X6_other_fingers_are_ignored [mkTouch 1 50] dragging_aligned_picker)
    as (H1 & H2 & _).
  destruct (X6_other_fingers_are_ignored [mkTouch 0 50] five_picker)
    as (_ & _ & H3).
  assert (Hother : Forall (fun u => identifier u <> identifier (mkTouch 0 100))
                          [mkTouch 1 50]).
  { constructor; [|constructor]. cbn. discriminate. }
  split; [exact (H1 (mkTouch 0 100) eq_refl)|].
  split; [exact (proj1 (H2 (mkTouch 0 100) eq_refl Hother))|].
  split; [exact (proj2 (H2 (mkTouch 0 100) eq_refl Hother))|].
  exact (H3 eq_refl).
Defined.

Lemma X7_witness :
  148 == 0 + 100 + ITEM_HEIGHT * inject_Z (Z.of_nat 2)
  /\ _currentScroll third_item_picker
     + _pendingScroll (_onItemClick "e" 148 0 100 third_item_picker)
     == ITEM_HEIGHT * inject_Z (Z.of_nat 2) + _pendingScroll third_item_picker
  /\ selects (_onItemClick "e" 148 0 100 third_item_picker) = [Some "e"%string].
Proof.
  assert (Hlayout : 148 == 0 + 100 + ITEM_HEIGHT * inject_Z (Z.of_nat 2))
    by (vm_compute; reflexivity).
  destruct (X7_click_aims_at_the_row "e" 2 148 0 100 third_item_picker Hlayout)
    as (_ & H2 & H3 & _).
  split; [exact Hlayout|]. split; [exact H2|exact H3].
Defined.

Lemma X8_witness :
  timer_owned five_picker
  /\ _isExternalForceActive (_onWheelHandler (1 # 2) five_picker) = true
  /\ timers (_onWheelHandler (1 # 2) five_picker) = [fresh five_picker]
  /\ timers (_onWheelHandler 48 five_picker) = timers five_picker.
Proof.
  assert (Hown : timer_owned five_picker) by reflexivity.
  assert (Hfrac : ~ exists z : Z, (1 # 2) == inject_Z z).
  { intros [z Hz]. unfold Qeq in Hz. cbn in Hz. lia. }
  assert (Hint : exists z : Z, 48 == inject_Z z) by (exists 48%Z; reflexivity).
  destruct (X8_wheel_tells_trackpad_from_notch (1 # 2) five_picker Hown)
    as [Htrackpad _].
  destruct (X8_wheel_tells_trackpad_from_notch 48 five_picker Hown)
    as [_ Hnotch].
  destruct (Htrackpad Hfrac) as (_ & H2 & _ & H4).
  destruct (Hnotch Hint) as (_ & _ & H7).
  split; [exact Hown|]. split; [exact H2|]. split; [exact H4|exact H7].
Defined.

Lemma X10_witness :
  0 <= _currentScroll off_boundary_picker
  /\ _isExternalForceActive (debounce_callback off_boundary_picker) = false
  /\ Qabs (_pendingScroll (debounce_callback off_boundary_picker)) <= ITEM_HEIGHT / 2.
Proof.
  assert (H0 : 0 <= _currentScroll off_boundary_picker)
    by (vm_compute; discriminate).
  destruct (X10_debounce_sends_wheel_to_boundary off_boundary_picker H0)
    as (H1 & _ & _ & H4 & _).
  split; [exact H0|]. split; [exact H1|exact H4].
Defined.

Lemma five_picker_scheduled : scheduled five_picker.
Proof.
  split.
  - intros h E. discriminate E.
  - intro H. exfalso. apply H. reflexivity.
Defined.

Lemma X11_witness :
  scheduled (run LinearEasing LinearEasing
                 [KeyDown "ArrowDown"; Frame 1 16] five_picker).
Proof.
  exact (X11_pending_displacement_has_a_frame LinearEasing LinearEasing five_picker
           [KeyDown "ArrowDown"; Frame 1 16]
           five_picker_in_range five_picker_scheduled).
Defined.

Lemma X12_witness :
  Qabs (_currentScroll
          (state_of (_animatePhysics LinearEasing LinearEasing 32
                                     arrow_down_bootstrapped))
        + _pendingScroll
            (state_of (_animatePhysics LinearEasing LinearEasing 32
                                       arrow_down_bootstrapped))
        - (_currentScroll arrow_down_bootstrapped
           + _pendingScroll arrow_down_bootstrapped))
  <= EFFECTIVELY_ZERO.
Proof.
  apply (X12_frame_conserves_the_target LinearEasing LinearEasing 32 16
           arrow_down_bootstrapped).
  - reflexivity.
  - vm_compute. discriminate.
  - vm_compute. reflexivity.
  - split; vm_compute; discriminate.
  - vm_compute. discriminate.
Defined.

Lemma linear_range (x : Q) : 0 <= x -> x <= 1 -> 0 <= LinearEasing x <= 1.
Proof. intros H0 H1. split; [exact H0|exact H1]. Defined.

Lemma linear_inverse (x : Q) :
  0 <= x -> x <= 1 -> LinearEasing (LinearEasing x) == x.
Proof. intros _ _. reflexivity. Defined.

Lemma X13_witness :
  within_items arrow_down_bootstrapped
  /\ within_items
       (state_of (_animatePhysics LinearEasing LinearEasing 32
                                  arrow_down_bootstrapped)).
Proof.
  assert (Hin : within_items arrow_down_bootstrapped)
    by (split; vm_compute; discriminate).
  assert (HD : 0 < animationDuration arrow_down_bootstrapped) by reflexivity.
  assert (Hclock : forall last,
             _lastTimestamp arrow_down_bootstrapped = Some last -> last <= 32).
  { intros last E. vm_compute in E. injection E as <-. vm_compute. discriminate. }
  split; [exact Hin|].
  exact (X13_frame_stays_within_the_items LinearEasing LinearEasing
           linear_monotone linear_at_1 linear_range linear_inverse
           32 arrow_down_bootstrapped HD Hclock Hin).
Defined.

Lemma X14_witness :
  within_items third_item_picker
  /\ (exists v, item_at (items third_item_picker) (_selectedIndex third_item_picker)
                = Some v /\ In v (items third_item_picker))
  /\ item_at (items upper_bound_picker) (_selectedIndex upper_bound_picker) = None.
Proof.
  assert (Hin : within_items third_item_picker)
    by (split; vm_compute; discriminate).
  assert (Hup : _currentScroll upper_bound_picker
                == ITEM_HEIGHT * items_length upper_bound_picker)
    by (vm_compute; reflexivity).
  split; [exact Hin|]. split.
  - exact (proj1 (X14_position_resolves_to_an_item third_item_picker) Hin).
  - exact (proj2 (X14_position_resolves_to_an_item upper_bound_picker) Hup).
Defined.

Lemma X15_witness :
  0 < _pendingScroll last_item_picker
  /\ _currentScroll
       (state_of (_animatePhysics LinearEasing LinearEasing 32 last_item_picker))
     = 96
  /\ Qabs (_pendingScroll
             (state_of (_animatePhysics LinearEasing LinearEasing 32
                                        last_item_picker)))
     <= ITEM_HEIGHT / 2.
Proof.
  assert (Hpos : 0 < _pendingScroll last_item_picker) by reflexivity.
  split; [exact Hpos|].
  apply (X15_last_item_absorbs LinearEasing LinearEasing 32 16 last_item_picker).
  - reflexivity.
  - vm_compute. discriminate.
  - vm_compute. discriminate.
  - vm_compute. discriminate.
  - exact Hpos.
Defined.

Lemma X16_witness :
  selects (run LinearEasing LinearEasing clickless_input (constructed [] 180)) = []
  /\ _currentScroll (run LinearEasing LinearEasing clickless_input
                         (constructed [] 180)) == 0.
Proof.
  exact (X16_empty_list_selects_nothing LinearEasing LinearEasing 180
           clickless_input eq_refl).
Defined.

Lemma X17_witness :
  applyPhysics_selected 120 off_boundary_picker 1 false = true
  /\ _selectedIndex off_boundary_picker = 1%Z.
Proof.
  assert (H : applyPhysics_selected 120 off_boundary_picker 1 false = true)
    by (vm_compute; reflexivity).
  split; [exact H|].
  exact (proj1 (X17_highlight_follows_the_selected_index 120 off_boundary_picker
                  1 1 H H)).
Defined.

(** * Division by the shrunken animation time *)


Section Finite.

Variables easingFunction inverseEasingFunction : Q -> Q.
Variables easingNumber inverseNumber : Number -> Number.

(** On rationals the curves on numbers are the curves of the model. *)
Hypothesis easing_finite :
  forall q, easingNumber (Finite q) = Finite (easingFunction q).
Hypothesis inverse_finite :
  forall q, inverseNumber (Finite q) = Finite (inverseEasingFunction q).



End Finite.


Section Clamp.

Variables easingFunction inverseEasingFunction : Q -> Q.

Local Abbreviation frame := (_animatePhysics easingFunction inverseEasingFunction).


End Clamp.



(** * The settle after one ArrowDown comes to its end

    ** The offset on the way to 24 *)

Lemma offset_gliding (s : Picker) :
  0 < _pendingScroll s -> 0 <= _currentScroll s -> _currentScroll s < 24 ->
  scrollOffset s == _currentScroll s.
Proof.
  intros Hp H0 H1. unfold scrollOffset. apply JSFacts.lt_spec in Hp. rewrite Hp.
  destruct (JSFacts.rem_nonneg (ITEM_HEIGHT + _currentScroll s) ITEM_HEIGHT)
    as (_ & _ & Hrem & _); [unfold ITEM_HEIGHT; lra|reflexivity|].
  rewrite Hrem.
  assert (E : Qfloor ((ITEM_HEIGHT + _currentScroll s) / ITEM_HEIGHT) = 1%Z).
  { apply Qfloor_unique; change (inject_Z 1) with 1; unfold ITEM_HEIGHT.
    - apply Qle_shift_div_l; lra.
    - apply Qlt_shift_div_r; lra. }
  rewrite E. change (inject_Z 1) with 1. unfold ITEM_HEIGHT. ring.
Qed.

Lemma offset_on_24 (s : Picker) : _currentScroll s == 24 -> scrollOffset s == 0.
Proof.
  intro Hc. unfold scrollOffset. destruct (JS.lt 0 (_pendingScroll s)).
  - apply (rem_multiple _ 2); [lia|]. rewrite Hc. reflexivity.
  - assert (Hr : JS.rem (_currentScroll s) ITEM_HEIGHT == 0).
    { apply (rem_multiple _ 1); [lia|]. rewrite Hc. reflexivity. }
    apply (rem_multiple _ 1); [lia|]. rewrite Hr. reflexivity.
Qed.

Lemma rem_past_24 (c : Q) : 24 <= c -> c < 48 -> JS.rem c ITEM_HEIGHT == c - 24.
Proof.
  intros H0 H1.
  destruct (JSFacts.rem_nonneg c ITEM_HEIGHT) as (_ & _ & Hrem & _);
    [lra|reflexivity|].
  rewrite Hrem.
  assert (E : Qfloor (c / ITEM_HEIGHT) = 1%Z).
  { apply Qfloor_unique; change (inject_Z 1) with 1; unfold ITEM_HEIGHT.
    - apply Qle_shift_div_l; lra.
    - apply Qlt_shift_div_r; lra. }
  rewrite E. change (inject_Z 1) with 1. unfold ITEM_HEIGHT. ring.
Qed.

Lemma rem_before_24 (c : Q) : 0 <= c -> c < 24 -> JS.rem c ITEM_HEIGHT == c.
Proof.
  intros H0 H1.
  destruct (JSFacts.rem_nonneg c ITEM_HEIGHT) as (_ & _ & Hrem & _);
    [lra|reflexivity|].
  rewrite Hrem.
  assert (E : Qfloor (c / ITEM_HEIGHT) = 0%Z).
  { apply Qfloor_unique; change (inject_Z 0) with 0; unfold ITEM_HEIGHT.
    - apply Qle_shift_div_l; lra.
    - apply Qlt_shift_div_r; lra. }
  rewrite E. change (inject_Z 0) with 0. unfold ITEM_HEIGHT. ring.
Qed.

Lemma offset_past_24 (s : Picker) :
  _pendingScroll s < 0 -> 24 < _currentScroll s -> _currentScroll s < 48 ->
  scrollOffset s == 48 - _currentScroll s.
Proof.
  intros Hp H0 H1. unfold scrollOffset.
  assert (E : JS.lt 0 (_pendingScroll s) = false) by (apply JSFacts.lt_false; lra).
  rewrite E.
  assert (Hr : JS.rem (_currentScroll s) ITEM_HEIGHT == _currentScroll s - 24)
    by (apply rem_past_24; lra).
  set (r := JS.rem (_currentScroll s) ITEM_HEIGHT) in *.
  rewrite (rem_before_24 (ITEM_HEIGHT - r)); unfold ITEM_HEIGHT; lra.
Qed.

(** The snap to the nearest integer around 24. *)
Lemma snap_on_24 (y : Q) :
  y == 24 -> approxEq y (inject_Z (JS.round y)) = true /\ inject_Z (JS.round y) == 24.
Proof.
  intro H. rewrite (round_at_24 y H). change (inject_Z 24) with 24. split.
  - apply approxEq_spec. apply Qabs_Qle_condition. unfold EFFECTIVELY_ZERO. lra.
  - reflexivity.
Qed.

Lemma snap_up_to_24 (y : Q) :
  y <= 24 -> approxEq y (inject_Z (JS.round y)) = true ->
  inject_Z (JS.round y) < 24 \/ inject_Z (JS.round y) == 24.
Proof.
  intros Hy Hs. pose proof (snap_close y Hs) as Hc. unfold EFFECTIVELY_ZERO in Hc.
  destruct (Z_le_gt_dec (JS.round y) 23) as [H|H].
  - left. rewrite Zle_Qle in H. change (inject_Z 23) with 23 in H. lra.
  - destruct (Z.eq_dec (JS.round y) 24) as [E|E].
    + right. rewrite E. reflexivity.
    + exfalso. assert (H25 : (25 <= JS.round y)%Z) by lia.
      rewrite Zle_Qle in H25. change (inject_Z 25) with 25 in H25. lra.
Qed.

Section Completion.

Variables easingFunction inverseEasingFunction : Q -> Q.

(** The contract of the two curves of [bezier] that completion relies on:
    on the unit interval the easing function rises, with a slope of at
    least [slope], up to 1 at 1, and the inverse maps the unit interval
    into itself and is taken back by the easing function. *)
Variable slope : Q.
Hypothesis slope_positive : 0 < slope.
Hypothesis easing_slope :
  forall x y, 0 <= x -> x <= y -> y <= 1 ->
              slope * (y - x) <= easingFunction y - easingFunction x.
Hypothesis easing_at_1 : forall x, x == 1 -> easingFunction x == 1.
Hypothesis inverse_range :
  forall x, 0 <= x -> x <= 1 -> 0 <= inverseEasingFunction x <= 1.
Hypothesis easing_inverse :
  forall x, 0 <= x -> x <= 1 -> easingFunction (inverseEasingFunction x) == x.

Local Abbreviation frame := (_animatePhysics easingFunction inverseEasingFunction).
Local Abbreviation tick := (next_frame easingFunction inverseEasingFunction).
Local Abbreviation limited := (dx_limited easingFunction inverseEasingFunction).
Local Abbreviation differential := (dx_differential easingFunction inverseEasingFunction).

Lemma rising_monotone (x y : Q) :
  0 <= x -> x <= y -> y <= 1 -> easingFunction x <= easingFunction y.
Proof.
  intros H0 Hxy H1. pose proof (easing_slope x y H0 Hxy H1) as H.
  assert (0 <= slope * (y - x)) by (apply Qmult_le_0_compat; lra). lra.
Qed.

Lemma rising_nonneg (x : Q) : 0 <= x -> x <= 1 -> 0 <= inverseEasingFunction x.
Proof. intros H0 H1. apply (inverse_range x H0 H1). Qed.

Lemma rising_compat (x y : Q) :
  0 <= x -> x <= 1 -> x == y -> easingFunction x == easingFunction y.
Proof.
  intros H0 H1 E.
  assert (A : easingFunction x <= easingFunction y) by (apply rising_monotone; lra).
  assert (B : easingFunction y <= easingFunction x) by (apply rising_monotone; lra).
  lra.
Qed.

(** The differential distance of a frame at least [g] after the last one
    either reaches the next boundary or is at least a thousandth, when
    the duration is at most [24000 * slope * g]. *)
Lemma differential_progress (delta g : Q) (s : Picker) :
  0 < animationDuration s -> 0 <= _currentScroll s ->
  ~ _pendingScroll s == 0 -> 0 < g -> g <= delta ->
  animationDuration s <= 24000 * slope * g ->
  differential delta s == ITEM_HEIGHT - scrollOffset s
  \/ (1 # 1000) <= differential delta s.
Proof.
  intros HD Hcur Hp Hg Hdelta Hq. unfold dx_differential, t_estimate.
  pose proof (shrunkenAnimationTime_pos s HD Hp) as HT.
  assert (HTD : shrunkenAnimationTime s <= animationDuration s).
  { unfold shrunkenAnimationTime.
    destruct (JSFacts.min_spec (animationDuration s)
                (animationDuration s * ITEM_HEIGHT / JS.abs (_pendingScroll s)))
      as [[F ->]|[F ->]]; lra. }
  destruct (scrollOffset_range s Hcur) as [Ho1 Ho2].
  set (T := shrunkenAnimationTime s) in *.
  set (x := scrollOffset s / ITEM_HEIGHT).
  assert (Hx : 0 <= x /\ x <= 1).
  { unfold x, ITEM_HEIGHT in *. split.
    - apply Qle_shift_div_l; lra.
    - apply Qle_shift_div_r; lra. }
  destruct Hx as [Hx0 Hx1].
  assert (Hoff : scrollOffset s == x * ITEM_HEIGHT).
  { unfold x, ITEM_HEIGHT. field. }
  destruct (inverse_range x Hx0 Hx1) as [Hu0 Hu1].
  pose proof (easing_inverse x Hx0 Hx1) as Hinv.
  set (u := inverseEasingFunction x) in *.
  assert (Hb : u * T / T == u) by (field; lra).
  assert (Ha : (u * T + delta) / T == u + delta / T) by (field; lra).
  assert (Hlow : easingFunction (JS.min 1 (u * T / T)) == x).
  { rewrite <- Hinv.
    destruct (JSFacts.min_spec 1 (u * T / T)) as [[F ->]|[F ->]];
      apply rising_compat; lra. }
  destruct (JSFacts.min_spec 1 ((u * T + delta) / T)) as [[F ->]|[F ->]].
  - left. rewrite (easing_at_1 1) by reflexivity. rewrite Hlow, Hoff. ring.
  - right.
    assert (Hmin : JS.min 1 (u * T / T) = u * T / T).
    { destruct (JSFacts.min_spec 1 (u * T / T)) as [[G _]|[_ ->]]; [|reflexivity].
      exfalso.
      assert (0 < delta / T) by (apply Qlt_shift_div_l; lra). lra. }
    rewrite Hmin.
    assert (Hd : (1 # 24000) <= slope * (delta / T)).
    { assert (Hsg : slope * g <= slope * delta) by (apply Qmult_le_l; lra).
      assert (E : slope * (delta / T) == slope * delta / T) by (field; lra).
      rewrite E. apply Qle_shift_div_l; lra. }
    assert (Hrise : slope * ((u * T + delta) / T - u * T / T)
                    <= easingFunction ((u * T + delta) / T)
                       - easingFunction (u * T / T)).
    { apply easing_slope; try lra.
      assert (0 <= delta / T) by (apply Qle_shift_div_l; lra). lra. }
    assert (E : slope * ((u * T + delta) / T - u * T / T) == slope * (delta / T))
      by (field; lra).
    unfold ITEM_HEIGHT. lra.
Qed.

Lemma limited_down (delta : Q) (s : Picker) :
  0 < _pendingScroll s ->
  (_pendingScroll s <= differential delta s /\ limited delta s == _pendingScroll s)
  \/ (differential delta s < _pendingScroll s
      /\ limited delta s == differential delta s).
Proof.
  intro Hp. unfold dx_limited. rewrite (sign_pos _ Hp).
  destruct (JSFacts.abs_spec (_pendingScroll s)) as [[_ E]|[F _]]; [|lra].
  destruct (JSFacts.min_spec (JS.abs (_pendingScroll s)) (differential delta s))
    as [[F ->]|[F ->]]; [left|right]; split; lra.
Qed.

Lemma limited_up (delta : Q) (s : Picker) :
  _pendingScroll s < 0 ->
  (- _pendingScroll s <= differential delta s /\ limited delta s == _pendingScroll s)
  \/ (differential delta s < - _pendingScroll s
      /\ limited delta s == - differential delta s).
Proof.
  intro Hp. unfold dx_limited. rewrite (sign_neg _ Hp).
  destruct (JSFacts.abs_spec (_pendingScroll s)) as [[F _]|[_ E]]; [lra|].
  destruct (JSFacts.min_spec (JS.abs (_pendingScroll s)) (differential delta s))
    as [[F ->]|[F ->]]; [left|right]; split; lra.
Qed.

(** ** What one tick reads and writes on the way *)

Lemma tick_duration (now : Q) (s : Picker) :
  animationDuration (tick now s) = animationDuration s.
Proof.
  unfold next_frame. destruct (frames s) as [|h l] eqn:Hfr; [reflexivity|].
  cbn [deliver]. destruct (mem h (frames s)); [|reflexivity].
  unfold _animatePhysics, _isWheelStable, _onWheelStable, _stabilizeWheel,
    _stopAnimation, _startPhysicsAnimation, sentinel, reschedule, animate_scroll,
    requestAnimationFrame, cancelAnimationFrame, dispatchSelect.
  split_fields; reflexivity.
Qed.

(** The tick that moves the wheel. *)
Lemma tick_moving (b : Item) (e now last : Q) (s : Picker) :
  settling b e now s -> e <= 11 ->
  _lastTimestamp s = Some last -> ~ last == 0 ->
  approxEq (_pendingScroll s) 0 = false ->
  _lastTimestamp (tick now s) = Some now
  /\ _pendingScroll (tick now s) = _pendingScroll s - limited (now - last) s
  /\ ((approxEq (_currentScroll s + limited (now - last) s)
                (inject_Z (JS.round (_currentScroll s + limited (now - last) s)))
       = true
       /\ _currentScroll (tick now s)
          = inject_Z (JS.round (_currentScroll s + limited (now - last) s)))
      \/ (approxEq (_currentScroll s + limited (now - last) s)
                   (inject_Z (JS.round (_currentScroll s + limited (now - last) s)))
          = false
          /\ _currentScroll (tick now s)
             = _currentScroll s + limited (now - last) s)).
Proof.
  intros [Hw [h Hfr]] He Hlast Hnz Hp.
  destruct (tick_single easingFunction inverseEasingFunction now s h Hfr)
    as [-> Hfr'].
  pose proof (wheel_settling_cancel b e now s h Hw) as Hw'.
  pose proof (sentinel_quiet b e now _ Hw' He) as Hsent.
  destruct Hw as [H1 H2 H3 H4 H5 H6 H7 H8 H9 H10 H11].
  destruct (H7 last Hlast) as [Hbefore _].
  assert (Hp0 : ~ _pendingScroll s == 0).
  { intro E. apply approxEq_zero_false in Hp. unfold EFFECTIVELY_ZERO in Hp. lra. }
  assert (Hdelta : 0 <= now - last) by lra.
  pose proof (dx_limited_between easingFunction inverseEasingFunction
                rising_monotone rising_nonneg (now - last) s H3 H8 Hp0 Hdelta)
    as Hdx.
  set (t := cancelAnimationFrame h s) in *.
  assert (Hoff : JS.lt (scrollOffset t) 0 = false).
  { apply JSFacts.lt_false. apply scrollOffset_nonneg. exact H8. }
  unfold _animatePhysics.
  change (_lastTimestamp t) with (_lastTimestamp s). rewrite Hlast.
  apply JSFacts.eq_false in Hnz. rewrite Hnz. cbv beta iota zeta delta [negb].
  rewrite Hsent.
  change (_pendingScroll t) with (_pendingScroll s). rewrite Hp, Hoff.
  cbn [state_of].
  change (limited (now - last) t) with (limited (now - last) s).
  set (dx := limited (now - last) s) in *.
  unfold animate_scroll, reschedule, requestAnimationFrame. fields.
  change (items_length t) with (items_length s).
  rewrite (items_length_five s H1).
  change (_currentScroll t) with (_currentScroll s).
  change (_pendingScroll t) with (_pendingScroll s).
  rewrite clamp_inside; [|lra|unfold ITEM_HEIGHT; lra].
  destruct (approxEq (_currentScroll s + dx)
                     (inject_Z (JS.round (_currentScroll s + dx)))) eqn:Hs; fields.
  - split; [reflexivity|]. split; [reflexivity|]. left. split; reflexivity.
  - split; [reflexivity|]. split; [reflexivity|]. right. split; reflexivity.
Qed.

(** The tick that finds the wheel at rest off the boundary. *)
Lemma tick_resting (b : Item) (e now last : Q) (s : Picker) :
  settling b e now s -> e <= 11 ->
  _lastTimestamp s = Some last -> ~ last == 0 ->
  approxEq (_pendingScroll s) 0 = true ->
  approxEq (JS.rem (_currentScroll s) ITEM_HEIGHT) 0 = false ->
  _lastTimestamp (tick now s) = Some now
  /\ _currentScroll (tick now s) = _currentScroll s
  /\ _pendingScroll (tick now s)
     = if JS.lt (ITEM_HEIGHT / 2) (JS.rem (_currentScroll s) ITEM_HEIGHT)
       then ITEM_HEIGHT - JS.rem (_currentScroll s) ITEM_HEIGHT
       else - JS.rem (_currentScroll s) ITEM_HEIGHT.
Proof.
  intros [Hw [h Hfr]] He Hlast Hnz Hp Hr.
  destruct (tick_single easingFunction inverseEasingFunction now s h Hfr)
    as [-> Hfr'].
  pose proof (wheel_settling_cancel b e now s h Hw) as Hw'.
  pose proof (sentinel_quiet b e now _ Hw' He) as Hsent.
  destruct Hw as [H1 H2 H3 H4 H5 H6 H7 H8 H9 H10 H11].
  set (t := cancelAnimationFrame h s) in *.
  unfold _animatePhysics.
  change (_lastTimestamp t) with (_lastTimestamp s). rewrite Hlast.
  apply JSFacts.eq_false in Hnz. rewrite Hnz. cbv beta iota zeta delta [negb].
  rewrite Hsent. unfold _isWheelStable.
  change (_pendingScroll t) with (_pendingScroll s). rewrite Hp. fields.
  change (_currentScroll t) with (_currentScroll s). rewrite Hr.
  change (_isExternalForceActive t) with (_isExternalForceActive s).
  rewrite H4. cbn [orb state_of].
  unfold _stabilizeWheel, _startPhysicsAnimation, reschedule, requestAnimationFrame.
  fields. change (_currentScroll t) with (_currentScroll s).
  destruct (JS.lt (ITEM_HEIGHT / 2) (JS.rem (_currentScroll s) ITEM_HEIGHT));
    fields; destruct (_animating t); fields; repeat split; reflexivity.
Qed.

(** *** The last ticks

    The wheel is taken to be within a four-thousandth of 24 in sum, what
    the slack of the ticks of a run allows. *)

(** Nothing pending, the wheel on 24: the tick settles. *)
Lemma step_aligned (b : Item) (e now last : Q) (s : Picker) :
  settling b e now s -> e <= 11 ->
  _lastTimestamp s = Some last -> ~ last == 0 ->
  approxEq (_pendingScroll s) 0 = true -> _currentScroll s == 24 ->
  settled b (tick now s).
Proof.
  intros [Hw [h Hfr]] He Hlast Hnz Hp Hc.
  destruct (tick_single easingFunction inverseEasingFunction now s h Hfr)
    as [-> Hfr'].
  pose proof (wheel_settling_cancel b e now s h Hw) as Hw'.
  apply (frame_stable easingFunction inverseEasingFunction b e now last);
    try assumption.
  change (_currentScroll (cancelAnimationFrame h s)) with (_currentScroll s).
  apply approxEq_zero. rewrite (rem_multiple _ 1); [unfold EFFECTIVELY_ZERO; lra|lia|].
  rewrite Hc. reflexivity.
Qed.

Section Quantum.

(** Frames come at least [g] apart, and the duration is short enough for
    a frame to move the wheel by a thousandth. *)
Variable g : Q.
Hypothesis gap_positive : 0 < g.

(** The wheel is one pulse away from 24: the tick takes it there. *)
Lemma step_exact (b : Item) (e now last : Q) (s : Picker) :
  settling b e now s -> e <= 11 ->
  _lastTimestamp s = Some last -> ~ last == 0 -> last + g <= now ->
  animationDuration s <= 24000 * slope * g ->
  approxEq (_pendingScroll s) 0 = false ->
  _currentScroll s + _pendingScroll s == 24 ->
  - (1 # 2000) <= _pendingScroll s <= 1 # 2000 ->
  _lastTimestamp (tick now s) = Some now
  /\ _currentScroll (tick now s) == 24
  /\ _pendingScroll (tick now s) == 0.
Proof.
  intros Hs He Hlast Hnz Hgap Hq Hp Hsum Hsmall.
  destruct (tick_moving b e now last s Hs He Hlast Hnz Hp) as (Hl & Hpend & Hcur).
  destruct Hs as [[H1 H2 H3 H4 H5 H6 H7 H8 H9 H10 H11] _].
  assert (Hp0 : ~ _pendingScroll s == 0).
  { intro E. apply approxEq_zero_false in Hp. unfold EFFECTIVELY_ZERO in Hp. lra. }
  assert (Hdelta : g <= now - last) by lra.
  assert (Hdelta0 : 0 <= now - last) by lra.
  pose proof (differential_upper easingFunction inverseEasingFunction
                rising_monotone easing_at_1 inverse_range easing_inverse
                (now - last) s H3 H8 Hp0 Hdelta0) as Hup.
  pose proof (differential_progress (now - last) g s H3 H8 Hp0 gap_positive
                Hdelta Hq) as Hprog.
  assert (Hdx : limited (now - last) s == _pendingScroll s).
  { destruct (Qlt_le_dec 0 (_pendingScroll s)) as [Hpos|Hneg].
    - assert (Hoff : scrollOffset s == _currentScroll s)
        by (apply offset_gliding; lra).
      unfold ITEM_HEIGHT in *.
      destruct (limited_down (now - last) s Hpos) as [[_ E]|[F E]]; [exact E|].
      rewrite E. destruct Hprog as [G|G]; lra.
    - assert (Hneg' : _pendingScroll s < 0) by lra.
      assert (Hoff : scrollOffset s == 48 - _currentScroll s)
        by (apply offset_past_24; lra).
      unfold ITEM_HEIGHT in *.
      destruct (limited_up (now - last) s Hneg') as [[_ E]|[F E]]; [exact E|].
      rewrite E. destruct Hprog as [G|G]; lra. }
  set (dx := limited (now - last) s) in *.
  assert (Hy : _currentScroll s + dx == 24) by lra.
  destruct (snap_on_24 _ Hy) as [Hsnap H24].
  split; [exact Hl|]. split.
  - destruct Hcur as [[_ ->]|[F _]]; [exact H24|].
    rewrite Hsnap in F. discriminate F.
  - rewrite Hpend. lra.
Qed.

(** The wheel on 24 with a residue pending: the tick uses the residue up. *)
Lemma step_on_24 (b : Item) (e now last : Q) (s : Picker) :
  settling b e now s -> e <= 11 ->
  _lastTimestamp s = Some last -> ~ last == 0 -> last + g <= now ->
  animationDuration s <= 24000 * slope * g ->
  approxEq (_pendingScroll s) 0 = false ->
  _currentScroll s == 24 ->
  - (1 # 2000) <= _pendingScroll s <= 1 # 2000 ->
  _lastTimestamp (tick now s) = Some now
  /\ _pendingScroll (tick now s) == 0.
Proof.
  intros Hs He Hlast Hnz Hgap Hq Hp Hc Hsmall.
  destruct (tick_moving b e now last s Hs He Hlast Hnz Hp) as (Hl & Hpend & _).
  destruct Hs as [[H1 H2 H3 H4 H5 H6 H7 H8 H9 H10 H11] _].
  assert (Hp0 : ~ _pendingScroll s == 0).
  { intro E. apply approxEq_zero_false in Hp. unfold EFFECTIVELY_ZERO in Hp. lra. }
  assert (Hdelta : g <= now - last) by lra.
  pose proof (differential_progress (now - last) g s H3 H8 Hp0 gap_positive
                Hdelta Hq) as Hprog.
  pose proof (offset_on_24 s Hc) as Hoff.
  assert (Hraw : (1 # 1000) <= differential (now - last) s).
  { unfold ITEM_HEIGHT in *. destruct Hprog as [G|G]; lra. }
  assert (Hdx : limited (now - last) s == _pendingScroll s).
  { destruct (Qlt_le_dec 0 (_pendingScroll s)) as [Hpos|Hneg].
    - destruct (limited_down (now - last) s Hpos) as [[_ E]|[F E]]; [exact E|]. lra.
    - assert (Hneg' : _pendingScroll s < 0) by lra.
      destruct (limited_up (now - last) s Hneg') as [[_ E]|[F E]]; [exact E|]. lra. }
  split; [exact Hl|]. rewrite Hpend. lra.
Qed.

(** The wheel at rest off 24: the tick sends the pulse that leads there. *)
Lemma step_rest (b : Item) (e now last : Q) (s : Picker) :
  settling b e now s -> e <= 1 # 4000 ->
  _lastTimestamp s = Some last -> ~ last == 0 ->
  approxEq (_pendingScroll s) 0 = true ->
  approxEq (JS.rem (_currentScroll s) ITEM_HEIGHT) 0 = false ->
  _lastTimestamp (tick now s) = Some now
  /\ approxEq (_pendingScroll (tick now s)) 0 = false
  /\ _currentScroll (tick now s) + _pendingScroll (tick now s) == 24
  /\ - (1 # 2000) <= _pendingScroll (tick now s) <= 1 # 2000.
Proof.
  intros Hs He Hlast Hnz Hp Hr.
  assert (He' : e <= 11) by lra.
  destruct (tick_resting b e now last s Hs He' Hlast Hnz Hp Hr) as (Hl & Hc & Hpulse).
  destruct Hs as [[H1 H2 H3 H4 H5 H6 H7 H8 H9 H10 H11] _].
  rewrite Hc, Hpulse. split; [exact Hl|].
  apply approxEq_zero in Hp. apply approxEq_zero_false in Hr.
  pose proof half_item as Hhalf.
  unfold EFFECTIVELY_ZERO in *.
  destruct (Qlt_le_dec (_currentScroll s) 24) as [Hlt|Hge].
  - pose proof (rem_before_24 _ H8 Hlt) as Hrem.
    assert (Half : JS.lt (ITEM_HEIGHT / 2) (JS.rem (_currentScroll s) ITEM_HEIGHT) = true).
    { apply JSFacts.lt_spec. rewrite Hhalf, Hrem. lra. }
    rewrite Half.
    set (r := JS.rem (_currentScroll s) ITEM_HEIGHT) in *. unfold ITEM_HEIGHT.
    split; [|split; [lra|split; lra]].
    apply approxEq_zero_false. unfold EFFECTIVELY_ZERO. right.
    destruct (Qlt_le_dec (1 # 10000000000) (24 - r)) as [F|F];
      [exact F|exfalso].
    (* so near 24 the wheel would have been snapped onto it *)
    assert (Hround : JS.round (_currentScroll s) = 24%Z).
    { unfold JS.round. apply Qfloor_unique; change (inject_Z 24) with 24; lra. }
    assert (Hsnap : approxEq (_currentScroll s)
                             (inject_Z (JS.round (_currentScroll s))) = true).
    { rewrite Hround. change (inject_Z 24) with 24. apply approxEq_spec.
      apply Qabs_Qle_condition. unfold EFFECTIVELY_ZERO. lra. }
    apply H11 in Hsnap. rewrite Hround in Hsnap.
    change (inject_Z 24) with 24 in Hsnap. lra.
  - assert (Hlt : _currentScroll s < 48) by lra.
    pose proof (rem_past_24 _ Hge Hlt) as Hrem.
    assert (Half : JS.lt (ITEM_HEIGHT / 2) (JS.rem (_currentScroll s) ITEM_HEIGHT) = false).
    { apply JSFacts.lt_false. rewrite Hhalf, Hrem. lra. }
    rewrite Half.
    set (r := JS.rem (_currentScroll s) ITEM_HEIGHT) in *.
    split; [|split; [lra|split; lra]].
    apply approxEq_zero_false. unfold EFFECTIVELY_ZERO. lra.
Qed.

(** The wheel on its way below 24: the tick uses up what is pending, or
    takes the wheel onto 24, or takes it at least a two-thousandth
    further. *)
Lemma step_glide (b : Item) (e now last : Q) (s : Picker) :
  settling b e now s -> e <= 11 ->
  _lastTimestamp s = Some last -> ~ last == 0 -> last + g <= now ->
  animationDuration s <= 24000 * slope * g ->
  approxEq (_pendingScroll s) 0 = false ->
  0 < _pendingScroll s -> _currentScroll s < 24 ->
  _lastTimestamp (tick now s) = Some now
  /\ (_pendingScroll (tick now s) == 0
      \/ _currentScroll (tick now s) == 24
      \/ (_currentScroll (tick now s) < 24
          /\ 0 < _pendingScroll (tick now s)
          /\ _currentScroll s + (1 # 2000) <= _currentScroll (tick now s))).
Proof.
  intros Hs He Hlast Hnz Hgap Hq Hp Hpos Hc.
  destruct (tick_moving b e now last s Hs He Hlast Hnz Hp) as (Hl & Hpend & Hcur).
  destruct Hs as [[H1 H2 H3 H4 H5 H6 H7 H8 H9 H10 H11] _].
  assert (Hp0 : ~ _pendingScroll s == 0) by lra.
  assert (Hdelta : g <= now - last) by lra.
  assert (Hdelta0 : 0 <= now - last) by lra.
  pose proof (differential_upper easingFunction inverseEasingFunction
                rising_monotone easing_at_1 inverse_range easing_inverse
                (now - last) s H3 H8 Hp0 Hdelta0) as Hup.
  pose proof (differential_progress (now - last) g s H3 H8 Hp0 gap_positive
                Hdelta Hq) as Hprog.
  assert (Hoff : scrollOffset s == _currentScroll s)
    by (apply offset_gliding; lra).
  unfold ITEM_HEIGHT in *.
  split; [exact Hl|]. rewrite Hpend.
  destruct (limited_down (now - last) s Hpos) as [[_ E]|[F E]]; [left; lra|].
  set (dx := limited (now - last) s) in *.
  set (raw := differential (now - last) s) in *.
  destruct Hprog as [G|G].
  - right. left.
    assert (Hy : _currentScroll s + dx == 24) by lra.
    destruct (snap_on_24 _ Hy) as [Hsnap H24].
    destruct Hcur as [[_ ->]|[F' _]]; [exact H24|].
    rewrite Hsnap in F'. discriminate F'.
  - assert (Hy : _currentScroll s + dx <= 24) by lra.
    destruct Hcur as [[Hsnap ->]|[_ ->]].
    + pose proof (snap_close _ Hsnap) as Hclose. unfold EFFECTIVELY_ZERO in Hclose.
      destruct (snap_up_to_24 _ Hy Hsnap) as [Hb|Hb].
      * right. right. repeat split; lra.
      * right. left. exact Hb.
    + destruct (Qlt_le_dec (_currentScroll s + dx) 24) as [Hb|Hb].
      * right. right. repeat split; lra.
      * right. left. lra.
Qed.

(** *** The run of the loop *)

Section Run.

Variables (a b c d e : Item) (D : Q) (clock : N -> Q).

Hypothesis duration_positive : 0 < D.
Hypothesis duration_quantum : D <= 24000 * slope * g.
Hypothesis clock_positive : 0 < clock 0%N.
Hypothesis clock_gap : forall i, clock i + g <= clock (N.succ i).

Local Abbreviation loop i :=
  (frame_loop easingFunction inverseEasingFunction clock i
              (arrow_down_picker [a; b; c; d; e] D)).

Lemma clock_increasing (i : N) : clock i < clock (N.succ i).
Proof. pose proof (clock_gap i). lra. Qed.

Lemma clock_after_0 (i : N) : 0 < clock i.
Proof.
  induction i as [|i IH] using N.peano_ind; [exact clock_positive|].
  pose proof (clock_gap i). lra.
Qed.

Lemma loop_duration (i : N) : animationDuration (loop i) = D.
Proof.
  induction i as [|i IH] using N.peano_ind; [reflexivity|].
  rewrite frame_loop_succ, tick_duration. exact IH.
Qed.

(** Up to 100000 ticks the loop is settling, with a slack of at most a
    four-thousandth, or has settled. *)
Lemma loop_cases (i : N) :
  (i <= 100000)%N ->
  settled b (loop i)
  \/ (settling b (inject_Z (Z.of_N i) * EFFECTIVELY_ZERO) (clock i) (loop i)
      /\ inject_Z (Z.of_N i) * EFFECTIVELY_ZERO <= 1 # 4000).
Proof.
  intro Hi.
  destruct (frame_loop_settling easingFunction inverseEasingFunction
              rising_monotone rising_nonneg b clock _ i clock_increasing
              (arrow_down_settling a b c d e D (clock 0%N) duration_positive))
    as [H|H]; [lia| |left; exact H].
  right. split; [exact H|].
  assert (H1 : inject_Z (Z.of_N i) <= inject_Z 100000) by (rewrite <- Zle_Qle; lia).
  assert (H0 : inject_Z 0 <= inject_Z (Z.of_N i)) by (rewrite <- Zle_Qle; lia).
  change (inject_Z 0) with 0 in H0. change (inject_Z 100000) with 100000 in H1.
  unfold EFFECTIVELY_ZERO. lra.
Qed.

Lemma settled_later (m n : N) : settled b (loop m) -> (m <= n)%N -> settled b (loop n).
Proof.
  intros H Hmn. replace n with (m + (n - m))%N by lia.
  rewrite (frame_loop_settled easingFunction inverseEasingFunction b clock _ m (n - m) H).
  exact H.
Qed.

Lemma finish_aligned (i : N) (last : Q) :
  (i <= 100000)%N ->
  _lastTimestamp (loop i) = Some last -> 0 < last ->
  approxEq (_pendingScroll (loop i)) 0 = true -> _currentScroll (loop i) == 24 ->
  settled b (loop (N.succ i)).
Proof.
  intros Hi Hlast Hpos Hp Hc.
  destruct (loop_cases i Hi) as [H|[H He]]; [apply (settled_later i); [exact H|lia]|].
  rewrite frame_loop_succ.
  apply (step_aligned b (inject_Z (Z.of_N i) * EFFECTIVELY_ZERO) (clock i) last); try assumption; lra.
Qed.

Lemma finish_exact (i : N) (last : Q) :
  (N.succ i <= 100000)%N ->
  _lastTimestamp (loop i) = Some last -> 0 < last -> last + g <= clock i ->
  approxEq (_pendingScroll (loop i)) 0 = false ->
  _currentScroll (loop i) + _pendingScroll (loop i) == 24 ->
  - (1 # 2000) <= _pendingScroll (loop i) <= 1 # 2000 ->
  settled b (loop (N.succ (N.succ i))).
Proof.
  intros Hi Hlast Hpos Hgap Hp Hsum Hsmall.
  destruct (loop_cases i) as [H|[H He]]; [lia|apply (settled_later i); [exact H|lia]|].
  assert (Hq : animationDuration (loop i) <= 24000 * slope * g)
    by (rewrite loop_duration; exact duration_quantum).
  destruct (step_exact b (inject_Z (Z.of_N i) * EFFECTIVELY_ZERO) (clock i) last (loop i)) as (Hl & Hc' & Hp');
    try assumption; try lra.
  rewrite <- frame_loop_succ in Hl, Hc', Hp'.
  apply (finish_aligned (N.succ i) (clock i)); try assumption.
  - apply clock_after_0.
  - apply approxEq_zero. unfold EFFECTIVELY_ZERO. lra.
Qed.

Lemma finish_resting (i : N) (last : Q) :
  (i + 2 <= 100000)%N ->
  _lastTimestamp (loop i) = Some last -> 0 < last -> last + g <= clock i ->
  approxEq (_pendingScroll (loop i)) 0 = true ->
  settled b (loop (i + 3)).
Proof.
  intros Hi Hlast Hpos Hgap Hp.
  destruct (loop_cases i) as [H|[H He]]; [lia|apply (settled_later i); [exact H|lia]|].
  destruct (approxEq (JS.rem (_currentScroll (loop i)) ITEM_HEIGHT) 0) eqn:Hr.
  - apply (settled_later (N.succ i)); [|lia].
    apply (finish_aligned i last); try assumption; [lia|].
    apply (aligned_at_24 b (inject_Z (Z.of_N i) * EFFECTIVELY_ZERO) (clock i)); try assumption; [apply H|lra].
  - destruct (step_rest b (inject_Z (Z.of_N i) * EFFECTIVELY_ZERO) (clock i) last (loop i)) as (Hl & Hp' & Hsum & Hsmall);
      try assumption; try lra.
    rewrite <- frame_loop_succ in Hl, Hp', Hsum, Hsmall.
    replace (i + 3)%N with (N.succ (N.succ (N.succ i))) by lia.
    apply (finish_exact (N.succ i) (clock i)); try assumption.
    + lia.
    + apply clock_after_0.
    + apply clock_gap.
Qed.

Lemma finish_near (i : N) (last : Q) :
  (i + 3 <= 100000)%N ->
  _lastTimestamp (loop i) = Some last -> 0 < last -> last + g <= clock i ->
  _pendingScroll (loop i) == 0 \/ _currentScroll (loop i) == 24 ->
  settled b (loop (i + 4)).
Proof.
  intros Hi Hlast Hpos Hgap Hnear.
  destruct (loop_cases i) as [H|[H He]]; [lia|apply (settled_later i); [exact H|lia]|].
  destruct (approxEq (_pendingScroll (loop i)) 0) eqn:Hp.
  - apply (settled_later (i + 3)); [|lia].
    apply (finish_resting i last); try assumption. lia.
  - assert (Hc : _currentScroll (loop i) == 24).
    { destruct Hnear as [E|E]; [|exact E].
      apply approxEq_zero_false in Hp. unfold EFFECTIVELY_ZERO in Hp. lra. }
    assert (Hq : animationDuration (loop i) <= 24000 * slope * g)
      by (rewrite loop_duration; exact duration_quantum).
    assert (Hsmall : - (1 # 2000) <= _pendingScroll (loop i) <= 1 # 2000).
    { destruct H as [[_ _ _ _ _ _ _ _ _ Hsum _] _]. lra. }
    destruct (step_on_24 b (inject_Z (Z.of_N i) * EFFECTIVELY_ZERO) (clock i) last (loop i)) as (Hl & Hp');
      try assumption; try lra.
    rewrite <- frame_loop_succ in Hl, Hp'.
    replace (i + 4)%N with (N.succ i + 3)%N by lia.
    apply (finish_resting (N.succ i) (clock i)); try assumption.
    + lia.
    + apply clock_after_0.
    + apply clock_gap.
    + apply approxEq_zero. unfold EFFECTIVELY_ZERO. lra.
Qed.

(** With at most [j] two-thousandths left to 24, the loop is over after
    [j + 5] more ticks. *)
Lemma glide_finishes (j : N) :
  forall (i : N) (last : Q),
    (i + j + 4 <= 100000)%N ->
    _lastTimestamp (loop i) = Some last -> 0 < last -> last + g <= clock i ->
    0 < _pendingScroll (loop i) -> _currentScroll (loop i) < 24 ->
    24 - _currentScroll (loop i) <= inject_Z (Z.of_N j) * (1 # 2000) ->
    settled b (loop (i + j + 5)).
Proof.
  induction j as [|j IH] using N.peano_ind; intros i last Hi Hlast Hpos Hgap Hp Hc Hleft.
  - exfalso. change (inject_Z (Z.of_N 0)) with 0 in Hleft. lra.
  - destruct (loop_cases i) as [H|[H He]]; [lia|apply (settled_later i); [exact H|lia]|].
    destruct (approxEq (_pendingScroll (loop i)) 0) eqn:Hap.
    + apply (settled_later (i + 3)); [|lia].
      apply (finish_resting i last); try assumption. lia.
    + assert (Hq : animationDuration (loop i) <= 24000 * slope * g)
        by (rewrite loop_duration; exact duration_quantum).
      destruct (step_glide b (inject_Z (Z.of_N i) * EFFECTIVELY_ZERO) (clock i) last (loop i)) as (Hl & Hout);
        try assumption; try lra.
      rewrite <- frame_loop_succ in Hl, Hout.
      destruct Hout as [E|[E|(Hc' & Hp' & Hstep)]].
      * apply (settled_later (N.succ i + 4)); [|lia].
        apply (finish_near (N.succ i) (clock i)); try assumption;
          [lia|apply clock_after_0|apply clock_gap|left; exact E].
      * apply (settled_later (N.succ i + 4)); [|lia].
        apply (finish_near (N.succ i) (clock i)); try assumption;
          [lia|apply clock_after_0|apply clock_gap|right; exact E].
      * replace (i + N.succ j + 5)%N with (N.succ i + j + 5)%N by lia.
        apply (IH (N.succ i) (clock i)); try assumption.
        -- lia.
        -- apply clock_after_0.
        -- apply clock_gap.
        -- rewrite N2Z.inj_succ in Hleft. unfold Z.succ in Hleft.
           rewrite inject_Z_plus in Hleft. change (inject_Z 1) with 1 in Hleft. lra.
Qed.

(** The bootstrap frame of the run. *)
Lemma loop_bootstrap :
  _lastTimestamp (loop 1) = Some (clock 0%N)
  /\ _currentScroll (loop 1) == 0
  /\ _pendingScroll (loop 1) == 24.
Proof.
  change 1%N with (N.succ 0). rewrite frame_loop_succ, frame_loop_0.
  repeat split; try reflexivity;
    cbn -[Qle Qlt Qeq Qplus Qminus Qmult]; unfold ITEM_HEIGHT; lra.
Qed.

Lemma loop_finishes : settled b (loop 48006).
Proof.
  destruct loop_bootstrap as (Hl & Hc & Hp).
  apply (glide_finishes 48000 1 (clock 0%N)); try assumption.
  - lia.
  - apply (clock_gap 0%N).
  - lra.
  - lra.
  - rewrite Hc. change (inject_Z (Z.of_N 48000)) with 48000. lra.
Qed.

(** C4, as amended.  Five items, the wheel at rest on 0, no external
    force.  One ArrowDown leaves 24 pending.  Then the frame loop comes to
    its end within 48006 frames, and whenever it is over the wheel is on
    24 and the one "select" event dispatched carries the item at index 1.
    This for a positive animation duration [D], timestamps that start
    above zero and come at least [g] apart, and the two curves under the
    contract above with [D <= 24000 * slope * g], so that a frame which
    does not reach the boundary moves the wheel by a thousandth at
    least. *)
Theorem C4_arrow_down_selects_next_item :
  _pendingScroll (arrow_down_picker [a; b; c; d; e] D) == 24
  /\ (forall n, (48006 <= n)%N -> frames (loop n) = [])
  /\ (forall n,
        frames (loop n) = [] ->
        _currentScroll (loop n) == 24 /\ selects (loop n) = [Some b]).
Proof.
  split; [cbn -[Qle Qlt Qeq Qplus Qminus Qmult]; unfold ITEM_HEIGHT; lra|]. split.
  - intros n Hn. apply (settled_later 48006 n loop_finishes Hn).
  - intros n Hover.
    assert (H : settled b (loop n)).
    { destruct (N.le_gt_cases n 100000) as [Hn|Hn].
      - destruct (loop_cases n Hn) as [H|[[_ [h Hfr]] _]]; [exact H|].
        rewrite Hfr in Hover. discriminate Hover.
      - apply (settled_later 48006 n loop_finishes). lia. }
    destruct H as (_ & Hc & _ & Hs). split; assumption.
Qed.

End Run.

End Quantum.

End Completion.

Lemma linear_slope (x y : Q) :
  0 <= x -> x <= y -> y <= 1 -> 1 * (y - x) <= LinearEasing y - LinearEasing x.
Proof. intros _ _ _. unfold LinearEasing. lra. Defined.

Lemma sixty_hertz_gap (i : N) : sixty_hertz i + 16 <= sixty_hertz (N.succ i).
Proof.
  unfold sixty_hertz. rewrite N2Z.inj_succ. unfold Z.succ.
  rewrite !inject_Z_plus. change (inject_Z 1) with 1. lra.
Defined.

Lemma C4_witness :
  frames (frame_loop LinearEasing LinearEasing sixty_hertz 48006
                     (arrow_down_picker ["a"; "b"; "c"; "d"; "e"]%string 180)) = []
  /\ _currentScroll
       (frame_loop LinearEasing LinearEasing sixty_hertz 48006
                   (arrow_down_picker ["a"; "b"; "c"; "d"; "e"]%string 180)) == 24
  /\ selects
       (frame_loop LinearEasing LinearEasing sixty_hertz 48006
                   (arrow_down_picker ["a"; "b"; "c"; "d"; "e"]%string 180))
     = [Some "b"%string].
Proof.
  assert (Hslope : 0 < 1) by reflexivity.
  assert (Hg : 0 < 16) by reflexivity.
  assert (HD : 0 < 180) by reflexivity.
  assert (Hq : 180 <= 24000 * 1 * 16) by (vm_compute; discriminate).
  assert (H0 : 0 < sixty_hertz 0) by reflexivity.
  destruct (C4_arrow_down_selects_next_item LinearEasing LinearEasing 1
              Hslope linear_slope linear_at_1 linear_range linear_inverse
              16 Hg "a" "b" "c" "d" "e" 180 sixty_hertz HD Hq H0 sixty_hertz_gap)
    as (_ & Hover & Hresult).
  pose proof (Hover 48006%N (N.le_refl 48006)) as Hfr.
  split; [exact Hfr|]. exact (Hresult 48006%N Hfr).
Defined.
